(** * NoSuspend.py: inhibition scopes and their backends

    A shallow embedding of [NoSuspend.py]: the flag enumerations, the
    scope constructor, the degraded variants, the Windows (Vista and
    later) scope over [SetThreadExecutionState], and the Linux scope over
    the D-Bus inhibitors, followed by the properties of the
    specification that concern them.

    Python integers are unbounded, so flag values are [Z] and the
    operator [|] of [IntFlag] is [Z.lor].  Methods that mutate objects or
    may raise run in a state-and-exception monad in which the state
    survives a raise, as the Python heap does. *)

From stdpp Require Import gmap strings list.
From Stdlib Require Import ZArith Lia.

Local Open Scope Z_scope.

(** ** Python values, exceptions and the method monad *)

(** The exceptions the modelled code can raise or receive;
    [EndpointError] stands for whatever an endpoint call raises
    (a D-Bus error, the [NameError] of a broken override, ...). *)
Inductive exn : Type :=
| AttributeError (attr : string)
| TypeError
| KeyError
| NotImplementedError
| EndpointError (code : Z).

(** Values a caller can pass as positional or keyword argument. *)
Inductive pyval : Type :=
| PyNone
| PyBool (b : bool)
| PyInt (z : Z)
| PyStr (s : string).

(** [isinstance(v, bool)] *)
Definition isinstance_bool (v : pyval) : bool :=
  match v with PyBool _ => true | _ => false end.

(** [bool * int], a [bool] being the integer 0 or 1. *)
Definition bool_times (b : bool) (z : Z) : Z := Z.b2z b * z.

(** A method body: reads and writes a state [S], returns or raises. *)
Definition M (S A : Type) : Type := S -> (exn + A) * S.

Definition ret {S A} (a : A) : M S A := fun s => (inr a, s).

Definition raise {S A} (e : exn) : M S A := fun s => (inl e, s).

Definition bind {S A B} (c : M S A) (k : A -> M S B) : M S B :=
  fun s => match c s with
           | (inr a, s') => k a s'
           | (inl e, s') => (inl e, s')
           end.

Definition get {S} : M S S := fun s => (inr s, s).

Definition put {S} (s : S) : M S unit := fun _ => (inr tt, s).

Definition modify {S} (f : S -> S) : M S unit := fun s => (inr tt, f s).

(** [try: c  except BaseException: pass] *)
Definition try_pass {S A} (c : M S A) : M S unit :=
  fun s => (inr tt, snd (c s)).

Declare Scope py_scope.
Delimit Scope py_scope with py.
Notation "x <- c ;; k" := (bind c (fun x => k))
  (at level 100, c at next level, right associativity) : py_scope.
Notation "c ;;; k" := (bind c (fun _ => k))
  (at level 100, right associativity) : py_scope.
Local Open Scope py_scope.

(** [for x in l: body(x)]; a raise leaves the loop. *)
Fixpoint for_each {S A} (l : list A) (body : A -> M S unit) : M S unit :=
  match l with
  | [] => ret tt
  | x :: l' => body x ;;; for_each l' body
  end.

(** ** Flag enumerations *)

(** What [getattr(cls, name)] can yield on an enumeration class: an
    integer (every member of an [IntFlag] is one, and so are a few
    attributes of any class) or an object that is no integer. *)
Inductive pyattr : Type :=
| AInt (z : Z)
| AOther.

(** An [IntFlag] class: the canonical members in definition order, the
    alias names (second names of a value already defined), and the rest
    of the attribute namespace of the class object. *)
Record IntFlagClass : Type := {
  members : list (string * Z);
  aliases : list (string * Z);
  namespace : string -> option pyattr
}.

Fixpoint assoc {A} (k : string) (l : list (string * A)) : option A :=
  match l with
  | [] => None
  | (k', v) :: l' => if String.eqb k k' then Some v else assoc k l'
  end.

(** [getattr(E, k)], [None] when the lookup raises [AttributeError]. *)
Definition getattr (E : IntFlagClass) (k : string) : option pyattr :=
  match assoc k (members E) with
  | Some v => Some (AInt v)
  | None =>
      match assoc k (aliases E) with
      | Some v => Some (AInt v)
      | None => namespace E k
      end
  end.

Definition hasattr (E : IntFlagClass) (k : string) : bool :=
  match getattr E k with Some _ => true | None => false end.

(** An attribute read that is then used as an integer operand. *)
Definition getattr_int {S} (E : IntFlagClass) (k : string) : M S Z :=
  match getattr E k with
  | Some (AInt z) => ret z
  | Some AOther => raise TypeError
  | None => raise (AttributeError k)
  end.

(** [a | b] on [IntFlag] values. *)
Definition IntFlag_or (a b : Z) : Z := Z.lor a b.

(** [class SuspendInhibitionState(IntFlag)] *)
Definition SuspendInhibitionState (ns : string -> option pyattr) : IntFlagClass :=
  {| members := [("none"%string, 0); ("suspend"%string, 1); ("display"%string, 2)];
     aliases := [];
     namespace := ns |}.

(** [class EXECUTION_STATE(IntFlag)]; in [hidden = AWAYMODE_REQUIRED = 0x40]
    the first target is the member and the second its alias. *)
Definition CONTINUOUS : Z := 0x80000000.

Definition EXECUTION_STATE (ns : string -> option pyattr) : IntFlagClass :=
  {| members := [("hidden"%string, 0x40); ("CONTINUOUS"%string, CONTINUOUS);
                 ("display"%string, 0x2); ("suspend"%string, 0x1);
                 ("USER_PRESENT"%string, 0x4)];
     aliases := [("AWAYMODE_REQUIRED"%string, 0x40);
                 ("DISPLAY_REQUIRED"%string, 0x2);
                 ("SYSTEM_REQUIRED"%string, 0x1)];
     namespace := ns |}.

(** *** [enum._decompose]

    The standard-library helper imported as [_enumDecompose] (CPython 3.8
    to 3.10).  A decomposed member is a named member or, for a bit no
    named member covers, the unnamed pseudo-member that constructing the
    flag value has registered for that bit. *)
Definition flag_member : Type := (option string * Z)%type.

(** Named members contained in [value], in definition order. *)
Definition covering (E : IntFlagClass) (value : Z) : list flag_member :=
  List.map (fun m => (Some (fst m), snd m))
    (List.filter (fun m => negb (snd m =? 0) && (Z.land (snd m) value =? snd m))
       (members E)).

(** [not_covered &= ~member_value] over the collected members. *)
Definition uncover (value : Z) (ms : list flag_member) : Z :=
  fold_left (fun nc m => Z.land nc (Z.lnot (snd m))) ms value.

(** The single bits of a positive number, highest first. *)
Fixpoint high_bits (p : positive) (weight : Z) (acc : list Z) : list Z :=
  match p with
  | xH => weight :: acc
  | xO q => high_bits q (2 * weight) acc
  | xI q => high_bits q (2 * weight) (weight :: acc)
  end.

Definition pseudo_members (not_covered : Z) : list flag_member :=
  match not_covered with
  | Zpos p => List.map (fun b => (None, b)) (high_bits p 1 [])
  | _ => []
  end.

(** [_value2member_map_[value]] for a value that has been constructed. *)
Definition value2member (E : IntFlagClass) (value : Z) : flag_member :=
  match List.find (fun m => snd m =? value) (members E) with
  | Some m => (Some (fst m), snd m)
  | None => (None, value)
  end.

(** [members.sort(key=lambda m: m._value_, reverse=True)], stable. *)
Fixpoint insert_desc (m : flag_member) (l : list flag_member) : list flag_member :=
  match l with
  | [] => [m]
  | x :: l' => if snd x <=? snd m then m :: l else x :: insert_desc m l'
  end.

Definition sort_desc (l : list flag_member) : list flag_member :=
  fold_right insert_desc [] l.

Definition _enumDecompose (E : IntFlagClass) (value : Z) : list flag_member * Z :=
  let named := covering E value in
  let not_covered := uncover value named in
  let ms := if value <? 0 then named else named ++ pseudo_members not_covered in
  let not_covered := if value <? 0 then not_covered else uncover not_covered (pseudo_members not_covered) in
  let ms := match ms with [] => [value2member E value] | _ => ms end in
  let ms := sort_desc ms in
  let ms := match ms with
            | m :: (_ :: _) as rest => if snd m =? value then rest else ms
            | _ => ms
            end in
  (ms, not_covered).

(** ** [class NoSuspend] *)

Record NoSuspend_obj : Type := {
  flag : Z;
  inherit : bool
}.

(** The loop body of [__init__]: one keyword argument against the
    running [flag]. *)
Definition init_kwarg {S} (E : IntFlagClass) (acc : Z) (kv : string * pyval) : M S Z :=
  match kv with
  | (k, PyBool v) =>
      if hasattr E k
      then (a <- getattr_int E k ;; ret (IntFlag_or acc (bool_times v a)))
      else ret acc
  | _ => ret acc
  end.

Fixpoint init_kwargs {S} (E : IntFlagClass) (acc : Z) (kwargs : list (string * pyval)) : M S Z :=
  match kwargs with
  | [] => ret acc
  | kv :: rest => acc' <- init_kwarg E acc kv ;; init_kwargs E acc' rest
  end.

(** [NoSuspend.__init__(self, suspend, display, inherit, **kwargs)] with
    [E] the [STATE_ENUM] of the class of [self]. *)
Definition NoSuspend_init {S} (E : IntFlagClass) (suspend display inherit_ : bool)
    (kwargs : list (string * pyval)) : M S NoSuspend_obj :=
  es <- getattr_int E "suspend" ;;
  ed <- getattr_int E "display" ;;
  f <- init_kwargs E (Z.lor (bool_times suspend es) (bool_times display ed)) kwargs ;;
  ret {| flag := f; inherit := inherit_ |}.

(** ** The heap shape of a method call: [self] and the world around it *)

Definition on_world {O W A} (c : M W A) : M (O * W) A :=
  fun s => (fst (c (snd s)), (fst s, snd (c (snd s)))).

Definition get_self {O W} : M (O * W) O := fun s => (inr (fst s), s).

Definition set_self {O W} (f : O -> O) : M (O * W) unit :=
  fun s => (inr tt, (f (fst s), snd s)).

(** [warnings.warn(msg)]: the message is appended to the log of the
    process. *)
Class WarningLog (S : Type) : Type := {
  log_warning : string -> S -> S;
  warnings_of : S -> list string
}.

#[global] Instance WarningLog_list : WarningLog (list string) :=
  {| log_warning := fun msg l => l ++ [msg]; warnings_of := fun l => l |}.

#[global] Instance WarningLog_pair {O W} `{WarningLog W} : WarningLog (O * W) :=
  {| log_warning := fun msg s => (fst s, log_warning msg (snd s));
     warnings_of := fun s => warnings_of (snd s) |}.

Definition warnings_warn {S} `{WarningLog S} (msg : string) : M S unit :=
  modify (log_warning msg).

(** ** The class hierarchy *)

Inductive pyclass : Type :=
| NoSuspend
| NoSuspendDummy
| NoSuspendNotAvailable
| NoSuspendNotImplemented
| NoSuspendDependenciesAreMissing
| NoSuspendWinVistaPlus
| NoSuspendWinXP
| NoSuspendLinux.

#[global] Instance pyclass_eq_dec : EqDecision pyclass.
Proof. solve_decision. Defined.

(** The base named in each [class] statement ([None]: [object]). *)
Definition base_class (c : pyclass) : option pyclass :=
  match c with
  | NoSuspend => None
  | NoSuspendDummy => Some NoSuspend
  | NoSuspendNotAvailable => Some NoSuspendDummy
  | NoSuspendNotImplemented => Some NoSuspendNotAvailable
  | NoSuspendDependenciesAreMissing => Some NoSuspendNotAvailable
  | NoSuspendWinVistaPlus => Some NoSuspend
  | NoSuspendWinXP => Some NoSuspend
  | NoSuspendLinux => Some NoSuspend
  end.

Fixpoint ancestors (depth : nat) (c : pyclass) : list pyclass :=
  match depth with
  | O => []
  | S d => c :: match base_class c with
                | Some b => ancestors d b
                | None => []
                end
  end.

(** Single inheritance throughout: the resolution order is the chain of
    bases. *)
Definition mro (c : pyclass) : list pyclass := ancestors 8 c.

Definition issubclass (c d : pyclass) : bool := bool_decide (d ∈ mro c).

(** The classes whose body has a [def __enter__] / [def __exit__]. *)
Definition defines_enter (c : pyclass) : bool :=
  match c with
  | NoSuspendNotAvailable => false
  | _ => true
  end.

Definition defines_exit (c : pyclass) : bool :=
  match c with
  | NoSuspend | NoSuspendDummy | NoSuspendWinVistaPlus | NoSuspendWinXP
  | NoSuspendLinux => true
  | _ => false
  end.

(** The classes that ask a platform facility for an inhibition. *)
Definition inhibiting (c : pyclass) : bool :=
  match c with
  | NoSuspendWinVistaPlus | NoSuspendWinXP | NoSuspendLinux => true
  | _ => false
  end.

(** ** [NoSuspendDummy] and its subclasses *)

(** [NoSuspendDummy.__init__(self, *args, **kwargs): pass] *)
Definition NoSuspendDummy_init {S} (args : list pyval) (kwargs : list (string * pyval)) : M S unit :=
  ret tt.

Definition NoSuspendDummy_enter {S} : M S Z := ret 0.

Definition NoSuspendDummy_exit {S} : M S unit := ret tt.

Definition not_implemented_message : string :=
  "Suspension prevention is not implemented in this lib for this environment. Help is welcome.".

Definition NoSuspendNotImplemented_enter {S} `{WarningLog S} : M S Z :=
  warnings_warn not_implemented_message ;;; NoSuspendDummy_enter.

Definition NoSuspendDependenciesAreMissing_enter {S} `{WarningLog S} : M S Z :=
  warnings_warn not_implemented_message ;;; NoSuspendDummy_enter.

(** [__enter__] and [__exit__] as found along the resolution order, for
    the classes whose methods need the warning log only; the platform
    scopes have their own state and follow below. *)
Definition enter_method {S} `{WarningLog S} (c : pyclass) : option (M S Z) :=
  match List.find defines_enter (mro c) with
  | Some NoSuspend => Some (raise NotImplementedError)
  | Some NoSuspendDummy => Some NoSuspendDummy_enter
  | Some NoSuspendNotImplemented => Some NoSuspendNotImplemented_enter
  | Some NoSuspendDependenciesAreMissing => Some NoSuspendDependenciesAreMissing_enter
  | _ => None
  end.

Definition exit_method {S} (c : pyclass) : option (M S unit) :=
  match List.find defines_exit (mro c) with
  | Some NoSuspend => Some (raise NotImplementedError)
  | Some NoSuspendDummy => Some NoSuspendDummy_exit
  | _ => None
  end.

(** ** [NoSuspendWinVistaPlus] *)

Record NoSuspendWinVistaPlus_obj : Type := {
  win_base : NoSuspend_obj;
  prev : option Z;
  current : option Z
}.

Definition set_prev (p : option Z) (o : NoSuspendWinVistaPlus_obj) : NoSuspendWinVistaPlus_obj :=
  {| win_base := win_base o; prev := p; current := current o |}.

Definition set_current (c : option Z) (o : NoSuspendWinVistaPlus_obj) : NoSuspendWinVistaPlus_obj :=
  {| win_base := win_base o; prev := prev o; current := c |}.

(** Modelled from the spec: the platform call behind
    [ctypes.windll.kernel32.SetThreadExecutionState], as the fake
    single-call backend that records its bitmask: one call sets the
    complete bitmask and returns the previous one. *)
Definition recording_SetThreadExecutionState (esFlags : Z) : M Z Z :=
  fun mask => (inr mask, esFlags).

Section WinVistaPlus.

(** The state of the platform and its call. *)
Context {K : Type}.
Variable SetThreadExecutionState : Z -> M K Z.

Definition getCurrentState : M K Z := SetThreadExecutionState 0.

(** [int(es)] raises on [None]. *)
Definition setThreadExecutionState (es : option Z) : M K Z :=
  match es with
  | Some z => SetThreadExecutionState z
  | None => raise TypeError
  end.

Definition NoSuspendWinVistaPlus_init (ns : string -> option pyattr)
    (suspend display AWAYMODE_REQUIRED inherit_ : bool)
    (kwargs : list (string * pyval)) : M K NoSuspendWinVistaPlus_obj :=
  b <- NoSuspend_init (EXECUTION_STATE ns) suspend display inherit_
         (("AWAYMODE_REQUIRED"%string, PyBool AWAYMODE_REQUIRED) :: kwargs) ;;
  ret {| win_base := {| flag := IntFlag_or (flag b) CONTINUOUS; inherit := inherit b |};
         prev := None; current := None |}.

Definition NoSuspendWinVistaPlus_enter : M (NoSuspendWinVistaPlus_obj * K) (option Z) :=
  p <- on_world getCurrentState ;;
  set_self (set_prev (Some p)) ;;;
  self <- get_self ;;
  cur <- (if inherit (win_base self)
          then match prev self with
               | Some z => ret (IntFlag_or (flag (win_base self)) z)
               | None => raise TypeError
               end
          else ret (IntFlag_or (flag (win_base self)) 0)) ;;
  set_self (set_current (Some cur)) ;;;
  self <- get_self ;;
  on_world (setThreadExecutionState (current self)) ;;;
  self <- get_self ;;
  ret (current self).

Definition NoSuspendWinVistaPlus_exit : M (NoSuspendWinVistaPlus_obj * K) unit :=
  self <- get_self ;;
  set_self (set_current (prev self)) ;;;
  self <- get_self ;;
  on_world (setThreadExecutionState (current self)) ;;;
  set_self (set_prev None).

End WinVistaPlus.

(** ** The Linux backend: D-Bus inhibitors and [NoSuspendLinux] *)

(** An inhibitor object of the table [dbusPowerRelatedInterfaces] is
    identified by its position there; a cookie is what its endpoint
    returned. *)
Definition Endpoint : Type := nat.
Definition Cookie : Type := Z.

(** The calls that reached the endpoints, with their outcomes. *)
Inductive Call : Type :=
| InhibitCall (e : Endpoint) (appName reason : string) (res : exn + Cookie)
| UnInhibitCall (e : Endpoint) (ck : Cookie) (res : exn + unit).

(** The endpoints behind [_inhibitCall] and [_uninhibitCall] (the D-Bus
    proxies, and whatever the overriding subclasses make of them): each
    outcome may depend on everything that was called before. *)
Record Platform : Type := {
  inhibit_result : Endpoint -> string -> string -> list Call -> exn + Cookie;
  uninhibit_result : Endpoint -> Cookie -> list Call -> exn + unit
}.

(** The process as the Linux backend sees it: the calls made so far, the
    [cookies] set of every (module-level, shared) inhibitor object, and
    the warnings. *)
Record World : Type := {
  calls : list Call;
  inhibitor_cookies : gmap Endpoint (gset Cookie);
  warned : list string
}.

#[global] Instance WarningLog_World : WarningLog World :=
  {| log_warning := fun msg w =>
       {| calls := calls w; inhibitor_cookies := inhibitor_cookies w;
          warned := warned w ++ [msg] |};
     warnings_of := warned |}.

Definition record_call (c : Call) (w : World) : World :=
  {| calls := calls w ++ [c]; inhibitor_cookies := inhibitor_cookies w;
     warned := warned w |}.

Definition cookies_of (e : Endpoint) (w : World) : gset Cookie :=
  default ∅ (inhibitor_cookies w !! e).

Definition set_cookies_of (e : Endpoint) (cs : gset Cookie) (w : World) : World :=
  {| calls := calls w; inhibitor_cookies := <[e := cs]> (inhibitor_cookies w);
     warned := warned w |}.

(** The successful acquisitions and the release attempts of a trace. *)
Definition acquired (tr : list Call) : list (Endpoint * Cookie) :=
  omap (fun c => match c with
                 | InhibitCall e _ _ (inr ck) => Some (e, ck)
                 | _ => None
                 end) tr.

Definition released (tr : list Call) : list (Endpoint * Cookie) :=
  omap (fun c => match c with
                 | UnInhibitCall e ck _ => Some (e, ck)
                 | _ => None
                 end) tr.

(** The endpoints on which an acquisition was attempted. *)
Definition tried (tr : list Call) : list Endpoint :=
  omap (fun c => match c with
                 | InhibitCall e _ _ _ => Some e
                 | _ => None
                 end) tr.

(** What the attribute [cookies] of a scope holds: the
    [defaultdict(list)] of [__init__], in insertion order, or the [[]]
    that [__exit__] assigns. *)
Inductive cookies_value : Type :=
| DefaultDict (d : list (string * list (Endpoint * Cookie)))
| EmptyList.

Record NoSuspendLinux_obj : Type := {
  linux_base : NoSuspend_obj;
  cookies : cookies_value;
  appName : string;
  reason : string
}.

Definition set_cookies (c : cookies_value) (o : NoSuspendLinux_obj) : NoSuspendLinux_obj :=
  {| linux_base := linux_base o; cookies := c; appName := appName o; reason := reason o |}.

(** [d[k].append(x)] on a [defaultdict(list)]. *)
Fixpoint dict_append {A} (k : string) (x : A) (d : list (string * list A)) : list (string * list A) :=
  match d with
  | [] => [(k, [x])]
  | (k', l) :: d' => if String.eqb k k' then (k', l ++ [x]) :: d'
                     else (k', l) :: dict_append k x d'
  end.

(** The pairs held by a scope, group after group. *)
Definition held (c : cookies_value) : list (Endpoint * Cookie) :=
  match c with
  | DefaultDict d => concat (List.map snd d)
  | EmptyList => []
  end.

Definition inherit_message : string :=
  "Inherit is set to false, which means completely redefining the state, including reverting inhibitions. It is hardly possible, because it requires determinig the inhibitions belonging to the current thread, releasing them and then on restore restoring them. We can't do the first part. At least for now. I don't quit need that, so help is welcome.".

Definition not_set_message (grNm : string) : string :=
  "The suspension for `" +:+ grNm +:+ "` is not set (either not implemented, or not available in the environment), ignoring".

Section Linux.

(** The endpoints, the discovered table [powerRelatedIfcs] (group, then
    desktop, then proxy name) and the rest of the namespace of
    [SuspendInhibitionState]. *)
Variable P : Platform.
Variable powerRelatedIfcs : list (string * list (string * list (string * Endpoint))).
Variable ns : string -> option pyattr.

Definition _inhibitCall (e : Endpoint) (appName reason : string) : M World Cookie :=
  fun w => let r := inhibit_result P e appName reason (calls w) in
           (r, record_call (InhibitCall e appName reason r) w).

Definition _uninhibitCall (e : Endpoint) (cookie : Cookie) : M World unit :=
  fun w => let r := uninhibit_result P e cookie (calls w) in
           (r, record_call (UnInhibitCall e cookie r) w).

(** [DBusInhibitor.inhibit] *)
Definition inhibit (e : Endpoint) (appName reason : string) : M World Cookie :=
  ck <- _inhibitCall e appName reason ;;
  modify (fun w => set_cookies_of e (cookies_of e w ∪ {[ck]}) w) ;;;
  ret ck.

(** [DBusInhibitor.uninhibit]; [set.remove] raises [KeyError] on a
    missing element. *)
Definition uninhibit (e : Endpoint) (cookie : Cookie) : M World unit :=
  rv <- _uninhibitCall e cookie ;;
  w <- get ;;
  (if bool_decide (cookie ∈ cookies_of e w)
   then modify (set_cookies_of e (cookies_of e w ∖ {[cookie]}))
   else raise KeyError) ;;;
  ret rv.

(** [DBusInhibitor.__del__] *)
Definition DBusInhibitor_del (e : Endpoint) : M World unit :=
  w <- get ;;
  for_each (elements (cookies_of e w)) (fun ck => try_pass (_uninhibitCall e ck)).

Definition NoSuspendLinux_init (suspend display inherit_ : bool)
    (appName_ reason_ : string) (kwargs : list (string * pyval)) : M World NoSuspendLinux_obj :=
  b <- NoSuspend_init (SuspendInhibitionState ns) suspend display inherit_
         (("appName"%string, PyStr "Python NoSuspend") :: ("reason"%string, PyStr reason_) :: kwargs) ;;
  (if negb inherit_ then warnings_warn inherit_message else ret tt) ;;;
  ret {| linux_base := b; cookies := DefaultDict []; appName := appName_; reason := reason_ |}.

(** [self.cookies[grNm].append((inhibiter, ck))]; a list takes no string
    index. *)
Definition cookies_append (grNm : string) (x : Endpoint * Cookie) : M (NoSuspendLinux_obj * World) unit :=
  self <- get_self ;;
  match cookies self with
  | DefaultDict d => set_self (set_cookies (DefaultDict (dict_append grNm x d)))
  | EmptyList => raise TypeError
  end.

(** The body of the loop over the endpoints of one group. *)
Definition acquire_endpoint (grNm : string) (inhibiter : Endpoint) : M (NoSuspendLinux_obj * World) unit :=
  self <- get_self ;;
  ck <- on_world (inhibit inhibiter (appName self) (reason self)) ;;
  cookies_append grNm (inhibiter, ck).

(** The endpoints of a group, desktop after desktop. *)
Definition group_endpoints (des : list (string * list (string * Endpoint))) : list Endpoint :=
  concat (List.map (fun de => List.map snd (snd de)) des).

(** The body of the loop over the decomposed members; the name of a
    pseudo-member is [None], which is no key and no string to
    concatenate. *)
Definition enter_group (gr : flag_member) : M (NoSuspendLinux_obj * World) unit :=
  match fst gr with
  | Some grNm =>
      match assoc grNm powerRelatedIfcs with
      | Some des =>
          for_each des (fun de =>
            for_each (snd de) (fun i => acquire_endpoint grNm (snd i)))
      | None => warnings_warn (not_set_message grNm)
      end
  | None => raise TypeError
  end.

Definition NoSuspendLinux_enter : M (NoSuspendLinux_obj * World) Z :=
  self <- get_self ;;
  for_each (fst (_enumDecompose (SuspendInhibitionState ns) (flag (linux_base self))))
    enter_group ;;;
  self <- get_self ;;
  ret (flag (linux_base self)).

Definition NoSuspendLinux_exit : M (NoSuspendLinux_obj * World) unit :=
  self <- get_self ;;
  match cookies self with
  | DefaultDict d =>
      for_each (List.map snd d) (fun group =>
        for_each group (fun cancelCall =>
          on_world (uninhibit (fst cancelCall) (snd cancelCall)))) ;;;
      set_self (set_cookies EmptyList)
  | EmptyList => raise (AttributeError "values")
  end.

(** [self.uninhibit]: neither [NoSuspendLinux] nor a base defines it. *)
Definition self_uninhibit (ck : string) : M (NoSuspendLinux_obj * World) unit :=
  raise (AttributeError "uninhibit").

(** [NoSuspendLinux.__del__]; iterating a dictionary yields its keys. *)
Definition NoSuspendLinux_del : M (NoSuspendLinux_obj * World) unit :=
  self <- get_self ;;
  for_each (match cookies self with
            | DefaultDict d => List.map fst d
            | EmptyList => []
            end)
    (fun ck => try_pass (self_uninhibit ck)).

End Linux.

(** ** Specification-side vocabulary and concrete inputs *)

(** A keyword argument passes the test of [__init__] when its name is an
    attribute of the enumeration and its value is a [bool]. *)
Definition accepted (E : IntFlagClass) (kv : string * pyval) : bool :=
  hasattr E (fst kv) && isinstance_bool (snd kv).

(** The bit a keyword argument contributes. *)
Definition kwarg_bit (E : IntFlagClass) (kv : string * pyval) : Z :=
  match kv with
  | (k, PyBool v) =>
      match getattr E k with
      | Some (AInt z) => bool_times v z
      | _ => 0
      end
  | _ => 0
  end.

(** The union of the bits of the keyword arguments. *)
Definition extra_bits (E : IntFlagClass) (kwargs : list (string * pyval)) : Z :=
  fold_right (fun kv acc => Z.lor (kwarg_bit E kv) acc) 0 kwargs.

(** A class object with no attribute besides its members. *)
Definition no_namespace : string -> option pyattr := fun _ => None.

(** A class object with one integer attribute and one method besides its
    members. *)
Definition small_namespace : string -> option pyattr :=
  fun k => if String.eqb k "__basicsize__" then Some (AInt 24)
           else if String.eqb k "bit_length" then Some AOther
           else None.

(** The fake single-call backend of the specification at work: a scope
    that asks for [suspend], entered while [display] is inhibited. *)
Definition suspend_scope (inherit_ : bool) : NoSuspendWinVistaPlus_obj :=
  {| win_base := {| flag := Z.lor 1 CONTINUOUS; inherit := inherit_ |};
     prev := None; current := None |}.

(** What a scope sets out to do when entered, in order: an endpoint to
    acquire on, or a warning to emit. *)
Definition group_plan (powerRelatedIfcs : list (string * list (string * list (string * Endpoint))))
    (gr : flag_member) : list (Endpoint + string) :=
  match fst gr with
  | Some grNm =>
      match assoc grNm powerRelatedIfcs with
      | Some des => List.map inl (group_endpoints des)
      | None => [inr (not_set_message grNm)]
      end
  | None => []
  end.

Definition enter_plan (powerRelatedIfcs : list (string * list (string * list (string * Endpoint))))
    (ns : string -> option pyattr) (flag_ : Z) : list (Endpoint + string) :=
  concat (List.map (group_plan powerRelatedIfcs)
            (fst (_enumDecompose (SuspendInhibitionState ns) flag_))).

Definition plan_endpoints (l : list (Endpoint + string)) : list Endpoint :=
  omap (fun i => match i with inl e => Some e | inr _ => None end) l.

Definition plan_warnings (l : list (Endpoint + string)) : list string :=
  omap (fun i => match i with inl _ => None | inr m => Some m end) l.

(** An acquisition that returned a cookie. *)
Definition acquire_ok (c : Call) : Prop :=
  match c with
  | InhibitCall _ _ _ (inr _) => True
  | _ => False
  end.

(** A process in which nothing has happened yet. *)
Definition fresh_world : World :=
  {| calls := []; inhibitor_cookies := ∅; warned := [] |}.

(** A discovered table with the two group keys of
    [dbusPowerRelatedInterfaces]: two endpoints for [suspend], one for
    [screensaver]. *)
Definition two_suspend_endpoints : list (string * list (string * list (string * Endpoint))) :=
  [("suspend"%string,
      [("freedesktop"%string, [("Inhibit"%string, 0%nat)]);
       ("gnome"%string, [("SessionManager"%string, 1%nat)])]);
   ("screensaver"%string,
      [("freedesktop"%string, [("ScreenSaver"%string, 2%nat)])])].

(** Endpoints that all answer: endpoint [e] hands out the cookie
    [7 + e], and every release succeeds. *)
Definition all_answer : Platform :=
  {| inhibit_result := fun e _ _ _ => inr (7 + Z.of_nat e);
     uninhibit_result := fun _ _ _ => inr tt |}.

(** The acquire call of endpoint [bad] raises; the others answer. *)
Definition acquire_raises_on (bad : Endpoint) : Platform :=
  {| inhibit_result := fun e _ _ _ =>
       if Nat.eqb e bad then inl (EndpointError 1) else inr (7 + Z.of_nat e);
     uninhibit_result := fun _ _ _ => inr tt |}.

(** The release call of endpoint [bad] raises; everything else answers. *)
Definition release_raises_on (bad : Endpoint) : Platform :=
  {| inhibit_result := fun e _ _ _ => inr (7 + Z.of_nat e);
     uninhibit_result := fun e _ _ =>
       if Nat.eqb e bad then inl (EndpointError 2) else inr tt |}.

(** The scope [NoSuspend(suspend, display)] of the Linux backend, right
    after construction. *)
Definition linux_scope (suspend display : bool) : NoSuspendLinux_obj :=
  {| linux_base := {| flag := Z.lor (bool_times suspend 1) (bool_times display 2);
                      inherit := true |};
     cookies := DefaultDict [];
     appName := "Python NoSuspend";
     reason := "NoSuspend was called" |}.

(** The state a method of the Linux scope runs in. *)
Abbreviation state := (NoSuspendLinux_obj * World)%type.

(** A release that the endpoint accepted. *)
Definition release_ok (c : Call) : Prop :=
  match c with
  | UnInhibitCall _ _ (inr _) => True
  | _ => False
  end.

(** The relation the release loop maintains over the pairs it is to
    release. *)
Definition releasing (l : list (Endpoint * Cookie)) (st st' : NoSuspendLinux_obj * World) (r : exn + unit) : Prop :=
  fst st' = fst st /\
  warned (snd st') = warned (snd st) /\
  exists new,
    calls (snd st') = calls (snd st) ++ new /\
    acquired new = [] /\ tried new = [] /\
    released new `prefix_of` l /\
    match r with
    | inr _ => released new = l /\ Forall release_ok new
    | inl err =>
        exists pre e ck res,
          new = pre ++ [UnInhibitCall e ck res] /\ Forall release_ok pre /\
          (res = inl err \/ (res = inr tt /\ err = KeyError))
    end.

(** The relation the acquisition loops maintain over what they are to
    do: the new calls are successful acquisitions, possibly followed by
    one failed acquisition whose error ends the loop; every cookie
    obtained is recorded in the dictionary of the scope. *)
Definition entering (l : list (Endpoint + string)) (st st' : NoSuspendLinux_obj * World) (r : exn + unit) : Prop :=
  linux_base (fst st') = linux_base (fst st) /\
  appName (fst st') = appName (fst st) /\
  reason (fst st') = reason (fst st) /\
  exists new ws,
    calls (snd st') = calls (snd st) ++ new /\
    warned (snd st') = warned (snd st) ++ ws /\
    released new = [] /\
    tried new `prefix_of` plan_endpoints l /\
    ws `prefix_of` plan_warnings l /\
    (forall d, cookies (fst st) = DefaultDict d ->
       exists d', cookies (fst st') = DefaultDict d' /\
                  held (DefaultDict d') ≡ₚ held (DefaultDict d) ++ acquired new) /\
    match r with
    | inr _ => Forall acquire_ok new /\ tried new = plan_endpoints l /\ ws = plan_warnings l
    | inl err =>
        (exists pre e a rs, new = pre ++ [InhibitCall e a rs (inl err)] /\
                            Forall acquire_ok pre) \/
        (Forall acquire_ok new /\ err = TypeError)
    end.

(** The routine conjuncts of the loop relations. *)
Ltac side_conditions :=
  repeat (split; [first [reflexivity | apply prefix_nil] |]).

(** ** The [with] statement *)

(** [with scope as v: body(v)].  When [__enter__] raises, nothing else
    runs.  Otherwise [__exit__] runs whether the body returned or
    raised; every [__exit__] of this module returns [None], so an error
    of the body is raised again once [__exit__] has returned, and an
    error of [__exit__] itself replaces it. *)
Definition with_ {S A B} (enter : M S A) (exit_ : M S unit) (body : A -> M S B) : M S B :=
  fun s =>
    match enter s with
    | (inl e, s1) => (inl e, s1)
    | (inr v, s1) =>
        match body v s1 with
        | (r, s2) =>
            match exit_ s2 with
            | (inl e', s3) => (inl e', s3)
            | (inr _, s3) => (r, s3)
            end
        end
    end.

(** The flags [NoSuspendWinVistaPlus.__enter__] puts in force for a scope
    entered while the bitmask is [m]. *)
Definition effective (s : NoSuspendWinVistaPlus_obj) (m : Z) : Z :=
  IntFlag_or (flag (win_base s)) (if inherit (win_base s) then m else 0).

(** The flags the named parameters of a constructor ask for. *)
Definition named_bits (suspend display : bool) : Z :=
  Z.lor (bool_times suspend 1) (bool_times display 2).

(** Every pair a scope holds is a cookie its inhibitor knows. *)
Definition known (st : NoSuspendLinux_obj * World) : Prop :=
  forall e ck, In (e, ck) (held (cookies (fst st))) -> ck ∈ cookies_of e (snd st).

(** The loops of [__enter__] keep the invariant; the index of
    [for_each_ind] plays no part here. *)
Definition keeps_known (_ : list unit) (st st' : NoSuspendLinux_obj * World)
    (_ : exn + unit) : Prop :=
  known st -> known st'.

(** ** Discovery of the D-Bus endpoints *)

(** The classes of inhibitor objects. *)
Inductive inhibitor_class : Type :=
| DBusInhibitor
| KDEInhibitor
| SystemDInhibitor
| GnomeInhibitor.

(** [INHIBIT_METHOD_NAME] and [UNINHIBIT_METHOD_NAME] as found on the
    class ([GnomeInhibitor] inherits both; [SystemDInhibitor] sets the
    second to [None]). *)
Definition INHIBIT_METHOD_NAME (c : inhibitor_class) : option string :=
  match c with
  | KDEInhibitor => Some "AddInhibition"%string
  | _ => Some "Inhibit"%string
  end.

Definition UNINHIBIT_METHOD_NAME (c : inhibitor_class) : option string :=
  match c with
  | KDEInhibitor => Some "ReleaseInhibition"%string
  | SystemDInhibitor => None
  | _ => Some "UnInhibit"%string
  end.

(** An inhibitor object of the table: its identity, its class and the
    [additionalMethods] given to its constructor. *)
Record Inhibitor : Type := {
  inhibitor_id : Endpoint;
  inhibitor_class_of : inhibitor_class;
  additionalMethods : list string
}.

(** A key of the application level of the table: one name, or a tuple of
    aliases. *)
Inductive app_key : Type :=
| AppName (name : string)
| AppAliases (names : list string).

(** [if isinstance(appAliases, str): appAliases = [appAliases]] *)
Definition aliases_of (k : app_key) : list string :=
  match k with
  | AppName name => [name]
  | AppAliases names => names
  end.

(** The configuration of one group: desktop, then application names,
    then proxy path. *)
Definition group_config : Type :=
  list (string * list (app_key * list (string * Inhibitor))).

Definition dbusPowerRelatedInterfaces : list (string * group_config) :=
  [("suspend"%string,
     [("freedesktop"%string,
        [(AppAliases ["org.freedesktop.PowerManagement"%string;
                      "org.kde.powerdevil"%string;
                      "org.xfce.PowerManager"%string],
          [("/org/freedesktop/PowerManagement/Inhibit"%string,
            {| inhibitor_id := 0%nat; inhibitor_class_of := DBusInhibitor;
               additionalMethods := ["HasInhibit"%string; "GetInhibitors"%string;
                                     "HasInhibitChanged"%string] |})]);
         (AppName "org.freedesktop.login1.Manager",
          [("/org/freedesktop/login1"%string,
            {| inhibitor_id := 1%nat; inhibitor_class_of := SystemDInhibitor;
               additionalMethods := ["ListInhibitors"%string; "BlockInhibited"%string;
                                     "DelayInhibited"%string] |})])]);
      ("kde"%string,
        [(AppName "org.kde.kded",
          [("/org/kde/Solid/PowerManagement/PolicyAgent"%string,
            {| inhibitor_id := 2%nat; inhibitor_class_of := KDEInhibitor;
               additionalMethods := [] |})])]);
      ("mate"%string,
        [(AppName "org.mate.SessionManager",
          [("/org/mate/SessionManager"%string,
            {| inhibitor_id := 3%nat; inhibitor_class_of := GnomeInhibitor;
               additionalMethods := [] |})])]);
      ("gnome"%string,
        [(AppName "org.gnome.SessionManager",
          [("/org/gnome/SessionManager"%string,
            {| inhibitor_id := 4%nat; inhibitor_class_of := GnomeInhibitor;
               additionalMethods := [] |})]);
         (AppName "org.gnome.PowerManager",
          [("/org/gnome/PowerManager"%string,
            {| inhibitor_id := 5%nat; inhibitor_class_of := GnomeInhibitor;
               additionalMethods := [] |})])])]);
   ("screensaver"%string,
     [("freedesktop"%string,
        [(AppName "org.freedesktop.ScreenSaver",
          [("/org/freedesktop/ScreenSaver"%string,
            {| inhibitor_id := 6%nat; inhibitor_class_of := DBusInhibitor;
               additionalMethods := ["Lock"%string; "SimulateUserActivity"%string] |})])]);
      ("gnome"%string,
        [(AppName "org.gnome.ScreenSaver",
          [("/org/gnome/ScreenSaver"%string,
            {| inhibitor_id := 7%nat; inhibitor_class_of := DBusInhibitor;
               additionalMethods :=
                 ["Lock"%string; "Cycle"%string; "SimulateUserActivity"%string;
                  "Throttle"%string; "UnThrottle"%string; "SetActive"%string;
                  "GetActive"%string; "GetActiveTime"%string; "GetSessionIdle"%string;
                  "GetSessionIdleTime"%string] |})])])])].

(** The two buses, in the order [(SystemBus, SessionBus)]. *)
Inductive bus_kind : Type :=
| SystemBus
| SessionBus.

(** A proxy object: what [bus.get_object(appName, proxyPath)] returned. *)
Record Proxy : Type := {
  proxy_bus : bus_kind;
  proxy_app : string;
  proxy_path : string
}.

(** The D-Bus side of discovery: whether the constructor of a bus
    raises, whether [get_object] returns or raises, and whether
    [getattr(proxy, methodName)] returns or raises. *)
Record DBusEnv : Type := {
  bus_ctor : bus_kind -> option exn;
  get_object_ok : bus_kind -> string -> string -> bool;
  getattr_ok : Proxy -> string -> bool
}.

(** The attribute [ifc] of every inhibitor object: method name to bound
    method of a proxy. *)
Abbreviation Ifcs := (gmap Endpoint (gmap string (Proxy * string))).

Definition ifc_of (e : Endpoint) (ifcs : Ifcs) : gmap string (Proxy * string) :=
  default ∅ (ifcs !! e).

(** [for bus in buses: try: proxy = bus.get_object(...); break] *)
Fixpoint first_bus (env : DBusEnv) (buses : list bus_kind) (appName_ proxyPath : string) : option Proxy :=
  match buses with
  | [] => None
  | bus :: rest =>
      if get_object_ok env bus appName_ proxyPath
      then Some {| proxy_bus := bus; proxy_app := appName_; proxy_path := proxyPath |}
      else first_bus env rest appName_ proxyPath
  end.

(** [for appName in appAliases: ...; if proxy: break] *)
Fixpoint find_proxy (env : DBusEnv) (buses : list bus_kind) (appAliases : list string)
    (proxyPath : string) : option Proxy :=
  match appAliases with
  | [] => None
  | appName_ :: rest =>
      match first_bus env buses appName_ proxyPath with
      | Some proxy => Some proxy
      | None => find_proxy env buses rest proxyPath
      end
  end.

(** [proxyPath.split("/")[-1]] *)
Fixpoint last_segment (path acc : string) : string :=
  match path with
  | EmptyString => acc
  | String c rest =>
      if String.eqb (String c EmptyString) "/" then last_segment rest EmptyString
      else last_segment rest (acc +:+ String c EmptyString)
  end.

Definition proxy_name (proxyPath : string) : string := last_segment proxyPath EmptyString.

(** [d[k] = v] on a dictionary in insertion order. *)
Fixpoint dict_set {A} (k : string) (v : A) (d : list (string * A)) : list (string * A) :=
  match d with
  | [] => [(k, v)]
  | (k', v') :: d' => if String.eqb k k' then (k', v) :: d' else (k', v') :: dict_set k v d'
  end.

(** The names the discovery tries to resolve on a proxy. *)
Definition methodsNames (i : Inhibitor) : list (option string) :=
  [INHIBIT_METHOD_NAME (inhibitor_class_of i); UNINHIBIT_METHOD_NAME (inhibitor_class_of i)]
  ++ List.map Some (additionalMethods i).

(** [try: inhibitor.ifc[methodName] = getattr(proxy, methodName)
    except Exception: continue]; [getattr] with the name [None] raises
    [TypeError]. *)
Definition resolve_method (env : DBusEnv) (proxy : Proxy) (i : Inhibitor)
    (ifcs : Ifcs) (methodName : option string) : Ifcs :=
  match methodName with
  | Some name =>
      if getattr_ok env proxy name
      then <[inhibitor_id i := <[name := (proxy, name)]> (ifc_of (inhibitor_id i) ifcs)]> ifcs
      else ifcs
  | None => ifcs
  end.

(** The local [deRes] and the attributes [ifc], as the loops of
    [obtainDbusInterfaces] update them; no exception leaves these loops,
    both [try] blocks catch [Exception]. *)
Definition discovery_state : Type := (list (string * Inhibitor) * Ifcs)%type.

(** The body of the loop over [proxyPaths.items()]. *)
Definition discover_path (env : DBusEnv) (buses : list bus_kind) (appAliases : app_key)
    (st : discovery_state) (entry : string * Inhibitor) : discovery_state :=
  match find_proxy env buses (aliases_of appAliases) (fst entry) with
  | Some proxy =>
      (dict_set (proxy_name (fst entry)) (snd entry) (fst st),
       fold_left (resolve_method env proxy (snd entry)) (methodsNames (snd entry)) (snd st))
  | None => st
  end.

(** The body of the loop over [appNames.items()]. *)
Definition discover_app (env : DBusEnv) (buses : list bus_kind)
    (st : discovery_state) (app : app_key * list (string * Inhibitor)) : discovery_state :=
  fold_left (discover_path env buses (fst app)) (snd app) st.

(** The body of the loop over [cfg.items()]; [if deRes:] drops a desktop
    with nothing discovered. *)
Definition discover_de (env : DBusEnv) (buses : list bus_kind)
    (st : list (string * list (string * Inhibitor)) * Ifcs)
    (de : string * list (app_key * list (string * Inhibitor)))
    : list (string * list (string * Inhibitor)) * Ifcs :=
  let deRes := fold_left (discover_app env buses) (snd de) ([], snd st) in
  match fst deRes with
  | [] => (fst st, snd deRes)
  | _ :: _ => (dict_set (fst de) (fst deRes) (fst st), snd deRes)
  end.

(** [buses = [busCtor() for busCtor in (SystemBus, SessionBus)]] *)
Definition construct_buses (env : DBusEnv) : M Ifcs (list bus_kind) :=
  match bus_ctor env SystemBus with
  | Some e => raise e
  | None =>
      match bus_ctor env SessionBus with
      | Some e => raise e
      | None => ret [SystemBus; SessionBus]
      end
  end.

Definition obtainDbusInterfaces (env : DBusEnv) (cfg : group_config)
    : M Ifcs (list (string * list (string * Inhibitor))) :=
  buses <- construct_buses env ;;
  fun ifcs =>
    let out := fold_left (discover_de env buses) cfg ([], ifcs) in
    (inr (fst out), snd out).

(** [{k: obtainDbusInterfaces(group) for k, group in ...items()}] *)
Fixpoint obtain_all (env : DBusEnv) (table : list (string * group_config))
    : M Ifcs (list (string * list (string * list (string * Inhibitor)))) :=
  match table with
  | [] => ret []
  | (k, group) :: rest =>
      found <- obtainDbusInterfaces env group ;;
      others <- obtain_all env rest ;;
      ret ((k, found) :: others)
  end.

(** The module-level [powerRelatedIfcs]. *)
Definition powerRelatedIfcs_of (env : DBusEnv)
    : M Ifcs (list (string * list (string * list (string * Inhibitor)))) :=
  obtain_all env dbusPowerRelatedInterfaces.

(** The table as the scope model reads it: inhibitor objects by their
    identity. *)
Definition endpoints_of_table (t : list (string * list (string * list (string * Inhibitor))))
    : list (string * list (string * list (string * Endpoint))) :=
  List.map (fun g => (fst g,
              List.map (fun de => (fst de,
                          List.map (fun i => (fst i, inhibitor_id (snd i))) (snd de)))
                (snd g))) t.

(** The inhibitor objects a group configuration names. *)
Definition configured (cfg : group_config) : list (string * Inhibitor) :=
  concat (List.map (fun de => concat (List.map snd (snd de))) cfg).

(** A D-Bus on which nothing answers. *)
Definition silent_bus : DBusEnv :=
  {| bus_ctor := fun _ => None;
     get_object_ok := fun _ _ _ => false;
     getattr_ok := fun _ _ => true |}.

(** A session in which only the freedesktop power manager and the
    freedesktop screen saver answer, both on the session bus. *)
Definition freedesktop_session : DBusEnv :=
  {| bus_ctor := fun _ => None;
     get_object_ok := fun bus app _ =>
       match bus with
       | SessionBus => String.eqb app "org.freedesktop.PowerManagement"
                       || String.eqb app "org.freedesktop.ScreenSaver"
       | SystemBus => false
       end;
     getattr_ok := fun _ _ => true |}.

(** What discovery finds in that session. *)
Definition freedesktop_table : list (string * list (string * list (string * Inhibitor))) :=
  [("suspend"%string,
     [("freedesktop"%string,
        [("Inhibit"%string,
          {| inhibitor_id := 0%nat; inhibitor_class_of := DBusInhibitor;
             additionalMethods := ["HasInhibit"%string; "GetInhibitors"%string;
                                   "HasInhibitChanged"%string] |})])]);
   ("screensaver"%string,
     [("freedesktop"%string,
        [("ScreenSaver"%string,
          {| inhibitor_id := 6%nat; inhibitor_class_of := DBusInhibitor;
             additionalMethods := ["Lock"%string; "SimulateUserActivity"%string] |})])])].

Definition freedesktop_ifcs : Ifcs := snd (powerRelatedIfcs_of freedesktop_session ∅).

(** An entry of a discovered desktop is backed by a configured proxy
    path on which some alias answered on some bus. *)
Definition answered (env : DBusEnv) (buses : list bus_kind)
    (apps : list (app_key * list (string * Inhibitor)))
    (name : string) (i : Inhibitor) : Prop :=
  exists key paths path proxy,
    In (key, paths) apps /\ In (path, i) paths /\
    name = proxy_name path /\
    find_proxy env buses (aliases_of key) path = Some proxy.

(** What a discovered group may contain, given its configuration. *)
Definition sound_discovery (env : DBusEnv) (cfg : group_config)
    (found : list (string * list (string * Inhibitor))) : Prop :=
  forall de deRes, In (de, deRes) found ->
    deRes <> [] /\
    exists apps, In (de, apps) cfg /\
      forall name i, In (name, i) deRes ->
        answered env [SystemBus; SessionBus] apps name i.

(** The flags of the scopes [linux_scope] builds, decomposed. *)
Definition constructed_members (suspend display : bool) : list flag_member :=
  (if display then [(Some "display"%string, 2)] else [])
  ++ (if suspend then [(Some "suspend"%string, 1)] else [])
  ++ (if negb suspend && negb display then [(Some "none"%string, 0)] else []).

(** ** The endpoint methods of the inhibitor classes *)

Section InhibitorClasses.

(** The exception of a name that is bound nowhere, the class of each
    inhibitor object, the attributes [ifc] as discovery left them, and
    what lies beyond: the D-Bus methods, and [os.close]. *)
Variable NameError : string -> exn.
Variable class_of : Endpoint -> inhibitor_class.
Variable ifcs : Ifcs.
Variable dbus_inhibit : Proxy * string -> string -> string -> list Call -> exn + Cookie.
Variable dbus_uninhibit : Proxy * string -> Cookie -> list Call -> exn + unit.
Variable os_close : Cookie -> list Call -> exn + unit.

(** [self.ifc[name]]: [KeyError] on a name discovery did not resolve. *)
Definition ifc_lookup (e : Endpoint) (name : option string) : exn + Proxy * string :=
  match name with
  | Some n =>
      match ifc_of e ifcs !! n with
      | Some m => inr m
      | None => inl KeyError
      end
  | None => inl KeyError
  end.

(** [_inhibitCall] of each class.  [KDEInhibitor] reads the global
    [ifc], [SystemDInhibitor] the global [SystemD_INHIBITION], and
    [GnomeInhibitor], once it has found its method, the global
    [GnomeSessionInhibitor]: the module binds none of these names. *)
Definition class_inhibitCall (e : Endpoint) (appName_ reason_ : string) (tr : list Call)
    : exn + Cookie :=
  match class_of e with
  | DBusInhibitor =>
      match ifc_lookup e (INHIBIT_METHOD_NAME DBusInhibitor) with
      | inr m => dbus_inhibit m appName_ reason_ tr
      | inl err => inl err
      end
  | KDEInhibitor => inl (NameError "ifc")
  | SystemDInhibitor => inl (NameError "SystemD_INHIBITION")
  | GnomeInhibitor =>
      match ifc_lookup e (INHIBIT_METHOD_NAME GnomeInhibitor) with
      | inr _ => inl (NameError "GnomeSessionInhibitor")
      | inl err => inl err
      end
  end.

(** [_uninhibitCall] of each class; [SystemDInhibitor] closes the file
    descriptor instead. *)
Definition class_uninhibitCall (e : Endpoint) (cookie : Cookie) (tr : list Call)
    : exn + unit :=
  match class_of e with
  | SystemDInhibitor => os_close cookie tr
  | c =>
      match ifc_lookup e (UNINHIBIT_METHOD_NAME c) with
      | inr m => dbus_uninhibit m cookie tr
      | inl err => inl err
      end
  end.

Definition class_platform : Platform :=
  {| inhibit_result := class_inhibitCall; uninhibit_result := class_uninhibitCall |}.

End InhibitorClasses.

(** The inhibitor objects of the whole table, and the class of the
    object at a position of the table. *)
Definition table_inhibitors : list Inhibitor :=
  concat (List.map (fun g => List.map snd (configured (snd g))) dbusPowerRelatedInterfaces).

Definition table_class (e : Endpoint) : inhibitor_class :=
  match List.find (fun i => Nat.eqb (inhibitor_id i) e) table_inhibitors with
  | Some i => inhibitor_class_of i
  | None => DBusInhibitor
  end.

(** A call of a trace has the outcome the endpoints give it at some
    point. *)
Definition consistent (P : Platform) (c : Call) : Prop :=
  match c with
  | InhibitCall e a r res => exists tr, res = inhibit_result P e a r tr
  | UnInhibitCall e ck res => exists tr, res = uninhibit_result P e ck tr
  end.

Definition calls_consistently (P : Platform) (_ : list unit)
    (st st' : NoSuspendLinux_obj * World) (_ : exn + unit) : Prop :=
  exists new, calls (snd st') = calls (snd st) ++ new /\ Forall (consistent P) new.

(** ** The module body: which class the name [NoSuspend] is bound to *)

(** What the import of the module depends on. *)
Record Host : Type := {
  decompose_importable : bool;
  sys_platform : string;
  windows_major : Z;
  ctypes_importable : bool;
  win32console_importable : bool;
  dbus_importable : bool;
  dbus : DBusEnv;
  import_error_code : Z -> bool
}.

(** [isinstance(e, ImportError)] for an exception that reaches the
    [except] clause of the module: none of the built-in exceptions the
    model names is one; whatever else a bus constructor raises is one or
    not, as the host has it. *)
Definition isinstance_ImportError (h : Host) (e : exn) : bool :=
  match e with
  | EndpointError code => import_error_code h code
  | _ => false
  end.

(** What can leave the module body. *)
Inductive load_error : Type :=
| ImportError (name : string)
| NameErrorAtLoad (name : string)
| RaisedAtLoad (e : exn).

(** The bindings of interest once the module is imported. *)
Record Module : Type := {
  NoSuspend_binding : pyclass;
  powerRelatedIfcs_binding :
    option (list (string * list (string * list (string * Inhibitor))) * Ifcs)
}.

(** The body of the [try] statement.  In the branch for Windows before
    Vista, the statement after the import of [win32console] reads
    [c_int], which nothing has bound.  On Linux the inhibitor objects
    are new, so discovery starts from empty [ifc] attributes; what a
    bus constructor raises leaves the body as it is, for the [except]
    clause to catch or not. *)
Definition try_body (h : Host) : load_error + Module :=
  if String.eqb (sys_platform h) "win32" then
    if negb (ctypes_importable h) then inl (ImportError "ctypes")
    else if 6 <=? windows_major h
         then inr {| NoSuspend_binding := NoSuspendWinVistaPlus;
                     powerRelatedIfcs_binding := None |}
         else if negb (win32console_importable h) then inl (ImportError "win32console")
              else inl (NameErrorAtLoad "c_int")
  else if String.eqb (sys_platform h) "linux" then
    if negb (dbus_importable h) then inl (ImportError "dbus")
    else match powerRelatedIfcs_of (dbus h) ∅ with
         | (inl e, _) => inl (RaisedAtLoad e)
         | (inr T, ifcs) => inr {| NoSuspend_binding := NoSuspendLinux;
                                   powerRelatedIfcs_binding := Some (T, ifcs) |}
         end
  else inr {| NoSuspend_binding := NoSuspendNotImplemented;
              powerRelatedIfcs_binding := None |}.

(** [except ImportError]: what the clause catches of what leaves the
    body of the [try]. *)
Definition caught_as_ImportError (h : Host) (err : load_error) : bool :=
  match err with
  | ImportError _ => true
  | NameErrorAtLoad _ => false
  | RaisedAtLoad e => isinstance_ImportError h e
  end.

(** The module body: the import of [enum._decompose] stands before the
    [try]; [except ImportError] binds the class for missing
    dependencies. *)
Definition import_module (h : Host) : load_error + Module :=
  if negb (decompose_importable h) then inl (ImportError "_decompose")
  else match try_body h with
       | inl err =>
           if caught_as_ImportError h err
           then inr {| NoSuspend_binding := NoSuspendDependenciesAreMissing;
                       powerRelatedIfcs_binding := None |}
           else inl err
       | inr m => inr m
       end.

(** A Linux host with the session of [freedesktop_session]. *)
Definition linux_host : Host :=
  {| decompose_importable := true; sys_platform := "linux"; windows_major := 0;
     ctypes_importable := true; win32console_importable := false;
     dbus_importable := true; dbus := freedesktop_session;
     import_error_code := fun _ => false |}.

(** A Linux host on which the constructor of the session bus raises;
    the exception is an instance of [ImportError] or not. *)
Definition no_session_bus (as_import_error : bool) : Host :=
  {| decompose_importable := true; sys_platform := "linux"; windows_major := 0;
     ctypes_importable := true; win32console_importable := false;
     dbus_importable := true;
     dbus := {| bus_ctor := fun b => match b with
                                     | SessionBus => Some (EndpointError 5)
                                     | SystemBus => None
                                     end;
                get_object_ok := fun _ _ _ => true;
                getattr_ok := fun _ _ => true |};
     import_error_code := fun _ => as_import_error |}.

(** ** [main] over the Linux scope *)

(** The process as [main] sees it: the world of the Linux backend, what
    was printed, and the command lines handed to [Popen]. *)
Record Process : Type := {
  world : World;
  stdout : list string;
  spawned : list string
}.

Definition set_world (w : World) (p : Process) : Process :=
  {| world := w; stdout := stdout p; spawned := spawned p |}.

Definition print (line : string) : M Process unit :=
  modify (fun p => {| world := world p; stdout := stdout p ++ [line];
                      spawned := spawned p |}).

(** A method of the scope, run inside the process. *)
Definition in_process {O A} (c : M (O * World) A) : M (O * Process) A :=
  fun s => (fst (c (fst s, world (snd s))),
            (fst (snd (c (fst s, world (snd s)))),
             set_world (snd (snd (c (fst s, world (snd s))))) (snd s))).

Definition usage : string := "python -m NoSuspend <command>".

(** Every call of [__enter__] carries the [appName] and the [reason] of
    the scope. *)
Definition carries_names (_ : list unit) (st st' : NoSuspendLinux_obj * World)
    (_ : exn + unit) : Prop :=
  appName (fst st') = appName (fst st) /\ reason (fst st') = reason (fst st) /\
  exists new,
    calls (snd st') = calls (snd st) ++ new /\
    forall e a r res, In (InhibitCall e a r res) new ->
      a = appName (fst st) /\ r = reason (fst st).

Section Main.

(** The endpoints, the discovered table, the exception [sys.exit]
    raises, and the child: [Popen] raising, or the return code the child
    ends with. *)
Variable P : Platform.
Variable powerRelatedIfcs : list (string * list (string * list (string * Endpoint))).
Variable ns : string -> option pyattr.
Variable SystemExit : Z -> exn.
Variable Popen_wait : string -> exn + Z.

(** What the body of the inner [with] ends with: [sys.exit] always
    raises. *)
Definition child_outcome (commandLine : string) : exn :=
  match Popen_wait commandLine with
  | inl e => e
  | inr returncode => SystemExit returncode
  end.

(** [with Popen(commandLine, shell=True) as proc: proc.wait();
    sys.exit(proc.returncode)] *)
Definition run_child {O} (commandLine : string) : M (O * Process) unit :=
  fun s => (inl (child_outcome commandLine),
            (fst s, {| world := world (snd s); stdout := stdout (snd s);
                       spawned := spawned (snd s) ++ [commandLine] |})).

Definition main (argv : list string) : M Process unit :=
  if (length argv <? 2)%nat then print usage
  else
    let commandLine := String.concat " " (tl argv) in
    fun p =>
      match NoSuspendLinux_init ns true false true "NoSuspend CLI" commandLine [] (world p) with
      | (inl e, w1) => (inl e, set_world w1 p)
      | (inr self, w1) =>
          let out := with_ (in_process (NoSuspendLinux_enter P powerRelatedIfcs ns))
                       (in_process (NoSuspendLinux_exit P))
                       (fun _ => run_child commandLine)
                       (self, set_world w1 p) in
          (fst out, snd (snd out))
      end.

End Main.

(** The scope [main] constructs. *)
Definition cli_scope (commandLine : string) : NoSuspendLinux_obj :=
  {| linux_base := {| flag := 1; inherit := true |};
     cookies := DefaultDict [];
     appName := "NoSuspend CLI";
     reason := commandLine |}.

Definition fresh_process : Process :=
  {| world := fresh_world; stdout := []; spawned := [] |}.

(** The entries of one desktop in the order the loops of
    [obtainDbusInterfaces] meet them: application key, proxy path,
    inhibitor. *)
Definition entries_of_de (apps : list (app_key * list (string * Inhibitor)))
    : list (app_key * (string * Inhibitor)) :=
  concat (List.map (fun app => List.map (fun pp => (fst app, pp)) (snd app)) apps).

Definition entry_name (t : app_key * (string * Inhibitor)) : string :=
  proxy_name (fst (snd t)).

Definition entry_id (t : app_key * (string * Inhibitor)) : Endpoint :=
  inhibitor_id (snd (snd t)).

Definition discover_entry (env : DBusEnv) (buses : list bus_kind)
    (st : discovery_state) (t : app_key * (string * Inhibitor)) : discovery_state :=
  discover_path env buses (fst t) st (snd t).

(** A configuration in which nothing overwrites anything: the desktops
    have distinct names, the proxy paths of one desktop have distinct
    last segments, and no inhibitor object is configured twice. *)
Definition well_named (cfg : group_config) : Prop :=
  NoDup (List.map fst cfg) /\
  (forall de, In de cfg -> NoDup (List.map entry_name (entries_of_de (snd de)))) /\
  NoDup (concat (List.map (fun de => List.map entry_id (entries_of_de (snd de))) cfg)).

(** The configuration of the group [suspend], and the proxy of the
    freedesktop power manager on the session bus. *)
Definition suspend_config : group_config :=
  match dbusPowerRelatedInterfaces with
  | g :: _ => snd g
  | [] => []
  end.

Definition power_manager_proxy : Proxy :=
  {| proxy_bus := SessionBus;
     proxy_app := "org.freedesktop.PowerManagement";
     proxy_path := "/org/freedesktop/PowerManagement/Inhibit" |}.

(** ** The constructor, as specified *)


(** The attribute a keyword argument names is an integer, as every
    member and alias of the enumeration is. *)
Definition integer_valued (E : IntFlagClass) (kv : string * pyval) : bool :=
  match getattr E (fst kv) with
  | Some (AInt _) => true
  | _ => false
  end.

(** The flags the caller of [NoSuspendWinVistaPlus(...)] asks for: the
    named parameters and the accepted keyword arguments. *)
Definition requested (ns : string -> option pyattr)
    (suspend display AWAYMODE_REQUIRED : bool) (kwargs : list (string * pyval)) : Z :=
  Z.lor (Z.lor (named_bits suspend display) (bool_times AWAYMODE_REQUIRED 0x40))
    (extra_bits (EXECUTION_STATE ns) kwargs).

(** ** The loops of the Linux scope, accounted for *)

(** The cookies the accepted releases of a trace took out of the set of
    inhibitor [e]. *)
Definition removed_from (e : Endpoint) (tr : list Call) : gset Cookie :=
  list_to_set (omap (fun c => match c with
                              | UnInhibitCall e' ck (inr _) =>
                                  if decide (e' = e) then Some ck else None
                              | _ => None
                              end) tr).

(** Every release of the trace [done], made from the world [w] on, was
    accepted and found its cookie in the set of its inhibitor, as the
    releases before it had left that set. *)
Definition found_in (w : World) (done : list Call) : Prop :=
  forall pre e ck res post,
    done = pre ++ UnInhibitCall e ck res :: post ->
    res = inr tt /\ ck ∈ cookies_of e w ∖ removed_from e pre.

(** What the release loop maintains of the sets of the inhibitors: they
    lose the cookies of the accepted releases and nothing else; the
    releases that did not end the loop found their cookies; and an
    error is the error of the last call made or, that call accepted,
    the [KeyError] of a cookie that was not in the set of its inhibitor
    when the call was made. *)
Definition accounting (_ : list unit) (st st' : NoSuspendLinux_obj * World)
    (r : exn + unit) : Prop :=
  exists new,
    calls (snd st') = calls (snd st) ++ new /\
    (forall e, cookies_of e (snd st') = cookies_of e (snd st) ∖ removed_from e new) /\
    match r with
    | inr _ => found_in (snd st) new
    | inl err =>
        exists pre e ck res,
          new = pre ++ [UnInhibitCall e ck res] /\
          found_in (snd st) pre /\
          (res = inl err \/
           (res = inr tt /\ err = KeyError /\
            ck ∉ cookies_of e (snd st) ∖ removed_from e pre))
    end.

(** What the acquisition loops over the endpoints of a named group
    maintain on a scope that holds its dictionary: the scope keeps a
    dictionary, and an error is the error of the last call made. *)
Definition fails_by_call (_ : list unit) (st st' : NoSuspendLinux_obj * World)
    (r : exn + unit) : Prop :=
  (exists d, cookies (fst st) = DefaultDict d) ->
  (exists d', cookies (fst st') = DefaultDict d') /\
  exists new,
    calls (snd st') = calls (snd st) ++ new /\
    match r with
    | inr _ => True
    | inl err => exists pre e a rs, new = pre ++ [InhibitCall e a rs (inl err)]
    end.

(** ** Properties *)

(** *** Flags *)

(** C9: composition of flag values, the operator [|] of [IntFlag], is
    commutative and idempotent, and it is the union of the bits of its
    operands; it is a total function. *)
Theorem C9_compose_commutative_idempotent (a b : Z) :
  IntFlag_or a b = IntFlag_or b a /\
  IntFlag_or a a = a /\
  (forall i, Z.testbit (IntFlag_or a b) i = Z.testbit a i || Z.testbit b i).
Proof.
  unfold IntFlag_or. split; [apply Z.lor_comm|].
  split; [apply Z.lor_diag|]. intros i. apply Z.lor_spec.
Qed.

(** *** The constructor *)

Lemma init_kwarg_state {S} E acc kv (w : S) : snd (init_kwarg E acc kv w) = w.
Proof.
  destruct kv as [k [| v | |]]; try reflexivity. simpl.
  destruct (hasattr E k); [|reflexivity].
  unfold bind, getattr_int. destruct (getattr E k) as [[z|]|]; reflexivity.
Qed.



Lemma init_kwargs_run {S} E kwargs : forall acc (w : S),
  match init_kwargs E acc kwargs w with
  | (inr f, w') => w' = w /\ f = Z.lor acc (extra_bits E kwargs)
  | (inl _, w') => w' = w
  end.
Proof.
  induction kwargs as [|kv rest IH]; intros acc w.
  - simpl. split; [reflexivity|]. symmetry. apply Z.lor_0_r.
  - simpl. unfold bind.
    destruct (init_kwarg E acc kv w) as [[e|acc'] w'] eqn:Hkv.
    + pose proof (init_kwarg_state E acc kv w) as Hs. rewrite Hkv in Hs. exact Hs.
    + pose proof (init_kwarg_state E acc kv w) as Hs. rewrite Hkv in Hs. simpl in Hs.
      subst w'. specialize (IH acc' w).
      destruct (init_kwargs E acc' rest w) as [[e|f] w'']; [exact IH|].
      destruct IH as [-> ->]. split; [reflexivity|].
      rewrite Z.lor_assoc. f_equal.
      destruct kv as [k v]. destruct v as [| v | |]; simpl in Hkv |- *;
        try (inversion Hkv; subst; symmetry; apply Z.lor_0_r).
      unfold hasattr, getattr_int, bind in Hkv.
      destruct (getattr E k) as [[z|]|]; simpl in Hkv; inversion Hkv; subst.
      * reflexivity.
      * symmetry. apply Z.lor_0_r.
Qed.

Lemma kwarg_bit_rejected E kv : accepted E kv = false -> kwarg_bit E kv = 0.
Proof.
  destruct kv as [k v]. unfold accepted, hasattr, kwarg_bit. cbn [fst snd].
  destruct v; try reflexivity. destruct (getattr E k) as [[z|]|]; simpl; try reflexivity.
  discriminate.
Qed.

(** One keyword argument: ignored, united with the flags, or the cause
    of a [TypeError]. *)
Lemma init_kwarg_step {S} E acc kv (w : S) :
  init_kwarg E acc kv w
  = if accepted E kv
    then if integer_valued E kv
         then (inr (Z.lor acc (kwarg_bit E kv)), w)
         else (inl TypeError, w)
    else (inr acc, w).
Proof.
  destruct kv as [k v].
  unfold init_kwarg, accepted, integer_valued, kwarg_bit, getattr_int, bind, hasattr.
  cbn [fst snd]. destruct v; cbn [isinstance_bool];
    destruct (getattr E k) as [[a|]|]; reflexivity.
Qed.

(** The loop over the keyword arguments returns the union of what it
    started with and the accepted bits, unless an accepted argument
    names an attribute that is no integer. *)
Lemma init_kwargs_returns {S} E kwargs : forall acc (w : S),
  init_kwargs E acc kwargs w
  = if forallb (integer_valued E) (List.filter (accepted E) kwargs)
    then (inr (Z.lor acc (extra_bits E kwargs)), w)
    else (inl TypeError, w).
Proof.
  induction kwargs as [|kv rest IH]; intros acc w.
  - cbn. rewrite Z.lor_0_r. reflexivity.
  - cbn [init_kwargs List.filter extra_bits fold_right]. unfold bind.
    rewrite init_kwarg_step.
    destruct (accepted E kv) eqn:Hacc.
    + cbn [forallb]. destruct (integer_valued E kv); cbn [andb]; [|reflexivity].
      rewrite IH. destruct (forallb _ _); [|reflexivity].
      rewrite Z.lor_assoc. reflexivity.
    + rewrite IH, (kwarg_bit_rejected E kv Hacc), Z.lor_0_l. reflexivity.
Qed.

(** The constructor of the base class over an enumeration whose
    [suspend] and [display] are the bits 1 and 2. *)
Lemma NoSuspend_init_returns {S} E (suspend display inherit_ : bool)
    (kwargs : list (string * pyval)) (w : S) :
  getattr E "suspend" = Some (AInt 1) -> getattr E "display" = Some (AInt 2) ->
  NoSuspend_init E suspend display inherit_ kwargs w
  = if forallb (integer_valued E) (List.filter (accepted E) kwargs)
    then (inr {| flag := Z.lor (named_bits suspend display) (extra_bits E kwargs);
                 inherit := inherit_ |}, w)
    else (inl TypeError, w).
Proof.
  intros Hs Hd. unfold NoSuspend_init, bind, getattr_int. rewrite Hs, Hd. cbn [ret].
  rewrite init_kwargs_returns. unfold named_bits.
  destruct (forallb _ _); reflexivity.
Qed.

(** What the constructor of the single-call scope stores when it
    returns. *)
Lemma win_init_stored {K} (ns : string -> option pyattr)
    (suspend display AWAYMODE_REQUIRED inherit_ : bool)
    (kwargs : list (string * pyval)) (k : K) (o : NoSuspendWinVistaPlus_obj) :
  fst (NoSuspendWinVistaPlus_init ns suspend display AWAYMODE_REQUIRED inherit_ kwargs k)
  = inr o ->
  o = {| win_base :=
           {| flag := Z.lor (requested ns suspend display AWAYMODE_REQUIRED kwargs) CONTINUOUS;
              inherit := inherit_ |};
         prev := None; current := None |}.
Proof.
  unfold NoSuspendWinVistaPlus_init, bind.
  rewrite (NoSuspend_init_returns (EXECUTION_STATE ns)) by reflexivity.
  destruct (forallb _ _); cbn [fst ret flag inherit]; [|discriminate].
  intros H. injection H as <-. unfold requested, IntFlag_or.
  cbn [extra_bits fold_right kwarg_bit getattr EXECUTION_STATE members aliases assoc
       String.eqb Ascii.eqb Bool.eqb].
  rewrite Z.lor_assoc. reflexivity.
Qed.


(** The constructor at work: a member, an alias-free enumeration, an
    ignored string, an ignored unknown name, an integer attribute of the
    class object, and a method of the class object. *)
Example init_example_members :
  NoSuspend_init (SuspendInhibitionState small_namespace) true false true
    [("display"%string, PyBool true); ("reason"%string, PyStr "x");
     ("hidden"%string, PyBool true); ("suspend"%string, PyInt 1)] tt
  = (inr {| flag := 3; inherit := true |}, tt).
Proof. reflexivity. Qed.

Example init_example_class_attribute :
  NoSuspend_init (SuspendInhibitionState small_namespace) false false true
    [("__basicsize__"%string, PyBool true)] tt
  = (inr {| flag := 24; inherit := true |}, tt).
Proof. reflexivity. Qed.

Example init_example_method :
  NoSuspend_init (SuspendInhibitionState small_namespace) true false true
    [("bit_length"%string, PyBool true)] tt
  = (inl TypeError, tt).
Proof. reflexivity. Qed.

(** *** The degraded variants *)

(** The query the docstrings recommend, [issubclass(NoSuspend,
    NoSuspendNotAvailable)], holds of the unavailable variants; it does
    not hold of [NoSuspendDummy] itself, which is their base. *)
Lemma documented_query (c : pyclass) :
  issubclass c NoSuspendNotAvailable = true <->
  c = NoSuspendNotAvailable \/ c = NoSuspendNotImplemented \/
  c = NoSuspendDependenciesAreMissing.
Proof.
  split.
  - destruct c; vm_compute; intros H; try discriminate; auto.
  - intros [-> | [-> | ->]]; reflexivity.
Qed.

Lemma degraded_classes (c : pyclass) :
  issubclass c NoSuspendDummy = true <->
  c = NoSuspendDummy \/ c = NoSuspendNotAvailable \/ c = NoSuspendNotImplemented \/
  c = NoSuspendDependenciesAreMissing.
Proof.
  split.
  - destruct c; vm_compute; intros H; try discriminate; auto.
  - intros [-> | [-> | [-> | ->]]]; reflexivity.
Qed.

(** C8: for every class of the dummy family (the dummy, the unavailable
    and the not-implemented variants) and every construction argument,
    construction does nothing, [__enter__] returns the zero flags,
    [__exit__] returns and changes nothing, and the class-level query
    [issubclass(cls, NoSuspendDummy)], which needs no scope to be
    entered, holds of the class and of no inhibiting backend. *)
Theorem C8_degraded_variants {S} `{WarningLog S} (c : pyclass)
    (args : list pyval) (kwargs : list (string * pyval)) (w : S)
    (Hc : issubclass c NoSuspendDummy = true) :
  NoSuspendDummy_init args kwargs w = (inr tt, w) /\
  (exists enter, enter_method c = Some enter /\ fst (enter w) = inr 0) /\
  (exists exit_, exit_method c = Some exit_ /\ forall w' : S, exit_ w' = (inr tt, w')) /\
  inhibiting c = false /\
  (forall c', inhibiting c' = true -> issubclass c' NoSuspendDummy = false).
Proof.
  split; [reflexivity|].
  apply degraded_classes in Hc.
  split; [|split; [|split]].
  - destruct Hc as [-> | [-> | [-> | ->]]]; eexists; split; reflexivity.
  - destruct Hc as [-> | [-> | [-> | ->]]]; eexists; split; reflexivity.
  - destruct Hc as [-> | [-> | [-> | ->]]]; reflexivity.
  - intros c'. destruct c'; simpl; intros Hi; try discriminate; reflexivity.
Qed.

Lemma C8_degraded_variants_witness :
  issubclass NoSuspendNotImplemented NoSuspendDummy = true /\
  (exists enter, @enter_method (list string) _ NoSuspendNotImplemented = Some enter /\
                 fst (enter []) = inr 0).
Proof.
  split; [reflexivity|].
  exact (proj1 (proj2 (C8_degraded_variants NoSuspendNotImplemented
                         [PyInt 1] [("suspend"%string, PyBool true)] []
                         eq_refl))).
Defined.

(** The not-implemented variant says so when entered. *)
Example not_implemented_warns :
  NoSuspendNotImplemented_enter ([] : list string) = (inr 0, [not_implemented_message]).
Proof. reflexivity. Qed.

(** *** The single-call backend *)

Section WinVistaPlusProperties.

Context {K : Type}.
Variable SetThreadExecutionState : Z -> M K Z.

Lemma enter_run (s : NoSuspendWinVistaPlus_obj) (k k1 k2 : K) (p r : Z) :
  SetThreadExecutionState 0 k = (inr p, k1) ->
  SetThreadExecutionState
    (IntFlag_or (flag (win_base s)) (if inherit (win_base s) then p else 0)) k1
  = (inr r, k2) ->
  NoSuspendWinVistaPlus_enter SetThreadExecutionState (s, k)
  = (inr (Some (IntFlag_or (flag (win_base s)) (if inherit (win_base s) then p else 0))),
     ({| win_base := win_base s; prev := Some p;
         current := Some (IntFlag_or (flag (win_base s))
                            (if inherit (win_base s) then p else 0)) |}, k2)).
Proof.
  intros H0 H1.
  unfold NoSuspendWinVistaPlus_enter, bind, on_world, getCurrentState, get_self, set_self.
  simpl. rewrite H0. simpl.
  destruct (inherit (win_base s)); simpl; unfold on_world; simpl; rewrite H1; reflexivity.
Qed.

Lemma exit_run (s : NoSuspendWinVistaPlus_obj) (k k1 : K) (p r : Z) :
  prev s = Some p ->
  SetThreadExecutionState p k = (inr r, k1) ->
  NoSuspendWinVistaPlus_exit SetThreadExecutionState (s, k)
  = (inr tt, ({| win_base := win_base s; prev := None; current := Some p |}, k1)).
Proof.
  intros Hp H1.
  unfold NoSuspendWinVistaPlus_exit, bind, on_world, get_self, set_self.
  simpl. rewrite Hp. simpl. rewrite H1. reflexivity.
Qed.

(** A scope whose snapshot is [None] raises before it reaches the
    platform. *)
Lemma exit_without_snapshot (s : NoSuspendWinVistaPlus_obj) (k : K) :
  prev s = None ->
  NoSuspendWinVistaPlus_exit SetThreadExecutionState (s, k)
  = (inl TypeError, (set_current None s, k)).
Proof.
  intros Hp.
  unfold NoSuspendWinVistaPlus_exit, bind, on_world, get_self, set_self.
  simpl. rewrite Hp. reflexivity.
Qed.

(** When [__exit__] returns it has cleared the snapshot. *)
Lemma exit_clears_snapshot (s s' : NoSuspendWinVistaPlus_obj) (k k' : K) :
  NoSuspendWinVistaPlus_exit SetThreadExecutionState (s, k) = (inr tt, (s', k')) ->
  prev s' = None.
Proof.
  unfold NoSuspendWinVistaPlus_exit, bind, on_world, get_self, set_self. simpl.
  destruct (prev s) as [p|]; simpl; [|discriminate].
  destruct (SetThreadExecutionState p k) as [[e|r] k1]; simpl; [discriminate|].
  intros H. inversion H. reflexivity.
Qed.

(** C7 (as the code has it): on a scope the constructor has returned,
    over a platform call that returns, [__enter__] takes the current
    process-wide state as its snapshot, computes the effective flags as
    the union of the requested flags, the [CONTINUOUS] marker the
    constructor has added and, when [inherit] is true, the current
    state, puts them in force by calling the platform with exactly that
    value, and returns them.  So a request of [suspend] entered while
    [display] is inhibited yields both with [inherit]; and bit 31 is
    always set in the effective flags, so that they are the requested
    flags only when the request itself carries [CONTINUOUS]. *)
Theorem C7_enter_effective_flags (ns : string -> option pyattr)
    (suspend display AWAYMODE_REQUIRED inherit_ : bool) (kwargs : list (string * pyval))
    (o : NoSuspendWinVistaPlus_obj) (k0 k k1 k2 : K) (p r : Z)
    (Hinit : fst (NoSuspendWinVistaPlus_init ns suspend display AWAYMODE_REQUIRED inherit_
                    kwargs k0) = inr o)
    (Hquery : getCurrentState SetThreadExecutionState k = (inr p, k1))
    (Hset : SetThreadExecutionState
              (Z.lor (Z.lor (requested ns suspend display AWAYMODE_REQUIRED kwargs) CONTINUOUS)
                 (if inherit_ then p else 0)) k1 = (inr r, k2)) :
  let request := requested ns suspend display AWAYMODE_REQUIRED kwargs in
  let effective_flags := Z.lor (Z.lor request CONTINUOUS) (if inherit_ then p else 0) in
  NoSuspendWinVistaPlus_enter SetThreadExecutionState (o, k)
  = (inr (Some effective_flags),
     ({| win_base := win_base o; prev := Some p; current := Some effective_flags |}, k2)) /\
  (forall i, Z.testbit effective_flags i
             = Z.testbit request i || Z.testbit CONTINUOUS i || (inherit_ && Z.testbit p i)) /\
  Z.testbit effective_flags 31 = true /\
  (Z.testbit request 31 = false -> effective_flags <> request).
Proof.
  cbv zeta. apply win_init_stored in Hinit. subst o.
  unfold getCurrentState in Hquery.
  assert (Hbit : forall i,
    Z.testbit (Z.lor (Z.lor (requested ns suspend display AWAYMODE_REQUIRED kwargs) CONTINUOUS)
                 (if inherit_ then p else 0)) i
    = Z.testbit (requested ns suspend display AWAYMODE_REQUIRED kwargs) i
      || Z.testbit CONTINUOUS i || (inherit_ && Z.testbit p i)).
  { intros i. rewrite !Z.lor_spec. destruct inherit_; [reflexivity|].
    rewrite Z.testbit_0_l. reflexivity. }
  assert (H31 : Z.testbit
    (Z.lor (Z.lor (requested ns suspend display AWAYMODE_REQUIRED kwargs) CONTINUOUS)
       (if inherit_ then p else 0)) 31 = true).
  { rewrite Hbit. replace (Z.testbit CONTINUOUS 31) with true by reflexivity.
    rewrite orb_true_r. reflexivity. }
  split; [|split; [exact Hbit|split; [exact H31|]]].
  - rewrite (enter_run _ k k1 k2 p r Hquery); [reflexivity|exact Hset].
  - intros Hreq Heq. rewrite Heq in H31. congruence.
Qed.

(** C3: on a backend whose call returns the recorded bitmask and records
    its argument, [__enter__] and then [__exit__] both return, the
    snapshot taken is the bitmask before entry, and the recorded bitmask
    is back at that value. *)
Theorem C3_enter_exit_round_trip (mask : K -> Z)
    (Hprev : forall es k, fst (SetThreadExecutionState es k) = inr (mask k))
    (Hrec : forall es k, mask (snd (SetThreadExecutionState es k)) = es)
    (s : NoSuspendWinVistaPlus_obj) (k : K) :
  let entered := NoSuspendWinVistaPlus_enter SetThreadExecutionState (s, k) in
  let exited := NoSuspendWinVistaPlus_exit SetThreadExecutionState (snd entered) in
  (exists v, fst entered = inr v) /\
  prev (fst (snd entered)) = Some (mask k) /\
  fst exited = inr tt /\
  mask (snd (snd exited)) = mask k.
Proof.
  assert (Hcall : forall es k0, SetThreadExecutionState es k0
                  = (inr (mask k0), snd (SetThreadExecutionState es k0))).
  { intros es k0. specialize (Hprev es k0).
    destruct (SetThreadExecutionState es k0) as [r k']. simpl in *. subst r. reflexivity. }
  intros entered exited. subst exited entered.
  rewrite (enter_run s k _ _ _ _ (Hcall 0 k) (Hcall _ _)). simpl.
  erewrite exit_run; [| reflexivity | apply Hcall]. simpl.
  split; [eexists; reflexivity|]. split; [reflexivity|]. split; [reflexivity|].
  apply Hrec.
Qed.

End WinVistaPlusProperties.

Lemma C7_enter_effective_flags_witness :
  NoSuspendWinVistaPlus_enter recording_SetThreadExecutionState (suspend_scope true, 2)
  = (inr (Some (Z.lor (Z.lor 1 CONTINUOUS) 2)),
     ({| win_base := win_base (suspend_scope true); prev := Some 2;
         current := Some (Z.lor (Z.lor 1 CONTINUOUS) 2) |},
      Z.lor (Z.lor 1 CONTINUOUS) 2)).
Proof.
  exact (proj1 (C7_enter_effective_flags recording_SetThreadExecutionState no_namespace
                  true false false true [] (suspend_scope true)
                  0 2 0 (Z.lor (Z.lor 1 CONTINUOUS) 2) 2 0
                  eq_refl eq_refl eq_refl)).
Defined.

(** C7 fails as stated: the scope [NoSuspend(suspend=True,
    inherit=False)], entered while [display] is inhibited, puts in force
    and returns [0x80000001], which is not the requested [suspend]; and
    with [inherit] the result is not the union of [suspend] and the
    current state either: both carry the [CONTINUOUS] bit nobody has
    requested. *)
Lemma C7_counterexample :
  let request := requested no_namespace true false false [] in
  let without := NoSuspendWinVistaPlus_enter recording_SetThreadExecutionState
                   (suspend_scope false, 2) in
  let with_inherit := NoSuspendWinVistaPlus_enter recording_SetThreadExecutionState
                        (suspend_scope true, 2) in
  request = 1 /\
  fst (NoSuspendWinVistaPlus_init no_namespace true false false false [] 2)
  = inr (suspend_scope false) /\
  fst (NoSuspendWinVistaPlus_init no_namespace true false false true [] 2)
  = inr (suspend_scope true) /\
  fst without = inr (Some 0x80000001) /\ snd (snd without) = 0x80000001 /\
  0x80000001 <> request /\
  fst with_inherit = inr (Some 0x80000003) /\ snd (snd with_inherit) = 0x80000003 /\
  0x80000003 <> Z.lor request 2.
Proof. vm_compute. repeat split; discriminate. Qed.

Lemma C3_enter_exit_round_trip_witness :
  snd (snd (NoSuspendWinVistaPlus_exit recording_SetThreadExecutionState
              (snd (NoSuspendWinVistaPlus_enter recording_SetThreadExecutionState
                      (suspend_scope true, 2))))) = 2.
Proof.
  exact (proj2 (proj2 (proj2
    (C3_enter_exit_round_trip recording_SetThreadExecutionState (fun m => m)
       (fun _ _ => eq_refl) (fun _ _ => eq_refl) (suspend_scope true) 2)))).
Defined.

(** Without [inherit] the previous inhibition of [display] is dropped
    while the scope is entered. *)
Example enter_without_inherit :
  NoSuspendWinVistaPlus_enter recording_SetThreadExecutionState (suspend_scope false, 2)
  = (inr (Some 0x80000001),
     ({| win_base := {| flag := 0x80000001; inherit := false |};
         prev := Some 2; current := Some 0x80000001 |}, 0x80000001)).
Proof. reflexivity. Qed.

Example init_win_example :
  NoSuspendWinVistaPlus_init (K:=Z) no_namespace true false true true [] 0
  = (inr {| win_base := {| flag := 0x80000041; inherit := true |};
            prev := None; current := None |}, 0).
Proof. reflexivity. Qed.

(** *** Loops *)

(** A relation between the state before a loop, the state after it and
    its outcome, indexed by what the loop is to do, holds of [for_each]
    when it holds of the body and composes. *)
Lemma for_each_ind {S A B} (R : list B -> S -> S -> exn + unit -> Prop)
    (f : A -> list B) (body : A -> M S unit) :
  (forall s, R [] s s (inr tt)) ->
  (forall l1 l2 s s1 s2 r, R l1 s s1 (inr tt) -> R l2 s1 s2 r -> R (l1 ++ l2) s s2 r) ->
  (forall l1 l2 s s1 e, R l1 s s1 (inl e) -> R (l1 ++ l2) s s1 (inl e)) ->
  (forall x s, R (f x) s (snd (body x s)) (fst (body x s))) ->
  forall l s, R (concat (List.map f l)) s (snd (for_each l body s)) (fst (for_each l body s)).
Proof.
  intros Hnil Hseq Hfail Hbody l.
  induction l as [|x l IH]; intros s; simpl.
  - apply Hnil.
  - unfold bind. specialize (Hbody x s).
    destruct (body x s) as [[e|[]] s1]; simpl in *.
    + apply Hfail. exact Hbody.
    + eapply Hseq; [exact Hbody|]. apply IH.
Qed.

Lemma for_each_concat {S A} (body : A -> M S unit) (ls : list (list A)) (s : S) :
  for_each ls (fun l => for_each l body) s = for_each (concat ls) body s.
Proof.
  revert s. induction ls as [|l ls IH]; intros s; [reflexivity|].
  simpl. revert s. induction l as [|x l IHl]; intros s; simpl.
  - unfold bind. simpl. apply IH.
  - unfold bind in *. destruct (body x s) as [[e|[]] s1]; [reflexivity|].
    apply IHl.
Qed.

(** *** Traces *)

Lemma acquired_app (t1 t2 : list Call) : acquired (t1 ++ t2) = acquired t1 ++ acquired t2.
Proof. apply omap_app. Qed.

Lemma released_app (t1 t2 : list Call) : released (t1 ++ t2) = released t1 ++ released t2.
Proof. apply omap_app. Qed.

Lemma tried_app (t1 t2 : list Call) : tried (t1 ++ t2) = tried t1 ++ tried t2.
Proof. apply omap_app. Qed.

Lemma plan_endpoints_app l1 l2 :
  plan_endpoints (l1 ++ l2) = plan_endpoints l1 ++ plan_endpoints l2.
Proof. apply omap_app. Qed.

Lemma plan_warnings_app l1 l2 :
  plan_warnings (l1 ++ l2) = plan_warnings l1 ++ plan_warnings l2.
Proof. apply omap_app. Qed.

Lemma acquire_ok_released (tr : list Call) : Forall acquire_ok tr -> released tr = [].
Proof.
  induction 1 as [|c tr Hc _ IH]; [reflexivity|].
  destruct c as [e a r [err|ck]|]; simpl in Hc; try contradiction. exact IH.
Qed.

Lemma acquire_ok_length (tr : list Call) :
  Forall acquire_ok tr -> length (acquired tr) = length tr.
Proof.
  induction 1 as [|c tr Hc _ IH]; [reflexivity|].
  destruct c as [e a r [err|ck]|]; simpl in Hc; try contradiction.
  simpl. f_equal. exact IH.
Qed.

Lemma held_dict_append (k : string) (x : Endpoint * Cookie) d :
  held (DefaultDict (dict_append k x d)) ≡ₚ held (DefaultDict d) ++ [x].
Proof.
  simpl. induction d as [|[k' l] d IH]; simpl; [reflexivity|].
  destruct (String.eqb k k'); simpl.
  - rewrite <- !app_assoc. apply Permutation_app_head. apply Permutation_app_comm.
  - rewrite IH. rewrite app_assoc. reflexivity.
Qed.

(** *** The multi-endpoint backend *)

Section LinuxProperties.

Variable P : Platform.
Variable powerRelatedIfcs : list (string * list (string * list (string * Endpoint))).
Variable ns : string -> option pyattr.

(** One release: the endpoint is called once, whatever comes of it; the
    outcome is the endpoint's error, or [KeyError] when the inhibitor
    does not know the cookie. *)
Lemma uninhibit_run (e : Endpoint) (ck : Cookie) (w : World) :
  let res := uninhibit_result P e ck (calls w) in
  calls (snd (uninhibit P e ck w)) = calls w ++ [UnInhibitCall e ck res] /\
  warned (snd (uninhibit P e ck w)) = warned w /\
  match fst (uninhibit P e ck w) with
  | inr _ => res = inr tt
  | inl err => res = inl err \/ (res = inr tt /\ err = KeyError)
  end.
Proof.
  unfold uninhibit, bind, _uninhibitCall, get, modify. simpl.
  destruct (uninhibit_result P e ck (calls w)) as [err|[]]; simpl.
  - auto.
  - match goal with |- context [bool_decide ?p] => destruct (bool_decide p) end;
      simpl; auto.
Qed.

Lemma release_loop (l : list (Endpoint * Cookie)) (st : state) :
  let run := for_each l (fun cancelCall =>
               on_world (O:=NoSuspendLinux_obj)
                 (uninhibit P (fst cancelCall) (snd cancelCall))) st in
  releasing l st (snd run) (fst run).
Proof.
  pose proof (for_each_ind releasing (fun x => [x])
    (fun cancelCall => on_world (O:=NoSuspendLinux_obj)
                         (uninhibit P (fst cancelCall) (snd cancelCall)))) as H.
  assert (Hid : concat (List.map (fun x : Endpoint * Cookie => [x]) l) = l).
  { induction l as [|x l IH]; simpl; [reflexivity|]. f_equal. exact IH. }
  simpl. rewrite <- Hid at 1. apply H; clear H Hid.
  - intros s. split; [reflexivity|]. split; [reflexivity|].
    exists []. rewrite app_nil_r. repeat split; try reflexivity. constructor.
  - intros l1 l2 s s1 s2 r (Hs1 & Hw1 & new1 & Hc1 & Ha1 & Ht1 & Hp1 & Hr1 & Hok1)
      (Hs2 & Hw2 & new2 & Hc2 & Ha2 & Ht2 & Hp2 & Hr2).
    split; [congruence|]. split; [congruence|].
    exists (new1 ++ new2). rewrite Hc2, Hc1, app_assoc.
    rewrite acquired_app, tried_app, released_app, Ha1, Ha2, Ht1, Ht2, Hr1.
    split; [reflexivity|]. split; [reflexivity|]. split; [reflexivity|].
    split; [apply prefix_app; exact Hp2|].
    destruct r as [err|u].
    + destruct Hr2 as (pre & e & ck & res & -> & Hpre & Hres).
      exists (new1 ++ pre), e, ck, res. rewrite app_assoc.
      split; [reflexivity|]. split; [|exact Hres].
      apply Forall_app. split; assumption.
    + destruct Hr2 as (-> & Hok2). split; [reflexivity|].
      apply Forall_app. split; assumption.
  - intros l1 l2 s s1 err (Hs1 & Hw1 & new1 & Hc1 & Ha1 & Ht1 & Hp1 & Hr1).
    split; [exact Hs1|]. split; [exact Hw1|].
    exists new1. repeat (split; [assumption|]).
    split; [apply prefix_app_r; exact Hp1|]. exact Hr1.
  - intros [e ck] [o w]. unfold on_world. simpl.
    destruct (uninhibit_run e ck w) as (Hc & Hw & Hr).
    split; [reflexivity|]. split; [exact Hw|].
    eexists. split; [exact Hc|]. simpl.
    split; [reflexivity|]. split; [reflexivity|]. split; [reflexivity|].
    destruct (fst (uninhibit P e ck w)) as [err|u].
    + exists [], e, ck, (uninhibit_result P e ck (calls w)).
      split; [reflexivity|]. split; [constructor|exact Hr].
    + split; [reflexivity|]. rewrite Hr. repeat constructor.
Qed.

Lemma exit_unfold (s : NoSuspendLinux_obj) (w : World) d :
  cookies s = DefaultDict d ->
  NoSuspendLinux_exit P (s, w)
  = match for_each (concat (List.map snd d))
            (fun cancelCall => on_world (O:=NoSuspendLinux_obj)
                                 (uninhibit P (fst cancelCall) (snd cancelCall))) (s, w) with
    | (inl err, st') => (inl err, st')
    | (inr _, st') => (inr tt, (set_cookies EmptyList (fst st'), snd st'))
    end.
Proof.
  intros Hd. unfold NoSuspendLinux_exit.
  unfold bind at 1. unfold get_self at 1. simpl. rewrite Hd.
  unfold bind. rewrite for_each_concat.
  destruct (for_each _ _ (s, w)) as [[err|u] st']; reflexivity.
Qed.

(** [__exit__] on a scope that still holds its dictionary. *)
Lemma exit_spec (s : NoSuspendLinux_obj) (w : World) d :
  cookies s = DefaultDict d ->
  warned (snd (snd (NoSuspendLinux_exit P (s, w)))) = warned w /\
  exists new,
    calls (snd (snd (NoSuspendLinux_exit P (s, w)))) = calls w ++ new /\
    acquired new = [] /\ tried new = [] /\
    released new `prefix_of` held (cookies s) /\
    match fst (NoSuspendLinux_exit P (s, w)) with
    | inr _ => released new = held (cookies s) /\ Forall release_ok new /\
               fst (snd (NoSuspendLinux_exit P (s, w))) = set_cookies EmptyList s
    | inl err =>
        fst (snd (NoSuspendLinux_exit P (s, w))) = s /\
        exists pre e ck res,
          new = pre ++ [UnInhibitCall e ck res] /\ Forall release_ok pre /\
          (res = inl err \/ (res = inr tt /\ err = KeyError))
    end.
Proof.
  intros Hd. rewrite (exit_unfold s w d Hd), Hd.
  pose proof (release_loop (concat (List.map snd d)) (s, w)) as H.
  unfold releasing in H. simpl in H.
  destruct (for_each (concat (List.map snd d)) _ (s, w)) as [[err|[]] [s' w']];
    simpl in *; destruct H as (Hs & Hw & new & Hc & Ha & Ht & Hp & Hr); subst s'.
  - split; [exact Hw|]. exists new. repeat (split; [assumption|]).
    split; [reflexivity|]. exact Hr.
  - split; [exact Hw|]. exists new. repeat (split; [assumption|]).
    destruct Hr as (Hr & Hok). repeat split; assumption.
Qed.

(** Once [__exit__] has returned, the attribute [cookies] is a list. *)
Lemma exit_leaves_list (s s' : NoSuspendLinux_obj) (w w' : World) :
  NoSuspendLinux_exit P (s, w) = (inr tt, (s', w')) -> cookies s' = EmptyList.
Proof.
  intros Hrun. destruct (cookies s) as [d|] eqn:Hd.
  - pose proof (exit_spec s w d Hd) as H. rewrite Hrun in H. simpl in H.
    destruct H as (_ & new & _ & _ & _ & _ & _ & _ & ->). reflexivity.
  - unfold NoSuspendLinux_exit, bind, get_self in Hrun. simpl in Hrun.
    rewrite Hd in Hrun. discriminate.
Qed.

Lemma exit_on_list (s : NoSuspendLinux_obj) (w : World) :
  cookies s = EmptyList ->
  NoSuspendLinux_exit P (s, w) = (inl (AttributeError "values"), (s, w)).
Proof.
  intros Hd. unfold NoSuspendLinux_exit, bind, get_self. simpl. rewrite Hd. reflexivity.
Qed.

(** [__del__] of the scope reaches no endpoint and changes nothing. *)
Lemma del_does_nothing (s : NoSuspendLinux_obj) (w : World) :
  NoSuspendLinux_del (s, w) = (inr tt, (s, w)).
Proof.
  unfold NoSuspendLinux_del, bind, get_self. simpl.
  generalize (match cookies s with
              | DefaultDict d => List.map fst d
              | EmptyList => []
              end).
  intros keys. induction keys as [|k keys IH]; [reflexivity|].
  simpl. unfold bind. simpl. exact IH.
Qed.
Lemma entering_nil (s : state) : entering [] s s (inr tt).
Proof.
  repeat (split; [reflexivity|]). exists [], [].
  rewrite !app_nil_r. repeat (split; [reflexivity|]).
  split; [|split; [constructor|split; reflexivity]].
  intros d Hd. exists d. split; [exact Hd|]. rewrite app_nil_r. reflexivity.
Qed.

Lemma entering_seq l1 l2 (s s1 s2 : state) (r : exn + unit) :
  entering l1 s s1 (inr tt) -> entering l2 s1 s2 r -> entering (l1 ++ l2) s s2 r.
Proof.
  intros (Hb1 & Ha1 & Hr1 & new1 & ws1 & Hc1 & Hw1 & Hrel1 & Hp1 & Hq1 & Hd1 & Hok1 & Ht1 & Hws1)
         (Hb2 & Ha2 & Hr2 & new2 & ws2 & Hc2 & Hw2 & Hrel2 & Hp2 & Hq2 & Hd2 & Hres2).
  split; [congruence|]. split; [congruence|]. split; [congruence|].
  exists (new1 ++ new2), (ws1 ++ ws2).
  rewrite Hc2, Hc1, Hw2, Hw1, !app_assoc.
  rewrite released_app, tried_app, acquired_app, plan_endpoints_app, plan_warnings_app.
  rewrite Hrel1, Hrel2, Ht1, Hws1.
  split; [reflexivity|]. split; [reflexivity|]. split; [reflexivity|].
  split; [apply prefix_app; exact Hp2|].
  split; [apply prefix_app; exact Hq2|].
  split.
  - intros d Hd. destruct (Hd1 d Hd) as (d1 & Hd1' & Hperm1).
    destruct (Hd2 d1 Hd1') as (d2 & Hd2' & Hperm2).
    exists d2. split; [exact Hd2'|]. rewrite Hperm2, Hperm1, app_assoc. reflexivity.
  - destruct r as [err|u].
    + destruct Hres2 as [(pre & e & a & rs & -> & Hpre) | (Hok2 & ->)].
      * left. exists (new1 ++ pre), e, a, rs. rewrite app_assoc.
        split; [reflexivity|]. apply Forall_app. split; assumption.
      * right. split; [|reflexivity]. apply Forall_app. split; assumption.
    + destruct Hres2 as (Hok2 & -> & ->).
      split; [apply Forall_app; split; assumption|]. split; reflexivity.
Qed.

Lemma entering_fail l1 l2 (s s1 : state) (err : exn) :
  entering l1 s s1 (inl err) -> entering (l1 ++ l2) s s1 (inl err).
Proof.
  intros (Hb1 & Ha1 & Hr1 & new1 & ws1 & Hc1 & Hw1 & Hrel1 & Hp1 & Hq1 & Hd1 & Hres1).
  repeat (split; [assumption|]). exists new1, ws1.
  repeat (split; [assumption|]).
  rewrite plan_endpoints_app, plan_warnings_app.
  split; [apply prefix_app_r; exact Hp1|].
  split; [apply prefix_app_r; exact Hq1|].
  split; assumption.
Qed.

(** One endpoint of one group. *)
Lemma acquire_endpoint_spec (grNm : string) (e : Endpoint) (st : state) :
  entering [inl e] st (snd (acquire_endpoint P grNm e st)) (fst (acquire_endpoint P grNm e st)).
Proof.
  destruct st as [s w].
  unfold acquire_endpoint, cookies_append, inhibit, _inhibitCall, bind, on_world,
    get_self, set_self, modify. simpl.
  destruct (inhibit_result P e (appName s) (reason s) (calls w)) as [err|ck] eqn:Hres; simpl.
  - repeat (split; [reflexivity|]).
    exists [InhibitCall e (appName s) (reason s) (inl err)], []. simpl.
    rewrite app_nil_r. side_conditions.
    split.
    + intros d Hd. exists d. split; [exact Hd|]. rewrite app_nil_r. reflexivity.
    + left. exists [], e, (appName s), (reason s). split; [reflexivity|constructor].
  - destruct (cookies s) as [d|] eqn:Hd; simpl.
    + repeat (split; [reflexivity|]).
      exists [InhibitCall e (appName s) (reason s) (inr ck)], []. simpl.
      rewrite app_nil_r. side_conditions.
      split.
      * intros d0 Hd0. simpl in Hd0. rewrite ?Hd in Hd0. injection Hd0 as <-.
        eexists. split; [reflexivity|].
        apply held_dict_append.
      * split; [repeat constructor|]. split; reflexivity.
    + repeat (split; [reflexivity|]).
      exists [InhibitCall e (appName s) (reason s) (inr ck)], []. simpl.
      rewrite app_nil_r. side_conditions.
      split.
      * intros d0 Hd0. simpl in Hd0. rewrite ?Hd in Hd0. discriminate.
      * right. split; [repeat constructor|reflexivity].
Qed.

Lemma concat_singletons {A B} (g : A -> B) (l : list A) :
  concat (List.map (fun x => [g x]) l) = List.map g l.
Proof. induction l as [|x l IH]; simpl; [reflexivity|]. f_equal. exact IH. Qed.

Lemma group_plan_shape (des : list (string * list (string * Endpoint))) :
  concat (List.map (fun de => concat (List.map (fun i : string * Endpoint =>
                                         [@inl Endpoint string (snd i)]) (snd de))) des)
  = List.map inl (group_endpoints des).
Proof.
  unfold group_endpoints. induction des as [|de des IH]; simpl; [reflexivity|].
  rewrite map_app, IH, concat_singletons, map_map. reflexivity.
Qed.

(** One decomposed member. *)
Lemma enter_group_spec (gr : flag_member) (st : state) :
  entering (group_plan powerRelatedIfcs gr) st
    (snd (enter_group P powerRelatedIfcs gr st))
    (fst (enter_group P powerRelatedIfcs gr st)).
Proof.
  unfold enter_group, group_plan. destruct (fst gr) as [grNm|].
  - destruct (assoc grNm powerRelatedIfcs) as [des|].
    + rewrite <- group_plan_shape.
      apply (for_each_ind entering); auto using entering_nil, entering_fail.
      * intros; eapply entering_seq; eassumption.
      * intros de s.
        apply (for_each_ind entering (fun i : string * Endpoint => [inl (snd i)]));
          auto using entering_nil, entering_fail.
        -- intros; eapply entering_seq; eassumption.
        -- intros i s0. apply acquire_endpoint_spec.
    + destruct st as [s w]. unfold warnings_warn, modify. simpl.
      repeat (split; [reflexivity|]).
      exists [], [not_set_message grNm]. simpl. rewrite app_nil_r.
      side_conditions.
      split.
      * intros d Hd. exists d. split; [exact Hd|]. rewrite app_nil_r. reflexivity.
      * split; [constructor|]. split; reflexivity.
  - destruct st as [s w]. unfold raise. simpl.
    repeat (split; [reflexivity|]).
    exists [], []. simpl. rewrite !app_nil_r.
    side_conditions.
    split.
    + intros d Hd. exists d. split; [exact Hd|]. rewrite app_nil_r. reflexivity.
    + right. split; [constructor|reflexivity].
Qed.

Lemma enter_unfold (s : NoSuspendLinux_obj) (w : World) :
  NoSuspendLinux_enter P powerRelatedIfcs ns (s, w)
  = match for_each (fst (_enumDecompose (SuspendInhibitionState ns) (flag (linux_base s))))
            (enter_group P powerRelatedIfcs) (s, w) with
    | (inl err, st') => (inl err, st')
    | (inr _, st') => (inr (flag (linux_base (fst st'))), st')
    end.
Proof.
  unfold NoSuspendLinux_enter. unfold bind at 1. unfold get_self at 1. simpl.
  unfold bind. destruct (for_each _ _ (s, w)) as [[err|u] st']; reflexivity.
Qed.

(** [__enter__]: the loop over the decomposition follows the plan of the
    scope. *)
Lemma enter_spec (s : NoSuspendLinux_obj) (w : World) :
  entering (enter_plan powerRelatedIfcs ns (flag (linux_base s))) (s, w)
    (snd (NoSuspendLinux_enter P powerRelatedIfcs ns (s, w)))
    (match fst (NoSuspendLinux_enter P powerRelatedIfcs ns (s, w)) with
     | inl err => inl err
     | inr _ => inr tt
     end) /\
  forall v, fst (NoSuspendLinux_enter P powerRelatedIfcs ns (s, w)) = inr v ->
            v = flag (linux_base s).
Proof.
  rewrite enter_unfold. unfold enter_plan.
  pose proof (for_each_ind entering (group_plan powerRelatedIfcs)
                (enter_group P powerRelatedIfcs) entering_nil
                (fun l1 l2 s0 s1 s2 r H1 H2 => entering_seq l1 l2 s0 s1 s2 r H1 H2)
                entering_fail enter_group_spec
                (fst (_enumDecompose (SuspendInhibitionState ns) (flag (linux_base s))))
                (s, w)) as H.
  destruct (for_each _ _ (s, w)) as [[err|[]] st']; simpl in *.
  - split; [exact H|]. intros v Hv. discriminate.
  - split; [exact H|]. intros v Hv. inversion Hv.
    destruct H as (Hb & _). simpl in Hb. rewrite Hb. reflexivity.
Qed.

Lemma plan_warnings_member (gr : flag_member) (grNm : string) (grs : list flag_member) :
  In gr grs -> fst gr = Some grNm -> assoc grNm powerRelatedIfcs = None ->
  In (not_set_message grNm)
     (plan_warnings (concat (List.map (group_plan powerRelatedIfcs) grs))).
Proof.
  intros Hin Hname Hnone. induction grs as [|g grs IH]; [contradiction|].
  simpl. rewrite plan_warnings_app. apply in_or_app.
  destruct Hin as [-> | Hin]; [left | right; apply IH; exact Hin].
  unfold group_plan. rewrite Hname, Hnone. simpl. left. reflexivity.
Qed.

(** C1 (as the code has it): whenever [__enter__] returns, it returns the
    stored request flags as they are, unsupported bits included, and it
    has emitted the "not set" warning of every decomposed member whose
    name is no key of [powerRelatedIfcs]: these warnings, in
    decomposition order, are all it has emitted. *)
Theorem C1_enter_warns_and_returns_request
    (s : NoSuspendLinux_obj) (w : World) (v : Z) (st' : NoSuspendLinux_obj * World)
    (Hrun : NoSuspendLinux_enter P powerRelatedIfcs ns (s, w) = (inr v, st')) :
  v = flag (linux_base s) /\
  warned (snd st')
  = warned w ++ plan_warnings (enter_plan powerRelatedIfcs ns (flag (linux_base s))) /\
  (forall gr grNm,
     In gr (fst (_enumDecompose (SuspendInhibitionState ns) (flag (linux_base s)))) ->
     fst gr = Some grNm -> assoc grNm powerRelatedIfcs = None ->
     In (not_set_message grNm) (warned (snd st'))).
Proof.
  destruct (enter_spec s w) as [Hent Hv]. rewrite Hrun in Hent, Hv. simpl in Hent.
  destruct Hent as (_ & _ & _ & new & ws & _ & Hw & _ & _ & _ & _ & _ & _ & ->).
  split; [apply Hv; reflexivity|]. split; [exact Hw|].
  intros gr grNm Hin Hname Hnone. rewrite Hw. apply in_or_app. right.
  unfold enter_plan. eapply plan_warnings_member; eassumption.
Qed.

(** The finalizer of an inhibitor object, by contrast, swallows every
    failure: each cookie of the set gets one release attempt and the
    finalizer returns. *)
Lemma inhibitor_del_best_effort (e : Endpoint) (w : World) :
  fst (DBusInhibitor_del P e w) = inr tt /\
  exists new,
    calls (snd (DBusInhibitor_del P e w)) = calls w ++ new /\
    acquired new = [] /\
    released new = List.map (fun ck => (e, ck)) (elements (cookies_of e w)).
Proof.
  change (DBusInhibitor_del P e w)
    with (for_each (elements (cookies_of e w))
            (fun ck => try_pass (_uninhibitCall P e ck)) w).
  generalize (elements (cookies_of e w)). intros l. revert w.
  induction l as [|ck l IH]; intros w.
  - split; [reflexivity|]. exists []. rewrite app_nil_r.
    split; [reflexivity|]. split; reflexivity.
  - change (for_each (ck :: l) (fun ck => try_pass (_uninhibitCall P e ck)) w)
      with (for_each l (fun ck => try_pass (_uninhibitCall P e ck))
              (record_call (UnInhibitCall e ck (uninhibit_result P e ck (calls w))) w)).
    destruct (IH (record_call (UnInhibitCall e ck (uninhibit_result P e ck (calls w))) w))
      as (Hr & new & Hc & Ha & Hrel).
    split; [exact Hr|].
    exists (UnInhibitCall e ck (uninhibit_result P e ck (calls w)) :: new).
    rewrite Hc. simpl. rewrite <- app_assoc. simpl.
    split; [reflexivity|]. split; [exact Ha|]. rewrite Hrel. reflexivity.
Qed.

End LinuxProperties.

(** *** The claims on concrete runs *)

Lemma C1_enter_warns_and_returns_request_witness :
  warned (snd (snd (NoSuspendLinux_enter all_answer two_suspend_endpoints no_namespace
                      (linux_scope true true, fresh_world))))
  = [not_set_message "display"].
Proof.
  exact (proj1 (proj2 (C1_enter_warns_and_returns_request all_answer two_suspend_endpoints
    no_namespace (linux_scope true true) fresh_world 3
    (snd (NoSuspendLinux_enter all_answer two_suspend_endpoints no_namespace
            (linux_scope true true, fresh_world)))
    eq_refl))).
Defined.

(** C1 fails as stated: with [display] requested on a table that has no
    group of that name, [__enter__] warns about [display] and the value
    it returns still has the [display] bit, though only the two
    [suspend] endpoints were asked for anything. *)
Lemma C1_counterexample :
  let run := NoSuspendLinux_enter all_answer two_suspend_endpoints no_namespace
               (linux_scope true true, fresh_world) in
  assoc "display" two_suspend_endpoints = None /\
  In (not_set_message "display") (warned (snd (snd run))) /\
  acquired (calls (snd (snd run))) = [(0%nat, 7); (1%nat, 8)] /\
  exists v, fst run = inr v /\ Z.testbit v 1 = true.
Proof.
  vm_compute. repeat split; auto. exists 3. split; reflexivity.
Qed.

(** C4 (as the code has it): on a scope whose [__exit__] has returned
    once, a second [__exit__] reaches no endpoint and no platform call
    and leaves the process as it was, but it raises: [AttributeError] on
    the multi-endpoint scope, whose [cookies] is a list by then, and
    [TypeError] on the single-call scope, whose snapshot is [None] by
    then and whose [current] becomes [None] too. *)
Theorem C4_second_exit_raises {K} (P : Platform) (SetThreadExecutionState : Z -> M K Z)
    (s s' : NoSuspendLinux_obj) (w w' : World)
    (o o' : NoSuspendWinVistaPlus_obj) (k k' : K)
    (Hlinux : NoSuspendLinux_exit P (s, w) = (inr tt, (s', w')))
    (Hwin : NoSuspendWinVistaPlus_exit SetThreadExecutionState (o, k) = (inr tt, (o', k'))) :
  NoSuspendLinux_exit P (s', w') = (inl (AttributeError "values"), (s', w')) /\
  NoSuspendWinVistaPlus_exit SetThreadExecutionState (o', k')
  = (inl TypeError, (set_current None o', k')).
Proof.
  split.
  - apply exit_on_list. eapply exit_leaves_list. exact Hlinux.
  - apply exit_without_snapshot. eapply exit_clears_snapshot. exact Hwin.
Qed.

Lemma C4_second_exit_raises_witness :
  NoSuspendLinux_exit all_answer
    (set_cookies EmptyList (linux_scope true false), fresh_world)
  = (inl (AttributeError "values"),
     (set_cookies EmptyList (linux_scope true false), fresh_world)) /\
  NoSuspendWinVistaPlus_exit recording_SetThreadExecutionState
    ({| win_base := win_base (suspend_scope true); prev := None; current := Some 2 |}, 2)
  = (inl TypeError,
     ({| win_base := win_base (suspend_scope true); prev := None; current := None |}, 2)).
Proof.
  exact (C4_second_exit_raises all_answer recording_SetThreadExecutionState
           (linux_scope true false) (set_cookies EmptyList (linux_scope true false))
           fresh_world fresh_world
           {| win_base := win_base (suspend_scope true); prev := Some 2;
              current := Some (Z.lor (Z.lor 1 CONTINUOUS) 2) |}
           {| win_base := win_base (suspend_scope true); prev := None; current := Some 2 |}
           (Z.lor (Z.lor 1 CONTINUOUS) 2) 2
           eq_refl eq_refl).
Defined.

(** C4 fails as stated: after one [__enter__] and one [__exit__], the
    second [__exit__] raises, on either backend, and on the single-call
    backend it changes the attribute [current] of the scope. *)
Lemma C4_counterexample :
  let once := NoSuspendLinux_exit all_answer
                (snd (NoSuspendLinux_enter all_answer two_suspend_endpoints no_namespace
                        (linux_scope true false, fresh_world))) in
  let twice := NoSuspendLinux_exit all_answer (snd once) in
  let once' := NoSuspendWinVistaPlus_exit recording_SetThreadExecutionState
                 (snd (NoSuspendWinVistaPlus_enter recording_SetThreadExecutionState
                         (suspend_scope true, 2))) in
  let twice' := NoSuspendWinVistaPlus_exit recording_SetThreadExecutionState (snd once') in
  fst once = inr tt /\ fst twice = inl (AttributeError "values") /\
  fst once' = inr tt /\ fst twice' = inl TypeError /\
  current (fst (snd once')) = Some 2 /\ current (fst (snd twice')) = None.
Proof. vm_compute. repeat split. Qed.

(** C5 fails on the code: a scope that holds two cookies and is then
    destroyed: [__del__] returns, and no release call has been made, the
    scope and the inhibitors holding what they held. *)
Theorem C5_del_releases_nothing :
  let entered := snd (NoSuspendLinux_enter all_answer two_suspend_endpoints no_namespace
                        (linux_scope true false, fresh_world)) in
  let destroyed := NoSuspendLinux_del entered in
  held (cookies (fst entered)) = [(0%nat, 7); (1%nat, 8)] /\
  destroyed = (inr tt, entered) /\
  released (calls (snd (snd destroyed))) = [] /\
  released (calls (snd (snd (NoSuspendLinux_exit all_answer entered))))
  = [(0%nat, 7); (1%nat, 8)].
Proof.
  cbv zeta. split; [vm_compute; reflexivity|].
  split; [|split; vm_compute; reflexivity].
  destruct (snd (NoSuspendLinux_enter all_answer two_suspend_endpoints no_namespace
                   (linux_scope true false, fresh_world))) as [s w].
  apply del_does_nothing.
Qed.

(** *** The model on concrete inputs *)

(** Decomposition of the flag values the Linux scope can hold, and of a
    value with a bit no member names. *)
Example decompose_0 :
  _enumDecompose (SuspendInhibitionState no_namespace) 0 = ([(Some "none"%string, 0)], 0).
Proof. reflexivity. Qed.

Example decompose_3 :
  _enumDecompose (SuspendInhibitionState no_namespace) 3
  = ([(Some "display"%string, 2); (Some "suspend"%string, 1)], 0).
Proof. reflexivity. Qed.

Example decompose_9 :
  _enumDecompose (SuspendInhibitionState no_namespace) 9
  = ([(None, 8); (Some "suspend"%string, 1)], 0).
Proof. reflexivity. Qed.

(** The constructor of the Linux scope builds [linux_scope], and warns
    when [inherit] is false. *)
Example init_linux_example :
  NoSuspendLinux_init no_namespace true true true "Python NoSuspend" "NoSuspend was called"
    [] fresh_world
  = (inr (linux_scope true true), fresh_world).
Proof. reflexivity. Qed.

Example init_linux_no_inherit :
  warned (snd (NoSuspendLinux_init no_namespace true false false "a" "b" [] fresh_world))
  = [inherit_message].
Proof. reflexivity. Qed.

(** A scope with no flag at all still warns, about the member [none]. *)
Example enter_none_warns :
  warned (snd (snd (NoSuspendLinux_enter all_answer two_suspend_endpoints no_namespace
                      (linux_scope false false, fresh_world))))
  = [not_set_message "none"].
Proof. vm_compute. reflexivity. Qed.

(** A group key with no endpoint behind it is silent. *)
Example enter_empty_group_is_silent :
  NoSuspendLinux_enter all_answer [("suspend"%string, [])] no_namespace
    (linux_scope true false, fresh_world)
  = (inr 1, (linux_scope true false, fresh_world)).
Proof. reflexivity. Qed.

(** ** Further properties of the code *)

(** *** The constructors *)

(** The only error the loop over the keyword arguments can raise is the
    [TypeError] of an attribute that is no integer. *)
Lemma init_kwargs_error {S} E kwargs : forall acc (w w' : S) err,
  init_kwargs E acc kwargs w = (inl err, w') -> err = TypeError.
Proof.
  induction kwargs as [|kv rest IH]; intros acc w w' err; simpl; [discriminate|].
  unfold bind. destruct (init_kwarg E acc kv w) as [[e|acc'] w1] eqn:Hkv.
  - intros H. inversion H; subst. clear H.
    destruct kv as [k v]. destruct v as [| v | |]; simpl in Hkv; try discriminate.
    unfold hasattr, getattr_int, bind in Hkv.
    destruct (getattr E k) as [[z|]|]; simpl in Hkv; try discriminate.
    inversion Hkv. reflexivity.
  - apply IH.
Qed.

(** X1: the constructor of the single-call scope never touches the
    platform; when it returns, the stored flags are the named bits, the
    bit of [AWAYMODE_REQUIRED], the bits of the accepted keyword
    arguments and the [CONTINUOUS] marker (bit 31, always set), and the
    scope holds no snapshot; it can only raise [TypeError]; and without
    extra keyword arguments it always returns. *)
Theorem X1_win_init {K} (ns : string -> option pyattr)
    (suspend display AWAYMODE_REQUIRED inherit_ : bool)
    (kwargs : list (string * pyval)) (k : K) :
  match NoSuspendWinVistaPlus_init ns suspend display AWAYMODE_REQUIRED inherit_ kwargs k with
  | (inr o, k') =>
      k' = k /\ prev o = None /\ current o = None /\
      inherit (win_base o) = inherit_ /\
      flag (win_base o)
      = Z.lor (Z.lor (Z.lor (named_bits suspend display)
                        (bool_times AWAYMODE_REQUIRED 0x40))
                 (extra_bits (EXECUTION_STATE ns) kwargs)) CONTINUOUS /\
      Z.testbit (flag (win_base o)) 31 = true
  | (inl err, k') => k' = k /\ err = TypeError /\ kwargs <> []
  end.
Proof.
  unfold NoSuspendWinVistaPlus_init, NoSuspend_init, bind, getattr_int, IntFlag_or.
  cbn [getattr EXECUTION_STATE members aliases assoc String.eqb Ascii.eqb Bool.eqb ret].
  simpl init_kwargs. unfold bind at 1. cbn [init_kwarg hasattr getattr EXECUTION_STATE
    members aliases assoc String.eqb Ascii.eqb Bool.eqb getattr_int ret bind].
  pose proof (init_kwargs_run (S:=K) (EXECUTION_STATE ns) kwargs
    (IntFlag_or (Z.lor (bool_times suspend 1) (bool_times display 2))
       (bool_times AWAYMODE_REQUIRED 64)) k) as Hrun.
  destruct (init_kwargs (EXECUTION_STATE ns) _ kwargs k) as [[err|f] k'] eqn:Hk.
  - split; [exact Hrun|]. split; [eapply init_kwargs_error; exact Hk|].
    intros ->. simpl in Hk. discriminate.
  - destruct Hrun as [-> ->]. cbn [flag win_base inherit prev current].
    unfold IntFlag_or, named_bits.
    repeat (split; [reflexivity|]). cbn [flag win_base]. rewrite Z.lor_spec.
    replace (Z.testbit CONTINUOUS 31) with true by reflexivity.
    apply orb_true_r.
Qed.

(** X2: the constructor of the Linux scope reaches no endpoint; the
    strings it hands to the base constructor as [appName] and [reason]
    contribute no flag; when it returns, the scope has the named bits
    and the bits of the accepted keyword arguments, the caller's
    [appName] and [reason], an empty dictionary of cookies, and exactly
    one warning has been emitted if [inherit] is false, none otherwise;
    it can only raise [TypeError], and then has emitted nothing; without
    extra keyword arguments it always returns. *)
Theorem X2_linux_init (ns : string -> option pyattr)
    (suspend display inherit_ : bool) (appName_ reason_ : string)
    (kwargs : list (string * pyval)) (w : World) :
  match NoSuspendLinux_init ns suspend display inherit_ appName_ reason_ kwargs w with
  | (inr o, w') =>
      calls w' = calls w /\ inhibitor_cookies w' = inhibitor_cookies w /\
      warned w' = warned w ++ (if inherit_ then [] else [inherit_message]) /\
      cookies o = DefaultDict [] /\ appName o = appName_ /\ reason o = reason_ /\
      inherit (linux_base o) = inherit_ /\
      flag (linux_base o)
      = Z.lor (named_bits suspend display) (extra_bits (SuspendInhibitionState ns) kwargs)
  | (inl err, w') => w' = w /\ err = TypeError /\ kwargs <> []
  end.
Proof.
  unfold NoSuspendLinux_init, NoSuspend_init.
  unfold bind at 1. unfold bind at 1. unfold getattr_int at 1.
  cbn [getattr SuspendInhibitionState members aliases assoc String.eqb Ascii.eqb Bool.eqb ret].
  unfold bind at 1. unfold getattr_int at 1.
  cbn [getattr SuspendInhibitionState members aliases assoc String.eqb Ascii.eqb Bool.eqb ret].
  unfold bind at 1.
  change (init_kwargs (SuspendInhibitionState ns)
            (Z.lor (bool_times suspend 1) (bool_times display 2))
            (("appName"%string, PyStr "Python NoSuspend")
             :: ("reason"%string, PyStr reason_) :: kwargs) w)
    with (init_kwargs (SuspendInhibitionState ns)
            (Z.lor (bool_times suspend 1) (bool_times display 2)) kwargs w).
  pose proof (init_kwargs_run (SuspendInhibitionState ns) kwargs
    (Z.lor (bool_times suspend 1) (bool_times display 2)) w) as Hrun.
  destruct (init_kwargs (SuspendInhibitionState ns) _ kwargs w) as [[err|f] w'] eqn:Hk.
  - split; [exact Hrun|]. split; [eapply init_kwargs_error; exact Hk|].
    intros ->. simpl in Hk. discriminate.
  - destruct Hrun as [-> ->]. unfold bind, ret, warnings_warn, modify.
    destruct inherit_; cbn; rewrite ?app_nil_r; repeat split; reflexivity.
Qed.

(** *** Scopes of the single-call backend, composed *)

Section WinVistaPlusComposition.

(** A platform call that returns the recorded bitmask and records its
    argument. *)
Context {K : Type}.
Variable SetThreadExecutionState : Z -> M K Z.
Variable mask : K -> Z.
Hypothesis returns_recorded :
  forall es k, fst (SetThreadExecutionState es k) = inr (mask k).
Hypothesis records_argument :
  forall es k, mask (snd (SetThreadExecutionState es k)) = es.

Lemma call_run (es : Z) (k : K) :
  SetThreadExecutionState es k = (inr (mask k), snd (SetThreadExecutionState es k)).
Proof.
  pose proof (returns_recorded es k) as H.
  destruct (SetThreadExecutionState es k) as [r k']. simpl in *. subst r. reflexivity.
Qed.

(** [__enter__] on such a platform: the snapshot is the bitmask before
    entry, and the bitmask becomes the effective flags. *)
Lemma enter_recorded (s : NoSuspendWinVistaPlus_obj) (k : K) :
  exists k',
    NoSuspendWinVistaPlus_enter SetThreadExecutionState (s, k)
    = (inr (Some (effective s (mask k))),
       ({| win_base := win_base s; prev := Some (mask k);
           current := Some (effective s (mask k)) |}, k')) /\
    mask k' = effective s (mask k).
Proof.
  eexists. split.
  - eapply enter_run; apply call_run.
  - apply records_argument.
Qed.

(** [__exit__] of a scope that holds a snapshot puts the snapshot back,
    whatever the bitmask has become. *)
Lemma exit_recorded (s : NoSuspendWinVistaPlus_obj) (k : K) (p : Z) :
  prev s = Some p ->
  exists k',
    NoSuspendWinVistaPlus_exit SetThreadExecutionState (s, k)
    = (inr tt, ({| win_base := win_base s; prev := None; current := Some p |}, k')) /\
    mask k' = p.
Proof.
  intros Hp. eexists. split.
  - eapply exit_run; [exact Hp | apply call_run].
  - apply records_argument.
Qed.

(** X3: the scoped guarantee.  A [with] block over a scope puts the
    bitmask back to what it was before the block, whatever the body did
    to the platform and whether it returned or raised, and the outcome
    of the block is the outcome of its body. *)
Theorem X3_with_restores_bitmask {B} (body : M K B)
    (s : NoSuspendWinVistaPlus_obj) (k : K) :
  let block := with_ (NoSuspendWinVistaPlus_enter SetThreadExecutionState)
                 (NoSuspendWinVistaPlus_exit SetThreadExecutionState)
                 (fun _ => on_world body) in
  mask (snd (snd (block (s, k)))) = mask k /\
  fst (block (s, k))
  = fst (body (snd (snd (NoSuspendWinVistaPlus_enter SetThreadExecutionState (s, k))))).
Proof.
  intros block. subst block. unfold with_.
  destruct (enter_recorded s k) as (k1 & Henter & _). rewrite Henter.
  unfold on_world. cbn [fst snd].
  destruct (body k1) as [r k2] eqn:Hbody. cbn [fst snd].
  destruct (exit_recorded {| win_base := win_base s; prev := Some (mask k);
                             current := Some (effective s (mask k)) |} k2 (mask k) eq_refl)
    as (k3 & Hexit & Hmask).
  rewrite Hexit. cbn [fst snd]. split; [exact Hmask | reflexivity].
Qed.

(** X4: the order of the exits matters.  Two scopes entered one after
    the other and exited innermost first put the original bitmask back;
    exited outermost first, the original bitmask is back only between
    the two exits, and what stays in force afterwards is the effective
    flags of the outer scope. *)
Theorem X4_exit_order (a b : NoSuspendWinVistaPlus_obj) (k : K) :
  let enter := NoSuspendWinVistaPlus_enter SetThreadExecutionState in
  let exit_ := NoSuspendWinVistaPlus_exit SetThreadExecutionState in
  let a1 := snd (enter (a, k)) in
  let b1 := snd (enter (b, snd a1)) in
  (* innermost first *)
  let b2 := snd (exit_ b1) in
  let a2 := snd (exit_ (fst a1, snd b2)) in
  (* outermost first *)
  let a2' := snd (exit_ (fst a1, snd b1)) in
  let b2' := snd (exit_ (fst b1, snd a2')) in
  mask (snd b2) = effective a (mask k) /\
  mask (snd a2) = mask k /\
  mask (snd a2') = mask k /\
  mask (snd b2') = effective a (mask k).
Proof.
  cbv zeta.
  destruct (enter_recorded a k) as (k1 & Ha & Hk1). rewrite Ha. cbn [fst snd].
  destruct (enter_recorded b k1) as (k2 & Hb & Hk2). rewrite Hb. cbn [fst snd].
  rewrite Hk1.
  destruct (exit_recorded {| win_base := win_base b; prev := Some (effective a (mask k));
                             current := Some (effective b (effective a (mask k))) |}
              k2 _ eq_refl) as (k3 & Hxb & Hk3).
  rewrite Hxb. cbn [fst snd].
  destruct (exit_recorded {| win_base := win_base a; prev := Some (mask k);
                             current := Some (effective a (mask k)) |}
              k3 _ eq_refl) as (k4 & Hxa & Hk4).
  rewrite Hxa. cbn [fst snd].
  destruct (exit_recorded {| win_base := win_base a; prev := Some (mask k);
                             current := Some (effective a (mask k)) |}
              k2 _ eq_refl) as (k3' & Hxa' & Hk3').
  rewrite Hxa'. cbn [fst snd].
  destruct (exit_recorded {| win_base := win_base b; prev := Some (effective a (mask k));
                             current := Some (effective b (effective a (mask k))) |}
              k3' _ eq_refl) as (k4' & Hxb' & Hk4').
  rewrite Hxb'. cbn [fst snd].
  repeat split; assumption.
Qed.

(** X5: a scope is not re-entrant.  Entered a second time before it is
    exited, it overwrites its snapshot: the first [__exit__] puts back
    the bitmask of the second entry, which is the effective flags of the
    first, and the second [__exit__] raises [TypeError] without reaching
    the platform, so the original bitmask is never put back. *)
Theorem X5_reentered_scope_loses_snapshot (s : NoSuspendWinVistaPlus_obj) (k : K) :
  let enter := NoSuspendWinVistaPlus_enter SetThreadExecutionState in
  let exit_ := NoSuspendWinVistaPlus_exit SetThreadExecutionState in
  let twice := snd (enter (snd (enter (s, k)))) in
  let once_out := exit_ twice in
  let twice_out := exit_ (snd once_out) in
  fst once_out = inr tt /\
  mask (snd (snd once_out)) = effective s (mask k) /\
  fst twice_out = inl TypeError /\
  snd (snd twice_out) = snd (snd once_out).
Proof.
  cbv zeta.
  destruct (enter_recorded s k) as (k1 & H1 & Hk1). rewrite H1. cbn [fst snd].
  destruct (enter_recorded {| win_base := win_base s; prev := Some (mask k);
                              current := Some (effective s (mask k)) |} k1)
    as (k2 & H2 & Hk2).
  rewrite H2. cbn [fst snd win_base]. rewrite Hk1.
  match goal with
  | |- context [NoSuspendWinVistaPlus_exit _ (?o, k2)] =>
      destruct (exit_recorded o k2 (effective s (mask k)) eq_refl) as (k3 & H3 & Hk3)
  end.
  rewrite H3. cbn [fst snd win_base].
  rewrite exit_without_snapshot by reflexivity. cbn [fst snd].
  repeat split. exact Hk3.
Qed.

End WinVistaPlusComposition.

Lemma X3_with_restores_bitmask_witness :
  snd (snd (with_ (NoSuspendWinVistaPlus_enter recording_SetThreadExecutionState)
              (NoSuspendWinVistaPlus_exit recording_SetThreadExecutionState)
              (fun _ => on_world (A:=unit) (raise KeyError))
              (suspend_scope true, 2))) = 2.
Proof.
  exact (proj1 (X3_with_restores_bitmask recording_SetThreadExecutionState (fun m => m)
                  (fun _ _ => eq_refl) (fun _ _ => eq_refl) (raise KeyError)
                  (suspend_scope true) 2)).
Defined.

Lemma X4_exit_order_witness :
  let enter := NoSuspendWinVistaPlus_enter recording_SetThreadExecutionState in
  let exit_ := NoSuspendWinVistaPlus_exit recording_SetThreadExecutionState in
  let a1 := snd (enter (suspend_scope true, 2)) in
  let b1 := snd (enter (suspend_scope false, snd a1)) in
  snd (snd (exit_ (fst b1, snd (snd (exit_ (fst a1, snd b1))))))
  = effective (suspend_scope true) 2.
Proof.
  exact (proj2 (proj2 (proj2
    (X4_exit_order recording_SetThreadExecutionState (fun m => m)
       (fun _ _ => eq_refl) (fun _ _ => eq_refl)
       (suspend_scope true) (suspend_scope false) 2)))).
Defined.

Lemma X5_reentered_scope_loses_snapshot_witness :
  fst (NoSuspendWinVistaPlus_exit recording_SetThreadExecutionState
         (snd (NoSuspendWinVistaPlus_exit recording_SetThreadExecutionState
                 (snd (NoSuspendWinVistaPlus_enter recording_SetThreadExecutionState
                         (snd (NoSuspendWinVistaPlus_enter
                                 recording_SetThreadExecutionState
                                 (suspend_scope true, 2))))))))
  = inl TypeError.
Proof.
  exact (proj1 (proj2 (proj2
    (X5_reentered_scope_loses_snapshot recording_SetThreadExecutionState (fun m => m)
       (fun _ _ => eq_refl) (fun _ _ => eq_refl) (suspend_scope true) 2)))).
Defined.

(** *** The bookkeeping of the inhibitors *)

Lemma cookies_of_set (e e' : Endpoint) (cs : gset Cookie) (w : World) :
  cookies_of e' (set_cookies_of e cs w) = if decide (e = e') then cs else cookies_of e' w.
Proof.
  unfold cookies_of, set_cookies_of. cbn [inhibitor_cookies].
  destruct (decide (e = e')) as [->|Hne].
  - rewrite lookup_insert_eq. reflexivity.
  - rewrite lookup_insert_ne by exact Hne. reflexivity.
Qed.

Section Bookkeeping.

Variable P : Platform.

(** [inhibit], in full: one call; on success the cookie joins the set of
    this inhibitor and of no other; on failure no set changes. *)
Lemma inhibit_run (e : Endpoint) (a r : string) (w : World) :
  let res := inhibit_result P e a r (calls w) in
  fst (inhibit P e a r w) = res /\
  calls (snd (inhibit P e a r w)) = calls w ++ [InhibitCall e a r res] /\
  warned (snd (inhibit P e a r w)) = warned w /\
  forall e', cookies_of e' (snd (inhibit P e a r w))
             = match res with
               | inr ck => if decide (e = e') then cookies_of e w ∪ {[ck]}
                           else cookies_of e' w
               | inl _ => cookies_of e' w
               end.
Proof.
  unfold inhibit, bind, _inhibitCall, modify, ret. cbn zeta.
  destruct (inhibit_result P e a r (calls w)) as [err|ck]; cbn [fst snd].
  - repeat split.
  - split; [reflexivity|]. split; [reflexivity|]. split; [reflexivity|].
    intros e'. rewrite cookies_of_set. reflexivity.
Qed.

(** [uninhibit], in full: the endpoint is called first; the set is
    consulted only when the call returned. *)
Lemma uninhibit_sets (e : Endpoint) (ck : Cookie) (w : World) :
  let res := uninhibit_result P e ck (calls w) in
  fst (uninhibit P e ck w)
  = match res with
    | inl err => inl err
    | inr _ => if bool_decide (ck ∈ cookies_of e w) then inr tt else inl KeyError
    end /\
  forall e', cookies_of e' (snd (uninhibit P e ck w))
             = match fst (uninhibit P e ck w) with
               | inr _ => if decide (e = e') then cookies_of e w ∖ {[ck]}
                          else cookies_of e' w
               | inl _ => cookies_of e' w
               end.
Proof.
  unfold uninhibit, bind, _uninhibitCall, get, modify, ret, raise. cbn zeta.
  destruct (uninhibit_result P e ck (calls w)) as [err|[]]; cbn [fst snd].
  - repeat split.
  - change (cookies_of e (record_call (UnInhibitCall e ck (inr ())) w))
      with (cookies_of e w).
    destruct (bool_decide (ck ∈ cookies_of e w)); cbn [fst snd].
    + split; [reflexivity|]. intros e'. rewrite cookies_of_set. reflexivity.
    + repeat split.
Qed.

(** X6: releasing a cookie the inhibitor does not hold still calls the
    endpoint; the call made, [uninhibit] raises (the endpoint's error,
    or [KeyError] when the endpoint accepted), and no set changes. *)
Theorem X6_uninhibit_unknown_cookie (e : Endpoint) (ck : Cookie) (w : World)
    (Hunknown : ck ∉ cookies_of e w) :
  let res := uninhibit_result P e ck (calls w) in
  calls (snd (uninhibit P e ck w)) = calls w ++ [UnInhibitCall e ck res] /\
  fst (uninhibit P e ck w)
  = match res with inl err => inl err | inr _ => inl KeyError end /\
  forall e', cookies_of e' (snd (uninhibit P e ck w)) = cookies_of e' w.
Proof.
  cbn zeta. destruct (uninhibit_run P e ck w) as (Hc & _ & _).
  destruct (uninhibit_sets e ck w) as (Hr & Hs).
  rewrite bool_decide_eq_false_2 in Hr by exact Hunknown.
  split; [exact Hc|]. split; [exact Hr|].
  intros e'. rewrite Hs, Hr.
  destruct (uninhibit_result P e ck (calls w)); reflexivity.
Qed.

(** X7: an acquisition followed by the release of its cookie.  The
    release finds the cookie, so it raises only if the endpoint does,
    and then the cookie stays in the set.  When it returns, the set of
    the inhibitor is its former set without the cookie: the former set
    itself if the cookie was new, and one element short if the endpoint
    handed out a cookie that was already held. *)
Theorem X7_inhibit_uninhibit (e : Endpoint) (a r : string) (w : World) (ck : Cookie)
    (Hacq : fst (inhibit P e a r w) = inr ck) :
  let w1 := snd (inhibit P e a r w) in
  let res := uninhibit_result P e ck (calls w1) in
  fst (uninhibit P e ck w1) = res /\
  (forall e', e' <> e -> cookies_of e' (snd (uninhibit P e ck w1)) = cookies_of e' w) /\
  cookies_of e (snd (uninhibit P e ck w1))
  = match res with
    | inr _ => cookies_of e w ∖ {[ck]}
    | inl _ => cookies_of e w ∪ {[ck]}
    end /\
  (res = inr tt -> ck ∉ cookies_of e w ->
   cookies_of e (snd (uninhibit P e ck w1)) = cookies_of e w).
Proof.
  cbn zeta. destruct (inhibit_run e a r w) as (Hr & _ & _ & Hs).
  rewrite Hacq in Hr. rewrite <- Hr in Hs.
  destruct (uninhibit_sets e ck (snd (inhibit P e a r w))) as (Hr2 & Hs2).
  assert (Hin : ck ∈ cookies_of e (snd (inhibit P e a r w))).
  { rewrite Hs. rewrite decide_True by reflexivity. apply elem_of_union_r, elem_of_singleton. reflexivity. }
  rewrite bool_decide_eq_true_2 in Hr2 by exact Hin.
  assert (Hres : fst (uninhibit P e ck (snd (inhibit P e a r w)))
                 = uninhibit_result P e ck (calls (snd (inhibit P e a r w)))).
  { rewrite Hr2. destruct (uninhibit_result P e ck _) as [err|[]]; reflexivity. }
  split; [exact Hres|].
  split; [|split].
  - intros e' Hne. rewrite Hs2.
    destruct (fst (uninhibit P e ck _));
      rewrite ?decide_False by congruence; rewrite Hs;
      rewrite decide_False by congruence; reflexivity.
  - rewrite Hs2, Hres, !Hs.
    destruct (uninhibit_result P e ck _) as [err|u].
    + rewrite decide_True by reflexivity. reflexivity.
    + rewrite !decide_True by reflexivity. apply set_eq. intros x.
      rewrite !elem_of_difference, elem_of_union. tauto.
  - intros Hok Hnew. rewrite Hs2, Hres, Hok, !Hs.
    rewrite !decide_True by reflexivity. apply set_eq. intros x.
    rewrite elem_of_difference, elem_of_union, elem_of_singleton.
    split; [tauto|]. intros Hx. split; [tauto|]. intros ->. contradiction.
Qed.

End Bookkeeping.

Lemma X6_uninhibit_unknown_cookie_witness :
  fst (uninhibit all_answer 0%nat 7 fresh_world) = inl KeyError.
Proof.
  exact (proj1 (proj2 (X6_uninhibit_unknown_cookie all_answer 0%nat 7 fresh_world
                         (not_elem_of_empty (C:=gset Cookie) 7)))).
Defined.

Lemma X7_inhibit_uninhibit_witness :
  cookies_of 0%nat
    (snd (uninhibit all_answer 0%nat 7
            (snd (inhibit all_answer 0%nat "app" "why" fresh_world))))
  = cookies_of 0%nat fresh_world.
Proof.
  exact (proj2 (proj2 (proj2
    (X7_inhibit_uninhibit all_answer 0%nat "app" "why" fresh_world 7 eq_refl)))
    eq_refl (not_elem_of_empty (C:=gset Cookie) 7)).
Defined.

(** *** The scope and the sets of its inhibitors *)

Section Tracking.

Variable P : Platform.
Variable powerRelatedIfcs : list (string * list (string * list (string * Endpoint))).
Variable ns : string -> option pyattr.

(** One endpoint of one group, by cases on the answer of the endpoint
    and on what the scope holds. *)
Lemma acquire_endpoint_run (grNm : string) (e : Endpoint) (s : NoSuspendLinux_obj) (w : World) :
  acquire_endpoint P grNm e (s, w)
  = match inhibit_result P e (appName s) (reason s) (calls w) with
    | inl err => (inl err, (s, snd (inhibit P e (appName s) (reason s) w)))
    | inr ck =>
        match cookies s with
        | DefaultDict d =>
            (inr tt, (set_cookies (DefaultDict (dict_append grNm (e, ck) d)) s,
                      snd (inhibit P e (appName s) (reason s) w)))
        | EmptyList => (inl TypeError, (s, snd (inhibit P e (appName s) (reason s) w)))
        end
    end.
Proof.
  unfold acquire_endpoint, cookies_append, bind, on_world, get_self, set_self.
  cbn [fst snd].
  destruct (inhibit_run P e (appName s) (reason s) w) as (Hr & _).
  destruct (inhibit P e (appName s) (reason s) w) as [r w1]. cbn [fst snd] in *.
  rewrite Hr. destruct (inhibit_result P e (appName s) (reason s) (calls w)) as [err|ck];
    [reflexivity|].
  cbn [fst snd]. destruct (cookies s); reflexivity.
Qed.

Lemma acquire_endpoint_known (grNm : string) (e : Endpoint) (st : NoSuspendLinux_obj * World) :
  known st -> known (snd (acquire_endpoint P grNm e st)).
Proof.
  destruct st as [s w]. intros Hk. rewrite acquire_endpoint_run.
  destruct (inhibit_run P e (appName s) (reason s) w) as (_ & _ & _ & Hs).
  cbn zeta in Hs.
  destruct (inhibit_result P e (appName s) (reason s) (calls w)) as [err|ck].
  - intros e0 ck0 Hin. cbn [fst snd] in *. rewrite Hs. apply Hk. exact Hin.
  - assert (Hgrow : forall e0 ck0, ck0 ∈ cookies_of e0 w ->
                      ck0 ∈ cookies_of e0 (snd (inhibit P e (appName s) (reason s) w))).
    { intros e0 ck0 Hin. rewrite Hs. destruct (decide (e = e0)) as [->|Hne]; [|exact Hin].
      apply elem_of_union_l. exact Hin. }
    destruct (cookies s) as [d|] eqn:Hd.
    + intros e0 ck0 Hin. cbn [fst snd cookies set_cookies] in *.
      apply (Permutation_in _ (held_dict_append grNm (e, ck) d)) in Hin.
      apply in_app_or in Hin. destruct Hin as [Hin | [Heq | []]].
      * apply Hgrow. apply Hk. cbn [fst]. rewrite Hd. exact Hin.
      * injection Heq as <- <-. rewrite Hs. rewrite decide_True by reflexivity.
        apply elem_of_union_r, elem_of_singleton. reflexivity.
    + intros e0 ck0 Hin. cbn [fst snd] in *. apply Hgrow. apply Hk. exact Hin.
Qed.

Lemma for_each_known {A} (body : A -> M (NoSuspendLinux_obj * World) unit) (l : list A)
    (st : NoSuspendLinux_obj * World) :
  (forall x s, known s -> known (snd (body x s))) ->
  known st -> known (snd (for_each l body st)).
Proof.
  intros Hbody.
  assert (H : keeps_known (concat (List.map (fun _ : A => []) l)) st
                (snd (for_each l body st)) (fst (for_each l body st))).
  { apply (for_each_ind keeps_known (fun _ : A => [])); unfold keeps_known; auto. }
  exact H.
Qed.

Lemma enter_group_known (gr : flag_member) (st : NoSuspendLinux_obj * World) :
  known st -> known (snd (enter_group P powerRelatedIfcs gr st)).
Proof.
  unfold enter_group. destruct (fst gr) as [grNm|]; [|auto].
  destruct (assoc grNm powerRelatedIfcs) as [des|]; [|auto].
  apply for_each_known. intros de s. apply for_each_known.
  intros i s0. apply acquire_endpoint_known.
Qed.

Lemma enter_known (st : NoSuspendLinux_obj * World) :
  known st -> known (snd (NoSuspendLinux_enter P powerRelatedIfcs ns st)).
Proof.
  destruct st as [s w]. intros Hk. rewrite enter_unfold.
  pose proof (for_each_known (enter_group P powerRelatedIfcs)
                (fst (_enumDecompose (SuspendInhibitionState ns) (flag (linux_base s))))
                (s, w) enter_group_known Hk) as H.
  destruct (for_each _ _ (s, w)) as [[err|u] st']; exact H.
Qed.

Lemma acquired_tried (tr : list Call) : List.map fst (acquired tr) `sublist_of` tried tr.
Proof.
  induction tr as [|c tr IH]; [constructor|].
  destruct c as [e a r [err|ck]|e ck res]; simpl.
  - apply sublist_cons. exact IH.
  - apply sublist_skip. exact IH.
  - exact IH.
Qed.

(** The release loop over pairs of distinct inhibitors that know their
    cookies: the only error is the error of an endpoint. *)
Lemma release_loop_known (l : list (Endpoint * Cookie)) :
  forall st : NoSuspendLinux_obj * World,
    NoDup (List.map fst l) ->
    (forall e ck, In (e, ck) l -> ck ∈ cookies_of e (snd st)) ->
    forall err,
      fst (for_each l (fun cancelCall =>
             on_world (O:=NoSuspendLinux_obj)
               (uninhibit P (fst cancelCall) (snd cancelCall))) st) = inl err ->
      exists e ck tr, In (e, ck) l /\ uninhibit_result P e ck tr = inl err.
Proof.
  induction l as [|[e ck] l IH]; intros [s w] Hnd Hk err; [discriminate|].
  cbn [for_each]. unfold bind at 1. unfold on_world at 1. cbn [fst snd].
  destruct (uninhibit_sets P e ck w) as (Hr & Hs). cbn zeta in Hr.
  rewrite bool_decide_eq_true_2 in Hr by (apply (Hk e ck); left; reflexivity).
  destruct (uninhibit P e ck w) as [r w1]. cbn [fst snd] in *.
  destruct (uninhibit_result P e ck (calls w)) as [err0|[]] eqn:Hres; subst r.
  - intros Herr. injection Herr as <-. exists e, ck, (calls w).
    split; [left; reflexivity | exact Hres].
  - intros Herr. apply NoDup_cons in Hnd. destruct Hnd as [Hnotin Hnd]. cbn [List.map fst] in *.
    destruct (IH (s, w1) Hnd) with (err := err) as (e1 & ck1 & tr & Hin & Hfail).
    + intros e1 ck1 Hin. cbn [snd]. rewrite Hs.
      destruct (decide (e = e1)) as [->|Hne].
      * exfalso. apply Hnotin. apply list_elem_of_In.
        apply (in_map fst) in Hin. exact Hin.
      * apply (Hk e1 ck1). right. exact Hin.
    + exact Herr.
    + exists e1, ck1, tr. split; [right; exact Hin | exact Hfail].
Qed.

(** X8: [__enter__] keeps every cookie it records known to its
    inhibitor.  So for a fresh scope whose plan names no endpoint twice,
    whether [__enter__] returned or raised, the [__exit__] that follows
    raises no [KeyError] of its own: an error that leaves it is the
    error some endpoint raised on the release of a held pair. *)
Theorem X8_exit_after_enter_raises_only_endpoint_errors
    (s : NoSuspendLinux_obj) (w : World)
    (Hfresh : cookies s = DefaultDict [])
    (Hdistinct : NoDup (plan_endpoints
                          (enter_plan powerRelatedIfcs ns (flag (linux_base s))))) :
  let entered := snd (NoSuspendLinux_enter P powerRelatedIfcs ns (s, w)) in
  known entered /\
  forall err, fst (NoSuspendLinux_exit P entered) = inl err ->
    exists e ck tr,
      In (e, ck) (held (cookies (fst entered))) /\ uninhibit_result P e ck tr = inl err.
Proof.
  cbn zeta.
  assert (Hk0 : known (s, w)).
  { intros e ck Hin. cbn [fst] in Hin. rewrite Hfresh in Hin. contradiction. }
  pose proof (enter_known (s, w) Hk0) as Hk1.
  split; [exact Hk1|].
  destruct (enter_spec P powerRelatedIfcs ns s w) as [Hent _].
  destruct Hent as (_ & _ & _ & new & ws & _ & _ & _ & Hp & _ & Hdict & _).
  destruct (Hdict [] Hfresh) as (d' & Hd' & Hperm). cbn [held concat List.map app] in Hperm.
  destruct (NoSuspendLinux_enter P powerRelatedIfcs ns (s, w)) as [r [s1 w1]].
  cbn [fst snd] in *.
  assert (Hnd : NoDup (List.map fst (concat (List.map snd d')))).
  { rewrite Hperm. apply (sublist_NoDup _ (tried new)); [|apply acquired_tried].
    destruct Hp as [rest Hp]. rewrite Hp in Hdistinct.
    apply NoDup_app in Hdistinct. tauto. }
  intros err Herr. rewrite (exit_unfold P s1 w1 d' Hd') in Herr. rewrite Hd'.
  cbn [held].
  destruct (for_each (concat (List.map snd d')) _ (s1, w1)) as [[err1|u] st2] eqn:Hloop;
    [|discriminate].
  injection Herr as <-.
  apply (release_loop_known (concat (List.map snd d')) (s1, w1) Hnd).
  - intros e ck Hin. apply Hk1. cbn [fst]. rewrite Hd'. exact Hin.
  - rewrite Hloop. reflexivity.
Qed.

End Tracking.

Lemma X8_exit_after_enter_raises_only_endpoint_errors_witness :
  known (snd (NoSuspendLinux_enter (release_raises_on 0%nat) two_suspend_endpoints
                no_namespace (linux_scope true false, fresh_world))).
Proof.
  refine (proj1 (X8_exit_after_enter_raises_only_endpoint_errors (release_raises_on 0%nat)
                   two_suspend_endpoints no_namespace (linux_scope true false) fresh_world
                   eq_refl _)).
  vm_compute. repeat constructor; set_unfold; intuition discriminate.
Defined.

(** *** Failures of acquisitions and releases *)

Lemma removed_from_app (e : Endpoint) (a b : list Call) :
  removed_from e (a ++ b) = removed_from e a ∪ removed_from e b.
Proof. unfold removed_from. rewrite omap_app, list_to_set_app_L. reflexivity. Qed.

Lemma removed_from_nil (e : Endpoint) : removed_from e [] = ∅.
Proof. reflexivity. Qed.

Lemma removed_from_one (e e' : Endpoint) (ck : Cookie) (res : exn + unit) :
  removed_from e' [UnInhibitCall e ck res]
  = match res with
    | inr _ => if decide (e = e') then {[ck]} else ∅
    | inl _ => ∅
    end.
Proof.
  unfold removed_from. cbn [omap list_omap]. destruct res as [err|u]; [reflexivity|].
  destruct (decide (e = e')); cbn [list_to_set]; [|reflexivity].
  apply union_empty_r_L.
Qed.

Lemma removed_released (e : Endpoint) (ck : Cookie) (tr : list Call) :
  ck ∈ removed_from e tr -> In (e, ck) (released tr).
Proof.
  unfold removed_from, released. rewrite elem_of_list_to_set, list_elem_of_omap.
  intros (c & Hc & Hf). apply list_elem_of_In, list_elem_of_omap. exists c.
  split; [exact Hc|]. destruct c as [e0 a r res|e0 ck0 [err|u]]; try discriminate.
  destruct (decide (e0 = e)) as [->|]; [|discriminate]. injection Hf as ->. reflexivity.
Qed.

Lemma app_cons_split {A} (l1 l2 pre post : list A) (c : A) :
  l1 ++ l2 = pre ++ c :: post ->
  (exists post1, l1 = pre ++ c :: post1) \/
  (exists pre2, pre = l1 ++ pre2 /\ l2 = pre2 ++ c :: post).
Proof.
  revert pre. induction l1 as [|x l1 IH]; intros pre Heq.
  - right. exists pre. split; [reflexivity | exact Heq].
  - destruct pre as [|y pre]; cbn in Heq; injection Heq as -> Heq.
    + left. exists l1. reflexivity.
    + destruct (IH pre Heq) as [[post1 ->] | (pre2 & -> & ->)].
      * left. exists post1. reflexivity.
      * right. exists pre2. split; reflexivity.
Qed.

Lemma found_in_nil (w : World) : found_in w [].
Proof. intros pre e ck res post H. destruct pre; discriminate. Qed.

Lemma found_in_app (w w1 : World) (a b : list Call) :
  found_in w a ->
  (forall e, cookies_of e w1 = cookies_of e w ∖ removed_from e a) ->
  found_in w1 b ->
  found_in w (a ++ b).
Proof.
  intros Ha Hs Hb pre e ck res post Heq.
  destruct (app_cons_split a b pre post _ Heq) as [[post1 H1] | (pre2 & -> & H2)].
  - exact (Ha pre e ck res post1 H1).
  - destruct (Hb pre2 e ck res post H2) as [Hres Hin]. split; [exact Hres|].
    rewrite removed_from_app, <- difference_difference_l_L, <- Hs. exact Hin.
Qed.

Section Failures.

Variable P : Platform.
Variable powerRelatedIfcs : list (string * list (string * list (string * Endpoint))).
Variable ns : string -> option pyattr.

Lemma uninhibit_accounting (e : Endpoint) (ck : Cookie) (st : NoSuspendLinux_obj * World) :
  accounting [] st (snd (on_world (uninhibit P e ck) st)) (fst (on_world (uninhibit P e ck) st)).
Proof.
  destruct st as [o w]. unfold on_world. cbn [fst snd].
  destruct (uninhibit_run P e ck w) as (Hc & _ & _).
  destruct (uninhibit_sets P e ck w) as (Hr & Hs). cbn zeta in Hc, Hr.
  exists [UnInhibitCall e ck (uninhibit_result P e ck (calls w))].
  split; [exact Hc|]. rewrite Hr in Hs |- *.
  destruct (uninhibit_result P e ck (calls w)) as [err|[]].
  - split.
    + intros e'. rewrite Hs, removed_from_one, difference_empty_L. reflexivity.
    + exists [], e, ck, (inl err). split; [reflexivity|].
      split; [apply found_in_nil|]. left. reflexivity.
  - destruct (bool_decide (ck ∈ cookies_of e w)) eqn:Hin.
    + split.
      * intros e'. rewrite Hs, removed_from_one.
        destruct (decide (e = e')) as [->|]; [reflexivity|].
        rewrite difference_empty_L. reflexivity.
      * apply bool_decide_eq_true_1 in Hin.
        intros pre e0 ck0 res post Heq.
        destruct pre as [|c pre]; [|destruct pre; discriminate].
        injection Heq as <- <- <- <-. split; [reflexivity|].
        rewrite removed_from_nil, difference_empty_L. exact Hin.
    + apply bool_decide_eq_false_1 in Hin. split.
      * intros e'. rewrite Hs, removed_from_one.
        destruct (decide (e = e')) as [<-|]; [|rewrite difference_empty_L; reflexivity].
        apply set_eq. intros x. rewrite elem_of_difference, elem_of_singleton.
        split; [|tauto]. intros Hx. split; [exact Hx|]. intros ->. contradiction.
      * exists [], e, ck, (inr tt). split; [reflexivity|].
        split; [apply found_in_nil|]. right.
        split; [reflexivity|]. split; [reflexivity|].
        rewrite removed_from_nil, difference_empty_L. exact Hin.
Qed.

(** The release loop, with the sets of the inhibitors. *)
Lemma release_accounting (l : list (Endpoint * Cookie)) (st : NoSuspendLinux_obj * World) :
  let run := for_each l (fun cancelCall =>
               on_world (O:=NoSuspendLinux_obj)
                 (uninhibit P (fst cancelCall) (snd cancelCall))) st in
  accounting [] st (snd run) (fst run).
Proof.
  cbn zeta.
  apply (for_each_ind accounting (fun _ : Endpoint * Cookie => [])
           (fun cancelCall => on_world (O:=NoSuspendLinux_obj)
                                (uninhibit P (fst cancelCall) (snd cancelCall)))).
  - intros s. exists []. rewrite app_nil_r. split; [reflexivity|].
    split; [|apply found_in_nil].
    intros e. rewrite removed_from_nil, difference_empty_L. reflexivity.
  - intros l1 l2 s s1 s2 r (new1 & Hc1 & Hs1 & Hf1) (new2 & Hc2 & Hs2 & Hr2).
    exists (new1 ++ new2). rewrite Hc2, Hc1, app_assoc. split; [reflexivity|].
    split.
    + intros e. rewrite Hs2, Hs1, removed_from_app, difference_difference_l_L. reflexivity.
    + destruct r as [err|u]; [|exact (found_in_app _ _ _ _ Hf1 Hs1 Hr2)].
      destruct Hr2 as (pre & e & ck & res & -> & Hf2 & Hres).
      exists (new1 ++ pre), e, ck, res. rewrite app_assoc. split; [reflexivity|].
      split; [exact (found_in_app _ _ _ _ Hf1 Hs1 Hf2)|].
      destruct Hres as [Hres | (Hres & Herr & Hck)]; [left; exact Hres|].
      right. split; [exact Hres|]. split; [exact Herr|].
      rewrite removed_from_app, <- difference_difference_l_L, <- Hs1. exact Hck.
  - intros l1 l2 s s1 err H. exact H.
  - intros [e ck] s. apply uninhibit_accounting.
Qed.

(** [__exit__] on a scope that holds its dictionary, in full. *)
Lemma exit_account (s : NoSuspendLinux_obj) (w : World)
    (d : list (string * list (Endpoint * Cookie))) :
  cookies s = DefaultDict d ->
  let run := NoSuspendLinux_exit P (s, w) in
  exists new,
    calls (snd (snd run)) = calls w ++ new /\
    acquired new = [] /\
    released new `prefix_of` held (cookies s) /\
    (forall e, cookies_of e (snd (snd run)) = cookies_of e w ∖ removed_from e new) /\
    match fst run with
    | inr _ => released new = held (cookies s) /\ Forall release_ok new /\
               found_in w new /\ cookies (fst (snd run)) = EmptyList
    | inl err =>
        fst (snd run) = s /\
        exists pre e ck res,
          new = pre ++ [UnInhibitCall e ck res] /\ Forall release_ok pre /\
          found_in w pre /\
          (res = inl err \/
           (res = inr tt /\ err = KeyError /\ ck ∉ cookies_of e w ∖ removed_from e pre))
    end /\
    (known (s, w) -> NoDup (held (cookies s)) -> Forall release_ok new ->
     fst run = inr tt).
Proof.
  intros Hd. cbn zeta.
  destruct (exit_spec P s w d Hd) as (_ & new & Hc & Ha & _ & Hp & Hr).
  pose proof (release_accounting (concat (List.map snd d)) (s, w)) as Hacc.
  cbn zeta in Hacc. rewrite (exit_unfold P s w d Hd) in Hc, Hr |- *.
  destruct (for_each (concat (List.map snd d)) _ (s, w)) as [[err|u] [s' w']];
    cbn [fst snd] in *;
    destruct Hacc as (new' & Hc' & Hs' & Hr'); cbn [fst snd] in Hc', Hs', Hr';
    rewrite Hc in Hc'; apply app_inv_head in Hc'; subst new';
    exists new; (split; [exact Hc|]); (split; [exact Ha|]); (split; [exact Hp|]);
    (split; [exact Hs'|]).
  - destruct Hr as (Hs & pre & e & ck & res & Hnew & Hpre & Hres).
    destruct Hr' as (pre' & e' & ck' & res' & Hnew' & Hf' & Hres').
    rewrite Hnew in Hnew'. apply app_inj_tail in Hnew'. destruct Hnew' as [<- Hcall].
    injection Hcall as <- <- <-.
    split.
    + split; [exact Hs|]. exists pre, e, ck, res.
      split; [exact Hnew|]. split; [exact Hpre|]. split; [exact Hf' | exact Hres'].
    + intros Hk Hnd Hok. exfalso. subst new.
      destruct Hres' as [-> | (-> & _ & Hck)].
      * apply Forall_app in Hok. destruct Hok as [_ Hok].
        apply Forall_cons in Hok. destruct Hok as [Hok _]. exact Hok.
      * rewrite released_app in Hp. cbn [released omap list_omap] in Hp.
        assert (Hin : In (e, ck) (held (cookies s))).
        { apply list_elem_of_In. eapply elem_of_prefix; [|exact Hp].
          apply elem_of_app. right. apply list_elem_of_singleton. reflexivity. }
        apply Hck. apply elem_of_difference. split; [apply (Hk e ck Hin)|].
        intros Hrem. apply removed_released in Hrem.
        assert (Hnd' : NoDup (released pre ++ [(e, ck)])).
        { destruct Hp as [rest Hrest]. rewrite Hrest in Hnd.
          apply NoDup_app in Hnd. destruct Hnd as [Hnd _]. exact Hnd. }
        apply NoDup_app in Hnd'. destruct Hnd' as (_ & Hdis & _).
        apply (Hdis (e, ck)); [apply list_elem_of_In; exact Hrem|].
        apply list_elem_of_singleton. reflexivity.
  - destruct Hr as (Hrel & Hok & ->). split; [|reflexivity].
    split; [exact Hrel|]. split; [exact Hok|]. split; [exact Hr' | reflexivity].
Qed.

(** C6 (as the code has it): on a scope that holds its dictionary,
    [__exit__] attempts the releases in the order the pairs are held and
    catches nothing.  The release attempts are a prefix of the held
    pairs, so no pair is attempted twice, and the sets of the inhibitors
    lose the cookies of the accepted releases and nothing else.  When
    [__exit__] returns, every held pair has been attempted once, every
    call succeeded and found its cookie in the set of its inhibitor, and
    the dictionary is replaced by the empty list.
    When it raises, the failed release is the last call made, the pairs
    after it are not attempted, and the scope keeps its dictionary; the
    error is the error of that call or, the endpoint having accepted,
    the [KeyError] of a cookie that was not in the set of its inhibitor
    when the call was made.  And [__exit__] does return when no release
    call fails, provided every held cookie is in the set of its
    inhibitor and no pair is held twice. *)
Theorem C6_exit_release_failure_propagates
    (s : NoSuspendLinux_obj) (w : World) (d : list (string * list (Endpoint * Cookie)))
    (Hd : cookies s = DefaultDict d) :
  let run := NoSuspendLinux_exit P (s, w) in
  exists new,
    calls (snd (snd run)) = calls w ++ new /\
    acquired new = [] /\
    released new `prefix_of` held (cookies s) /\
    (forall e, cookies_of e (snd (snd run)) = cookies_of e w ∖ removed_from e new) /\
    match fst run with
    | inr _ => released new = held (cookies s) /\ Forall release_ok new /\
               found_in w new /\ cookies (fst (snd run)) = EmptyList
    | inl err =>
        fst (snd run) = s /\
        exists pre e ck res,
          new = pre ++ [UnInhibitCall e ck res] /\ Forall release_ok pre /\
          found_in w pre /\
          (res = inl err \/
           (res = inr tt /\ err = KeyError /\ ck ∉ cookies_of e w ∖ removed_from e pre))
    end /\
    (known (s, w) -> NoDup (held (cookies s)) -> Forall release_ok new ->
     fst run = inr tt).
Proof. exact (exit_account s w d Hd). Qed.

End Failures.

Section AcquisitionFailures.

Variable P : Platform.
Variable powerRelatedIfcs : list (string * list (string * list (string * Endpoint))).
Variable ns : string -> option pyattr.

Lemma for_each_fails_by_call {A} (body : A -> M (NoSuspendLinux_obj * World) unit)
    (l : list A) (st : NoSuspendLinux_obj * World) :
  (forall x s, fails_by_call [] s (snd (body x s)) (fst (body x s))) ->
  fails_by_call [] st (snd (for_each l body st)) (fst (for_each l body st)).
Proof.
  intros Hbody.
  apply (for_each_ind fails_by_call (fun _ : A => []) body).
  - intros s Hd. split; [exact Hd|]. exists []. rewrite app_nil_r. split; [reflexivity | exact I].
  - intros l1 l2 s s1 s2 r H1 H2 Hd. destruct (H1 Hd) as (Hd1 & new1 & Hc1 & _).
    destruct (H2 Hd1) as (Hd2 & new2 & Hc2 & Hr2). split; [exact Hd2|].
    exists (new1 ++ new2). rewrite Hc2, Hc1, app_assoc. split; [reflexivity|].
    destruct r as [err|u]; [|exact I].
    destruct Hr2 as (pre & e & a & rs & ->). exists (new1 ++ pre), e, a, rs.
    rewrite app_assoc. reflexivity.
  - intros l1 l2 s s1 e H. exact H.
  - exact Hbody.
Qed.

Lemma acquire_endpoint_fails_by_call (grNm : string) (e : Endpoint)
    (st : NoSuspendLinux_obj * World) :
  fails_by_call [] st (snd (acquire_endpoint P grNm e st))
    (fst (acquire_endpoint P grNm e st)).
Proof.
  destruct st as [s w]. intros [d Hd]. cbn [fst] in Hd.
  rewrite acquire_endpoint_run, Hd.
  destruct (inhibit_run P e (appName s) (reason s) w) as (_ & Hc & _). cbn zeta in Hc.
  destruct (inhibit_result P e (appName s) (reason s) (calls w)) as [err|ck];
    cbn [fst snd cookies set_cookies].
  - split; [exists d; exact Hd|]. eexists. split; [exact Hc|].
    exists [], e, (appName s), (reason s). reflexivity.
  - split; [eexists; reflexivity|]. eexists. split; [exact Hc | exact I].
Qed.

(** A member with a name, on a scope that holds its dictionary: an
    error is the error of the last call made. *)
Lemma enter_group_fails_by_call (gr : flag_member) (grNm : string)
    (st : NoSuspendLinux_obj * World) :
  fst gr = Some grNm ->
  fails_by_call [] st (snd (enter_group P powerRelatedIfcs gr st))
    (fst (enter_group P powerRelatedIfcs gr st)).
Proof.
  intros Hname. unfold enter_group. rewrite Hname.
  destruct (assoc grNm powerRelatedIfcs) as [des|].
  - apply for_each_fails_by_call. intros de s. apply for_each_fails_by_call.
    intros i s0. apply acquire_endpoint_fails_by_call.
  - intros Hd. split; [exact Hd|]. exists []. rewrite app_nil_r.
    split; [reflexivity | exact I].
Qed.

(** The loop over the decomposed members follows their plans. *)
Lemma enter_loop_spec (grs : list flag_member) (st : NoSuspendLinux_obj * World) :
  entering (concat (List.map (group_plan powerRelatedIfcs) grs)) st
    (snd (for_each grs (enter_group P powerRelatedIfcs) st))
    (fst (for_each grs (enter_group P powerRelatedIfcs) st)).
Proof.
  apply (for_each_ind entering (group_plan powerRelatedIfcs)
           (enter_group P powerRelatedIfcs) entering_nil
           (fun l1 l2 s0 s1 s2 r H1 H2 => entering_seq l1 l2 s0 s1 s2 r H1 H2)
           entering_fail (enter_group_spec P powerRelatedIfcs)).
Qed.

(** Why the loop over the decomposed members raises, on a scope that
    holds its dictionary: an acquisition has failed, or the loop has
    come to a member without a name. *)
Lemma enter_loop_cause (grs : list flag_member) :
  forall (st st' : NoSuspendLinux_obj * World) (err : exn),
    (exists d, cookies (fst st) = DefaultDict d) ->
    for_each grs (enter_group P powerRelatedIfcs) st = (inl err, st') ->
    (exists pre e a rs,
       calls (snd st') = calls (snd st) ++ pre ++ [InhibitCall e a rs (inl err)]) \/
    (err = TypeError /\
     exists before gr after,
       grs = before ++ gr :: after /\ fst gr = None /\
       for_each before (enter_group P powerRelatedIfcs) st = (inr tt, st')).
Proof.
  induction grs as [|gr grs IH]; intros st st' err Hd Hrun; [discriminate|].
  cbn [for_each] in Hrun. unfold bind in Hrun.
  destruct (fst gr) as [grNm|] eqn:Hname.
  - pose proof (enter_group_fails_by_call gr grNm st Hname Hd) as (Hd1 & new1 & Hc1 & Hfail).
    destruct (enter_group P powerRelatedIfcs gr st) as [[err1|[]] st1] eqn:Hgr;
      cbn [fst snd] in *.
    + injection Hrun as <- <-. left. destruct Hfail as (pre & e & a & rs & ->).
      exists pre, e, a, rs. exact Hc1.
    + destruct (IH st1 st' err Hd1 Hrun)
        as [(pre & e & a & rs & Hcall) | (Herr & before & g & after & Hg & Hg' & Hb)].
      * left. exists (new1 ++ pre), e, a, rs. rewrite Hcall, Hc1, <- !app_assoc. reflexivity.
      * right. split; [exact Herr|]. exists (gr :: before), g, after.
        split; [rewrite Hg; reflexivity|]. split; [exact Hg'|].
        cbn [for_each]. unfold bind. rewrite Hgr. exact Hb.
  - unfold enter_group in Hrun. rewrite Hname in Hrun. cbn in Hrun.
    injection Hrun as <- <-. right. split; [reflexivity|].
    exists [], gr, grs. repeat split. exact Hname.
Qed.

(** The loop returns only if every member has a name. *)
Lemma enter_loop_named (grs : list flag_member) :
  forall (st st' : NoSuspendLinux_obj * World),
    for_each grs (enter_group P powerRelatedIfcs) st = (inr tt, st') ->
    Forall (fun gr => fst gr <> None) grs.
Proof.
  induction grs as [|gr grs IH]; intros st st' Hrun; [constructor|].
  cbn [for_each] in Hrun. unfold bind in Hrun.
  destruct (enter_group P powerRelatedIfcs gr st) as [[err|[]] st1] eqn:Hgr; [discriminate|].
  constructor; [|exact (IH st1 st' Hrun)].
  intros Hnone. unfold enter_group in Hgr. rewrite Hnone in Hgr. discriminate.
Qed.

(** C2 (as the code has it): on a scope that holds its dictionary (one
    that has not been exited), [__enter__] tries the endpoints in the
    order of its plan and catches nothing: the new calls are successful
    acquisitions, followed by at most one failed acquisition, which is
    then the last call made and whose error leaves [__enter__]; the
    endpoints after it are not tried.  The only other error is the
    [TypeError] of a decomposed member without a name (a bit no member
    of the enumeration names), raised once the endpoints of the members
    before it have been acquired on: so [__enter__] returns when every
    member has a name and no acquisition fails, and only then.  Every cookie obtained
    is recorded in the dictionary of the scope, also when [__enter__]
    raises.  The [__exit__] that follows attempts releases on recorded
    pairs only, in the order they are held; when it returns it has
    attempted exactly the recorded pairs, once each; when it raises, a
    release has failed or has not found its cookie in the set of its
    inhibitor; and it returns when no release call fails,
    provided the scope was entered with every held cookie in the set of
    its inhibitor and holds no pair twice. *)
Theorem C2_acquire_failure_propagates
    (s : NoSuspendLinux_obj) (w : World) (d : list (string * list (Endpoint * Cookie)))
    (Hd : cookies s = DefaultDict d) :
  let run := NoSuspendLinux_enter P powerRelatedIfcs ns (s, w) in
  let exited := NoSuspendLinux_exit P (snd run) in
  let grs := fst (_enumDecompose (SuspendInhibitionState ns) (flag (linux_base s))) in
  let plan := enter_plan powerRelatedIfcs ns (flag (linux_base s)) in
  exists new,
    calls (snd (snd run)) = calls w ++ new /\
    released new = [] /\
    tried new `prefix_of` plan_endpoints plan /\
    (exists d', cookies (fst (snd run)) = DefaultDict d' /\
                held (DefaultDict d') ≡ₚ held (cookies s) ++ acquired new) /\
    match fst run with
    | inr _ => Forall acquire_ok new /\ tried new = plan_endpoints plan /\
               Forall (fun gr => fst gr <> None) grs
    | inl err =>
        (exists pre e a rs, new = pre ++ [InhibitCall e a rs (inl err)] /\
                            Forall acquire_ok pre) \/
        (err = TypeError /\ Forall acquire_ok new /\
         exists before gr after,
           grs = before ++ gr :: after /\ fst gr = None /\
           tried new
           = plan_endpoints (concat (List.map (group_plan powerRelatedIfcs) before)))
    end /\
    (Forall (fun gr => fst gr <> None) grs -> Forall acquire_ok new ->
     exists v, fst run = inr v) /\
    exists new2,
      calls (snd (snd exited)) = calls (snd (snd run)) ++ new2 /\
      acquired new2 = [] /\
      released new2 `prefix_of` held (cookies (fst (snd run))) /\
      match fst exited with
      | inr _ => released new2 ≡ₚ held (cookies s) ++ acquired new
      | inl err2 =>
          exists pre e ck res, new2 = pre ++ [UnInhibitCall e ck res] /\
                               Forall release_ok pre /\
                               (res = inl err2 \/
                                (res = inr tt /\ err2 = KeyError /\
                                 ck ∉ cookies_of e (snd (snd run)) ∖ removed_from e pre))
      end /\
      (known (s, w) -> NoDup (held (cookies (fst (snd run)))) ->
       Forall release_ok new2 -> fst exited = inr tt).
Proof.
  cbn zeta.
  destruct (enter_spec P powerRelatedIfcs ns s w) as [Hent _].
  destruct Hent as (_ & _ & _ & new & ws & Hc & _ & Hrel & Hp & _ & Hdict & Hres).
  cbn [fst snd] in Hc, Hdict.
  destruct (Hdict d Hd) as (d' & Hd' & Hperm).
  pose proof (enter_known P powerRelatedIfcs ns (s, w)) as Hknown.
  pose proof (enter_unfold P powerRelatedIfcs ns s w) as Hunf.
  pose proof (enter_loop_cause
                (fst (_enumDecompose (SuspendInhibitionState ns) (flag (linux_base s))))
                (s, w)) as Hcause.
  destruct (for_each (fst (_enumDecompose (SuspendInhibitionState ns) (flag (linux_base s))))
              (enter_group P powerRelatedIfcs) (s, w)) as [[lerr|[]] lst] eqn:Hloop.
  - (* the loop raised *)
    rewrite Hunf in *. cbn [fst snd] in *.
    assert (Hwhy :
      (exists pre e a rs, new = pre ++ [InhibitCall e a rs (inl lerr)] /\
                          Forall acquire_ok pre) \/
      (lerr = TypeError /\ Forall acquire_ok new /\
       exists before gr after,
         fst (_enumDecompose (SuspendInhibitionState ns) (flag (linux_base s)))
         = before ++ gr :: after /\ fst gr = None /\
         tried new
         = plan_endpoints (concat (List.map (group_plan powerRelatedIfcs) before)))).
    { destruct (Hcause lst lerr (ex_intro _ d Hd) eq_refl)
        as [(pre & e & a & rs & Hlast) | (-> & before & gr & after & Hgrs & Hnone & Hb)].
      - left. destruct Hres as [Hfailed | (Hok & _)]; [exact Hfailed|].
        exfalso. cbn [fst snd] in Hlast. rewrite Hc in Hlast.
        apply app_inv_head in Hlast. subst new.
        apply Forall_app in Hok. destruct Hok as [_ Hok].
        apply Forall_cons in Hok. destruct Hok as [Hok _]. exact Hok.
      - right. split; [reflexivity|].
        pose proof (enter_loop_spec before (s, w)) as Hspec. rewrite Hb in Hspec.
        destruct Hspec as (_ & _ & _ & new' & ws' & Hc' & _ & _ & _ & _ & _ & Hok' & Ht' & _).
        cbn [fst snd] in Hc'. rewrite Hc in Hc'. apply app_inv_head in Hc'. subst new'.
        split; [exact Hok'|]. exists before, gr, after.
        split; [exact Hgrs|]. split; [exact Hnone | exact Ht']. }
    exists new. split; [exact Hc|]. split; [exact Hrel|]. split; [exact Hp|].
    split; [exists d'; rewrite Hd; split; assumption|].
    split; [exact Hwhy|]. split.
    + intros Hnamed Hok. exfalso.
      destruct Hwhy as [(pre & e & a & rs & -> & _) | (_ & _ & before & gr & after & Hgrs & Hnone & _)].
      * apply Forall_app in Hok. destruct Hok as [_ Hok].
        apply Forall_cons in Hok. destruct Hok as [Hok _]. exact Hok.
      * rewrite Hgrs in Hnamed. apply Forall_app in Hnamed. destruct Hnamed as [_ Hnamed].
        apply Forall_cons in Hnamed. destruct Hnamed as [Hnamed _]. exact (Hnamed Hnone).
    + destruct lst as [s1 w1]. cbn [fst snd] in *.
      destruct (exit_account P s1 w1 d' Hd') as (new2 & Hc2 & Ha2 & Hp2 & _ & Hr2 & Hret).
      cbn zeta in Hc2, Hp2, Hr2, Hret.
      exists new2. split; [exact Hc2|]. split; [exact Ha2|]. split; [exact Hp2|].
      split.
      * destruct (fst (NoSuspendLinux_exit P (s1, w1))) as [err2|u].
        -- destruct Hr2 as (_ & pre & e & ck & res & Hnew2 & Hpre & _ & Hres2).
           exists pre, e, ck, res. split; [exact Hnew2|]. split; [exact Hpre|].
           exact Hres2.
        -- destruct Hr2 as (-> & _). rewrite Hd', Hd. exact Hperm.
      * intros Hk. apply Hret. apply Hknown. exact Hk.
  - (* the loop returned *)
    rewrite Hunf in *. cbn [fst snd] in *.
    exists new. split; [exact Hc|]. split; [exact Hrel|]. split; [exact Hp|].
    split; [exists d'; rewrite Hd; split; assumption|].
    destruct Hres as (Hok & Ht & _).
    split; [split; [exact Hok|]; split; [exact Ht|]; exact (enter_loop_named _ _ _ Hloop)|].
    split; [intros _ _; eexists; reflexivity|].
    destruct lst as [s1 w1]. cbn [fst snd] in *.
    destruct (exit_account P s1 w1 d' Hd') as (new2 & Hc2 & Ha2 & Hp2 & _ & Hr2 & Hret).
    cbn zeta in Hc2, Hp2, Hr2, Hret.
    exists new2. split; [exact Hc2|]. split; [exact Ha2|]. split; [exact Hp2|].
    split.
    + destruct (fst (NoSuspendLinux_exit P (s1, w1))) as [err2|u].
      * destruct Hr2 as (_ & pre & e & ck & res & Hnew2 & Hpre & _ & Hres2).
        exists pre, e, ck, res. split; [exact Hnew2|]. split; [exact Hpre|].
        exact Hres2.
      * destruct Hr2 as (-> & _). rewrite Hd', Hd. exact Hperm.
    + intros Hk. apply Hret. apply Hknown. exact Hk.
Qed.

End AcquisitionFailures.

Lemma C2_acquire_failure_propagates_witness :
  exists new,
    calls (snd (snd (NoSuspendLinux_enter (acquire_raises_on 1%nat) two_suspend_endpoints
                       no_namespace (linux_scope true false, fresh_world))))
    = calls fresh_world ++ new /\ released new = [].
Proof.
  destruct (C2_acquire_failure_propagates (acquire_raises_on 1%nat) two_suspend_endpoints
              no_namespace (linux_scope true false) fresh_world [] eq_refl)
    as (new & Hc & Hrel & _).
  exists new. split; [exact Hc | exact Hrel].
Defined.

(** C2 fails as stated: when the first endpoint answers and the second
    raises, [__enter__] does not complete but raises the error of the
    second; and when the first raises, the second, which would answer, is
    never asked. *)
Lemma C2_counterexample :
  let run := NoSuspendLinux_enter (acquire_raises_on 1%nat) two_suspend_endpoints no_namespace
               (linux_scope true false, fresh_world) in
  let run' := NoSuspendLinux_enter (acquire_raises_on 0%nat) two_suspend_endpoints no_namespace
                (linux_scope true false, fresh_world) in
  fst run = inl (EndpointError 1) /\
  acquired (calls (snd (snd run))) = [(0%nat, 7)] /\
  fst run' = inl (EndpointError 1) /\
  tried (calls (snd (snd run'))) = [0%nat] /\
  acquired (calls (snd (snd run'))) = [] /\
  inhibit_result (acquire_raises_on 0%nat) 1%nat "Python NoSuspend" "NoSuspend was called"
    (calls (snd (snd run'))) = inr 8.
Proof. vm_compute. repeat split. Qed.

(** A scope that has been exited holds a list, not its dictionary:
    entered again, it acquires on the first endpoint, fails to record
    the cookie and raises [TypeError]; the inhibitor keeps the cookie,
    the scope holds nothing. *)
Example enter_on_exited_scope :
  let run := NoSuspendLinux_enter all_answer two_suspend_endpoints no_namespace
               (set_cookies EmptyList (linux_scope true false), fresh_world) in
  fst run = inl TypeError /\
  acquired (calls (snd (snd run))) = [(0%nat, 7)] /\
  cookies (fst (snd run)) = EmptyList /\
  elements (cookies_of 0%nat (snd (snd run))) = [7].
Proof. vm_compute. repeat split. Qed.

Lemma C6_exit_release_failure_propagates_witness :
  exists new,
    calls (snd (snd (NoSuspendLinux_exit (release_raises_on 0%nat)
                       (snd (NoSuspendLinux_enter (release_raises_on 0%nat)
                               two_suspend_endpoints no_namespace
                               (linux_scope true false, fresh_world))))))
    = [InhibitCall 0%nat "Python NoSuspend" "NoSuspend was called" (inr 7);
       InhibitCall 1%nat "Python NoSuspend" "NoSuspend was called" (inr 8)] ++ new /\
    released new `prefix_of` [(0%nat, 7); (1%nat, 8)].
Proof.
  destruct (C6_exit_release_failure_propagates (release_raises_on 0%nat)
              (fst (snd (NoSuspendLinux_enter (release_raises_on 0%nat)
                           two_suspend_endpoints no_namespace
                           (linux_scope true false, fresh_world))))
              (snd (snd (NoSuspendLinux_enter (release_raises_on 0%nat)
                           two_suspend_endpoints no_namespace
                           (linux_scope true false, fresh_world))))
              [("suspend"%string, [(0%nat, 7); (1%nat, 8)])] eq_refl)
    as (new & Hc & _ & Hp & _).
  exists new. split; [exact Hc | exact Hp].
Defined.

(** C6 fails as stated: with two pairs held and the release of the first
    raising, [__exit__] raises that error, the second pair gets no
    release attempt, and the scope still holds both. *)
Lemma C6_counterexample :
  let entered := snd (NoSuspendLinux_enter (release_raises_on 0%nat) two_suspend_endpoints
                        no_namespace (linux_scope true false, fresh_world)) in
  let run := NoSuspendLinux_exit (release_raises_on 0%nat) entered in
  held (cookies (fst entered)) = [(0%nat, 7); (1%nat, 8)] /\
  fst run = inl (EndpointError 2) /\
  released (calls (snd (snd run))) = [(0%nat, 7)] /\
  held (cookies (fst (snd run))) = [(0%nat, 7); (1%nat, 8)].
Proof. vm_compute. repeat split. Qed.

(** *** Discovery *)

Lemma fold_left_invariant {A B} (f : A -> B -> A) (I : A -> Prop) (l : list B) :
  (forall a b, In b l -> I a -> I (f a b)) ->
  forall a, I a -> I (fold_left f l a).
Proof.
  induction l as [|b l IH]; intros Hstep a Ha; [exact Ha|].
  simpl. apply IH.
  - intros a' b' Hin. apply Hstep. right. exact Hin.
  - apply Hstep; [left; reflexivity | exact Ha].
Qed.

Lemma dict_set_in {A} (k k' : string) (v v' : A) (d : list (string * A)) :
  In (k', v') (dict_set k v d) -> v' = v \/ In (k', v') d.
Proof.
  induction d as [|[k0 v0] d IH]; simpl.
  - intros [H | []]. inversion H. left. reflexivity.
  - destruct (String.eqb k k0).
    + intros [H | H]; [inversion H; left; reflexivity | right; right; exact H].
    + intros [H | H]; [right; left; exact H|].
      destruct (IH H) as [-> | Hin]; [left; reflexivity | right; right; exact Hin].
Qed.

Lemma dict_set_key {A} (k k' : string) (v v' : A) (d : list (string * A)) :
  In (k', v') (dict_set k v d) -> (k' = k /\ v' = v) \/ In (k', v') d.
Proof.
  induction d as [|[k0 v0] d IH]; simpl.
  - intros [H | []]. inversion H. left. split; reflexivity.
  - destruct (String.eqb_spec k k0) as [->|Hne].
    + intros [H | H]; [inversion H; left; split; reflexivity | right; right; exact H].
    + intros [H | H]; [right; left; exact H|].
      destruct (IH H) as [Heq | Hin]; [left; exact Heq | right; right; exact Hin].
Qed.

Lemma dict_set_nonempty {A} (k : string) (v : A) (d : list (string * A)) :
  dict_set k v d <> [].
Proof. destruct d as [|[k0 v0] d]; simpl; [discriminate|]. destruct (String.eqb k k0); discriminate. Qed.

Section Discovery.

Variable env : DBusEnv.

(** The loops over one desktop add only answered entries. *)
Lemma discover_app_sound (buses : list bus_kind)
    (apps : list (app_key * list (string * Inhibitor))) (st : discovery_state) :
  (forall name i, In (name, i) (fst st) -> answered env buses apps name i) ->
  forall name i,
    In (name, i) (fst (fold_left (discover_app env buses) apps st)) ->
    answered env buses apps name i.
Proof.
  intros H0.
  apply (fold_left_invariant (discover_app env buses)
           (fun st => forall name i, In (name, i) (fst st) -> answered env buses apps name i));
    [|exact H0].
  intros st1 [key paths] Happ Hst1. unfold discover_app. cbn [fst snd].
  apply (fold_left_invariant (discover_path env buses key)
           (fun st => forall name i, In (name, i) (fst st) -> answered env buses apps name i));
    [|exact Hst1].
  intros st2 [path inh] Hpath Hst2. unfold discover_path. cbn [fst snd].
  destruct (find_proxy env buses (aliases_of key) path) as [proxy|] eqn:Hfind; [|exact Hst2].
  cbn [fst]. intros name i Hin. apply dict_set_key in Hin.
  destruct Hin as [[-> ->] | Hin]; [|apply Hst2; exact Hin].
  exists key, paths, path, proxy. repeat split; assumption.
Qed.

(** What [obtainDbusInterfaces] returns, by cases on the constructors of
    the buses. *)
Lemma obtainDbusInterfaces_spec (cfg : group_config) (ifcs : Ifcs) :
  match obtainDbusInterfaces env cfg ifcs with
  | (inr found, _) =>
      bus_ctor env SystemBus = None /\ bus_ctor env SessionBus = None /\
      sound_discovery env cfg found
  | (inl err, ifcs') =>
      ifcs' = ifcs /\
      (bus_ctor env SystemBus = Some err \/
       (bus_ctor env SystemBus = None /\ bus_ctor env SessionBus = Some err))
  end.
Proof.
  unfold obtainDbusInterfaces, construct_buses, bind.
  destruct (bus_ctor env SystemBus) as [e1|]; [cbn; auto|].
  destruct (bus_ctor env SessionBus) as [e2|]; [cbn; auto|].
  cbn [ret raise]. split; [reflexivity|]. split; [reflexivity|].
  cbn [fst].
  apply (fold_left_invariant (discover_de env [SystemBus; SessionBus])
           (fun st => sound_discovery env cfg (fst st))).
  - intros st [de apps] Hde Hst. unfold discover_de. cbn [fst snd].
    destruct (fst (fold_left (discover_app env [SystemBus; SessionBus]) apps ([], snd st)))
      as [|x deRes] eqn:HdeRes; cbn [fst]; [exact Hst|].
    intros de' deRes' Hin. apply dict_set_key in Hin.
    destruct Hin as [[-> ->] | Hin]; [|apply Hst; exact Hin].
    split; [discriminate|]. exists apps. split; [exact Hde|].
    intros name i Hin. rewrite <- HdeRes in Hin.
    revert name i Hin. apply discover_app_sound. intros name i [].
  - intros de deRes [].
Qed.

(** X9: what [obtainDbusInterfaces] returns.  It raises only when the
    constructor of a bus raises, and then no inhibitor object has been
    touched.  Otherwise no desktop of the result is empty, and every
    entry of a desktop is an inhibitor configured for that desktop,
    filed under the last segment of a proxy path on which one of its
    aliases answered on the system or the session bus. *)
Theorem X9_obtainDbusInterfaces_sound (cfg : group_config) (ifcs : Ifcs) :
  match obtainDbusInterfaces env cfg ifcs with
  | (inr found, _) =>
      bus_ctor env SystemBus = None /\ bus_ctor env SessionBus = None /\
      sound_discovery env cfg found
  | (inl err, ifcs') =>
      ifcs' = ifcs /\
      (bus_ctor env SystemBus = Some err \/
       (bus_ctor env SystemBus = None /\ bus_ctor env SessionBus = Some err))
  end.
Proof. apply obtainDbusInterfaces_spec. Qed.

(** Where nothing answers, nothing is found and nothing is touched. *)
Lemma find_proxy_silent (buses : list bus_kind) (aliases : list string) (path : string) :
  (forall bus app p, get_object_ok env bus app p = false) ->
  find_proxy env buses aliases path = None.
Proof.
  intros Hsilent.
  assert (Hbus : forall a, first_bus env buses a path = None).
  { intros a. induction buses as [|b bs IHb]; [reflexivity|].
    simpl. rewrite Hsilent. exact IHb. }
  induction aliases as [|a rest IH]; [reflexivity|].
  simpl. rewrite Hbus. exact IH.
Qed.

Lemma obtain_silent (cfg : group_config) (ifcs : Ifcs) :
  (forall bus app p, get_object_ok env bus app p = false) ->
  bus_ctor env SystemBus = None -> bus_ctor env SessionBus = None ->
  obtainDbusInterfaces env cfg ifcs = (inr [], ifcs).
Proof.
  intros Hsilent Hsys Hses.
  unfold obtainDbusInterfaces, construct_buses, bind. rewrite Hsys, Hses. cbn [ret].
  assert (H : fold_left (discover_de env [SystemBus; SessionBus]) cfg ([], ifcs) = ([], ifcs)).
  { apply (fold_left_invariant (discover_de env [SystemBus; SessionBus])
             (fun st => st = ([], ifcs))); [|reflexivity].
    intros st [de apps] _ ->. unfold discover_de. cbn [fst snd].
    assert (Happs : fold_left (discover_app env [SystemBus; SessionBus]) apps ([], ifcs)
                    = ([], ifcs)).
    { apply (fold_left_invariant (discover_app env [SystemBus; SessionBus])
               (fun st => st = ([], ifcs))); [|reflexivity].
      intros st [key paths] _ ->. unfold discover_app. cbn [fst snd].
      apply (fold_left_invariant (discover_path env [SystemBus; SessionBus] key)
               (fun st => st = ([], ifcs))); [|reflexivity].
      intros st [path inh] _ ->. unfold discover_path. cbn [fst snd].
      rewrite find_proxy_silent by exact Hsilent. reflexivity. }
    rewrite Happs. reflexivity. }
  rewrite H. reflexivity.
Qed.

End Discovery.

(** *** From discovery to the scope *)

Lemma decompose_constructed (ns : string -> option pyattr) (suspend display : bool) :
  fst (_enumDecompose (SuspendInhibitionState ns) (flag (linux_base (linux_scope suspend display))))
  = constructed_members suspend display.
Proof. destruct suspend, display; reflexivity. Qed.

(** The comprehension keeps the keys of the table and, key by key, what
    [obtainDbusInterfaces] found for the group. *)
Lemma obtain_all_spec (env : DBusEnv) (table : list (string * group_config)) :
  forall ifcs T ifcs',
    obtain_all env table ifcs = (inr T, ifcs') ->
    Forall2 (fun t g => fst t = fst g /\ sound_discovery env (snd g) (snd t)) T table.
Proof.
  induction table as [|[k group] rest IH]; intros ifcs T ifcs'; simpl.
  - intros H. inversion H. constructor.
  - unfold bind at 1.
    pose proof (obtainDbusInterfaces_spec env group ifcs) as Hg.
    destruct (obtainDbusInterfaces env group ifcs) as [[err|found] ifcs1]; [discriminate|].
    unfold bind at 1.
    destruct (obtain_all env rest ifcs1) as [[err|others] ifcs2] eqn:Hrest; [discriminate|].
    intros H. inversion H; subst. constructor.
    + split; [reflexivity|]. cbn [snd]. tauto.
    + eapply IH. exact Hrest.
Qed.

Lemma sound_configured (env : DBusEnv) (cfg : group_config)
    (found : list (string * list (string * Inhibitor))) :
  sound_discovery env cfg found ->
  forall e, In e (group_endpoints
                    (List.map (fun de => (fst de,
                                List.map (fun i => (fst i, inhibitor_id (snd i))) (snd de)))
                       found)) ->
  In e (List.map (fun pi => inhibitor_id (snd pi)) (configured cfg)).
Proof.
  intros Hsound e. unfold group_endpoints.
  rewrite in_concat. intros (l & Hl & He).
  apply in_map_iff in Hl. destruct Hl as ([de deRes'] & <- & Hde). cbn [snd] in He.
  apply in_map_iff in Hde. destruct Hde as ([de0 deRes] & Heq & Hde).
  cbn [fst snd] in Heq. injection Heq as _ <-.
  apply in_map_iff in He. destruct He as ([name e'] & <- & He). cbn [snd].
  apply in_map_iff in He. destruct He as ([name0 i] & Heq & Hi).
  cbn [fst snd] in Heq. injection Heq as _ <-.
  destruct (Hsound de0 deRes Hde) as (_ & apps & Happs & Hans).
  destruct (Hans name0 i Hi) as (key & paths & path & proxy & Hkey & Hpath & _ & _).
  apply in_map_iff. exists (path, i). split; [reflexivity|].
  unfold configured. apply in_concat. exists (concat (List.map snd apps)).
  split.
  - apply in_map_iff. exists (de0, apps). split; [reflexivity | exact Happs].
  - apply in_concat. exists paths. split; [|exact Hpath].
    apply in_map_iff. exists (key, paths). split; [reflexivity | exact Hkey].
Qed.

(** The shape of the module-level table, whatever was discovered: the
    two keys of [dbusPowerRelatedInterfaces], and under [suspend] only
    inhibitors configured for [suspend]. *)
Lemma powerRelatedIfcs_shape (env : DBusEnv) (ifcs ifcs' : Ifcs)
    (T : list (string * list (string * list (string * Inhibitor)))) :
  powerRelatedIfcs_of env ifcs = (inr T, ifcs') ->
  exists S C,
    T = [("suspend"%string, S); ("screensaver"%string, C)] /\
    forall e, In e (group_endpoints
                      (List.map (fun de => (fst de,
                                  List.map (fun i => (fst i, inhibitor_id (snd i))) (snd de)))
                         S)) ->
              In e [0; 1; 2; 3; 4; 5]%nat.
Proof.
  intros Hload. apply obtain_all_spec in Hload.
  unfold dbusPowerRelatedInterfaces in Hload.
  inversion Hload as [|[k1 S] g1 T1 t1 [Hk1 Hs1] Hrest]; subst.
  inversion Hrest as [|[k2 C] g2 T2 t2 [Hk2 Hs2] Hnil]; subst.
  inversion Hnil; subst. cbn [fst snd] in *. subst k1 k2.
  exists S, C. split; [reflexivity|].
  intros e He. apply (sound_configured env _ S Hs1) in He. exact He.
Qed.

(** The plan of a constructed scope over such a table. *)
Lemma constructed_plan (ns : string -> option pyattr)
    (S C : list (string * list (string * Endpoint))) (suspend display : bool) :
  enter_plan [("suspend"%string, S); ("screensaver"%string, C)] ns
    (flag (linux_base (linux_scope suspend display)))
  = (if display then [inr (not_set_message "display")] else [])
    ++ (if suspend then List.map inl (group_endpoints S) else [])
    ++ (if negb suspend && negb display then [inr (not_set_message "none")] else []).
Proof.
  unfold enter_plan. rewrite decompose_constructed.
  destruct suspend, display; cbn [constructed_members negb andb app List.map concat
    group_plan fst assoc String.eqb Ascii.eqb Bool.eqb]; rewrite ?app_nil_r; reflexivity.
Qed.

Lemma plan_endpoints_inl (l : list Endpoint) :
  plan_endpoints (List.map inl l) = l.
Proof. induction l as [|e l IH]; simpl; [reflexivity|]. f_equal. exact IH. Qed.

Lemma plan_warnings_inl (l : list Endpoint) :
  plan_warnings (List.map (@inl Endpoint string) l) = [].
Proof. induction l as [|e l IH]; simpl; [reflexivity|]. exact IH. Qed.

Lemma constructed_plan_endpoints (ns : string -> option pyattr)
    (S C : list (string * list (string * Endpoint))) (suspend display : bool) :
  plan_endpoints (enter_plan [("suspend"%string, S); ("screensaver"%string, C)] ns
                    (flag (linux_base (linux_scope suspend display))))
  = if suspend then group_endpoints S else [].
Proof.
  rewrite constructed_plan, !plan_endpoints_app.
  destruct suspend, display; cbn [negb andb]; rewrite ?plan_endpoints_inl;
    cbn [plan_endpoints omap]; rewrite ?app_nil_r; reflexivity.
Qed.

(** X10: on a D-Bus where no name answers, discovery finds nothing and
    touches no inhibitor, yet the table keeps both its keys; a scope
    that asks for [suspend] is then entered without a call and without a
    warning: nothing is inhibited and nothing says so. *)
Theorem X10_nothing_discovered_is_silent (env : DBusEnv) (ifcs : Ifcs)
    (P : Platform) (ns : string -> option pyattr) (w : World)
    (Hsilent : forall bus app p, get_object_ok env bus app p = false)
    (Hsystem : bus_ctor env SystemBus = None)
    (Hsession : bus_ctor env SessionBus = None) :
  powerRelatedIfcs_of env ifcs
  = (inr [("suspend"%string, []); ("screensaver"%string, [])], ifcs) /\
  NoSuspendLinux_enter P
    (endpoints_of_table [("suspend"%string, []); ("screensaver"%string, [])]) ns
    (linux_scope true false, w)
  = (inr 1, (linux_scope true false, w)).
Proof.
  split; [|reflexivity].
  unfold powerRelatedIfcs_of, dbusPowerRelatedInterfaces. cbn [obtain_all].
  unfold bind. rewrite !obtain_silent by assumption. reflexivity.
Qed.

Lemma X10_nothing_discovered_is_silent_witness :
  powerRelatedIfcs_of silent_bus ∅
  = (inr [("suspend"%string, []); ("screensaver"%string, [])], ∅).
Proof.
  exact (proj1 (X10_nothing_discovered_is_silent silent_bus ∅ all_answer no_namespace
                  fresh_world (fun _ _ _ => eq_refl) eq_refl eq_refl)).
Defined.

(** X11: whatever the buses answer, the module-level table has exactly
    the keys [suspend] and [screensaver].  A scope built from the
    boolean parameters therefore never calls an inhibitor of the
    [screensaver] group: the endpoints it tries are inhibitors
    configured for [suspend] (positions 0 to 5 of the table), none at
    all unless [suspend] is asked for, and asking for [display] only
    yields the "not set" warning. *)
Theorem X11_display_is_never_inhibited (env : DBusEnv) (ifcs ifcs' : Ifcs)
    (T : list (string * list (string * list (string * Inhibitor))))
    (P : Platform) (ns : string -> option pyattr) (suspend display : bool) (w : World)
    (Hload : powerRelatedIfcs_of env ifcs = (inr T, ifcs')) :
  let run := NoSuspendLinux_enter P (endpoints_of_table T) ns
               (linux_scope suspend display, w) in
  List.map fst T = ["suspend"%string; "screensaver"%string] /\
  (exists new,
     calls (snd (snd run)) = calls w ++ new /\
     Forall (fun e => e < 6)%nat (tried new) /\
     (suspend = false -> new = [])) /\
  (display = true -> forall v, fst run = inr v ->
   In (not_set_message "display") (warned (snd (snd run)))).
Proof.
  cbn zeta. destruct (powerRelatedIfcs_shape env ifcs ifcs' T Hload) as (S & C & -> & Hids).
  split; [reflexivity|].
  change (endpoints_of_table [("suspend"%string, S); ("screensaver"%string, C)])
    with [("suspend"%string,
           List.map (fun de => (fst de,
                       List.map (fun i => (fst i, inhibitor_id (snd i))) (snd de))) S);
          ("screensaver"%string,
           List.map (fun de => (fst de,
                       List.map (fun i => (fst i, inhibitor_id (snd i))) (snd de))) C)].
  match goal with
  | |- context [NoSuspendLinux_enter P ?T' ns _] =>
      destruct (enter_spec P T' ns (linux_scope suspend display) w) as [Hent _]
  end.
  destruct Hent as (_ & _ & _ & new & ws & Hc & Hw & Hrel & Hp & Hq & _ & Hres).
  cbn [fst snd] in Hc, Hw.
  rewrite constructed_plan_endpoints in Hp.
  split.
  - exists new. split; [exact Hc|]. split.
    + destruct Hp as [rest Hp]. apply Forall_forall. intros e He.
      destruct suspend; [|destruct (tried new); [inversion He | discriminate]].
      assert (Hin : In e (group_endpoints
                 (List.map (fun de => (fst de,
                    List.map (fun i => (fst i, inhibitor_id (snd i))) (snd de))) S))).
      { rewrite Hp. apply in_or_app. left. apply list_elem_of_In. exact He. }
      apply Hids in Hin. cbn in Hin. lia.
    + intros ->. destruct Hp as [rest Hp].
      destruct new as [|c new]; [reflexivity|]. exfalso.
      destruct c as [e a r res|e ck res].
      * cbn in Hp. discriminate.
      * cbn in Hrel. discriminate.
  - intros -> v Hv. rewrite Hv in Hres. destruct Hres as (_ & _ & ->).
    rewrite Hw. apply in_or_app. right.
    rewrite constructed_plan, !plan_warnings_app. cbn [plan_warnings omap].
    left. reflexivity.
Qed.

(** Discovery in the session of [freedesktop_session]. *)
Lemma freedesktop_loaded :
  powerRelatedIfcs_of freedesktop_session ∅ = (inr freedesktop_table, freedesktop_ifcs).
Proof. vm_compute. reflexivity. Qed.

Lemma X11_display_is_never_inhibited_witness :
  List.map fst freedesktop_table = ["suspend"%string; "screensaver"%string].
Proof.
  exact (proj1 (X11_display_is_never_inhibited freedesktop_session ∅ freedesktop_ifcs
                  freedesktop_table all_answer no_namespace true true fresh_world
                  freedesktop_loaded)).
Defined.

(** *** The inhibitor classes *)

Section Consistency.

Variable P : Platform.
Variable powerRelatedIfcs : list (string * list (string * list (string * Endpoint))).
Variable ns : string -> option pyattr.

Lemma for_each_consistent {A} (body : A -> M (NoSuspendLinux_obj * World) unit) (l : list A)
    (st : NoSuspendLinux_obj * World) :
  (forall x s, calls_consistently P [] s (snd (body x s)) (fst (body x s))) ->
  calls_consistently P [] st (snd (for_each l body st)) (fst (for_each l body st)).
Proof.
  intros Hbody.
  assert (H : calls_consistently P (concat (List.map (fun _ : A => []) l)) st
                (snd (for_each l body st)) (fst (for_each l body st))).
  { apply (for_each_ind (calls_consistently P) (fun _ : A => [])).
    - intros s. exists []. rewrite app_nil_r. split; [reflexivity | constructor].
    - intros l1 l2 s s1 s2 r (new1 & Hc1 & Hf1) (new2 & Hc2 & Hf2).
      exists (new1 ++ new2). rewrite Hc2, Hc1, app_assoc. split; [reflexivity|].
      apply Forall_app. split; assumption.
    - intros l1 l2 s s1 e H. exact H.
    - intros x s. apply Hbody. }
  exact H.
Qed.

Lemma enter_consistent (s : NoSuspendLinux_obj) (w : World) :
  exists new,
    calls (snd (snd (NoSuspendLinux_enter P powerRelatedIfcs ns (s, w)))) = calls w ++ new /\
    Forall (consistent P) new.
Proof.
  rewrite enter_unfold.
  assert (H : calls_consistently P [] (s, w)
                (snd (for_each (fst (_enumDecompose (SuspendInhibitionState ns)
                                       (flag (linux_base s))))
                        (enter_group P powerRelatedIfcs) (s, w)))
                (fst (for_each (fst (_enumDecompose (SuspendInhibitionState ns)
                                       (flag (linux_base s))))
                        (enter_group P powerRelatedIfcs) (s, w)))).
  { apply for_each_consistent. intros gr st. unfold enter_group.
    destruct (fst gr) as [grNm|].
    - destruct (assoc grNm powerRelatedIfcs) as [des|].
      + apply for_each_consistent. intros de st1. apply for_each_consistent.
        intros i [s2 w2]. rewrite acquire_endpoint_run.
        destruct (inhibit_run P (snd i) (appName s2) (reason s2) w2) as (_ & Hc & _).
        cbn zeta in Hc.
        assert (Hcons : consistent P
                  (InhibitCall (snd i) (appName s2) (reason s2)
                     (inhibit_result P (snd i) (appName s2) (reason s2) (calls w2)))).
        { exists (calls w2). reflexivity. }
        destruct (inhibit_result P (snd i) (appName s2) (reason s2) (calls w2)) as [err|ck];
          [|destruct (cookies s2)];
          (eexists; split; [exact Hc | constructor; [exact Hcons | constructor]]).
      + exists []. destruct st as [s1 w1]. cbn. rewrite app_nil_r.
        split; [reflexivity | constructor].
    - exists []. rewrite app_nil_r. split; [reflexivity | constructor]. }
  destruct (for_each _ _ (s, w)) as [[err|u] st']; exact H.
Qed.

End Consistency.

Lemma acquired_call (tr : list Call) (e : Endpoint) (ck : Cookie) :
  In (e, ck) (acquired tr) -> exists a r, In (InhibitCall e a r (inr ck)) tr.
Proof.
  induction tr as [|c tr IH]; [intros []|].
  destruct c as [e0 a0 r0 [err|ck0]|e0 ck0 res]; simpl.
  - intros H. destruct (IH H) as (a & r & Hin). exists a, r. right. exact Hin.
  - intros [H | H].
    + inversion H; subst. exists a0, r0. left. reflexivity.
    + destruct (IH H) as (a & r & Hin). exists a, r. right. exact Hin.
  - intros H. destruct (IH H) as (a & r & Hin). exists a, r. right. exact Hin.
Qed.

Lemma tried_call (tr : list Call) (e : Endpoint) :
  In e (tried tr) <-> exists a r res, In (InhibitCall e a r res) tr.
Proof.
  induction tr as [|c tr IH]; simpl.
  - split; [intros [] | intros (a & r & res & [])].
  - destruct c as [e0 a0 r0 res0|e0 ck0 res0]; simpl.
    + split.
      * intros [-> | H]; [exists a0, r0, res0; left; reflexivity|].
        apply IH in H. destruct H as (a & r & res & Hin). exists a, r, res. right. exact Hin.
      * intros (a & r & res & [H | H]); [inversion H; left; reflexivity|].
        right. apply IH. exists a, r, res. exact H.
    + rewrite IH. split.
      * intros (a & r & res & Hin). exists a, r, res. right. exact Hin.
      * intros (a & r & res & [H | H]); [discriminate|]. exists a, r, res. exact H.
Qed.

(** An inhibitor of an overriding class raises on every acquisition. *)
Lemma override_raises (NameError : string -> exn) (class_of : Endpoint -> inhibitor_class)
    (ifcs : Ifcs) dbus_inhibit dbus_uninhibit os_close (e : Endpoint) (a r : string)
    (tr : list Call) (ck : Cookie) :
  inhibit_result (class_platform NameError class_of ifcs dbus_inhibit dbus_uninhibit os_close)
    e a r tr = inr ck ->
  class_of e = DBusInhibitor.
Proof.
  cbn [inhibit_result class_platform]. unfold class_inhibitCall.
  destruct (class_of e); try discriminate; [reflexivity|].
  destruct (ifc_lookup ifcs e (INHIBIT_METHOD_NAME GnomeInhibitor)); discriminate.
Qed.

(** X12: on the endpoints as the inhibitor classes make them, the only
    inhibitor that can hand a cookie to a constructed scope is the one
    at position 0 (the freedesktop power manager): the KDE, systemd and
    GNOME inhibitors raise on every acquisition.  So when the scope asks
    for [suspend] and discovery found any inhibitor but that one for
    [suspend], [__enter__] raises. *)
Theorem X12_only_the_freedesktop_inhibitor_acquires
    (NameError : string -> exn) (class_of : Endpoint -> inhibitor_class)
    (dbus_inhibit : Proxy * string -> string -> string -> list Call -> exn + Cookie)
    (dbus_uninhibit : Proxy * string -> Cookie -> list Call -> exn + unit)
    (os_close : Cookie -> list Call -> exn + unit)
    (env : DBusEnv) (ifcs ifcs' : Ifcs)
    (T : list (string * list (string * list (string * Inhibitor))))
    (ns : string -> option pyattr) (suspend display : bool) (w : World)
    (Hclass : forall i, In i table_inhibitors ->
                class_of (inhibitor_id i) = inhibitor_class_of i)
    (Hload : powerRelatedIfcs_of env ifcs = (inr T, ifcs')) :
  let P := class_platform NameError class_of ifcs' dbus_inhibit dbus_uninhibit os_close in
  let run := NoSuspendLinux_enter P (endpoints_of_table T) ns
               (linux_scope suspend display, w) in
  (exists new,
     calls (snd (snd run)) = calls w ++ new /\
     Forall (fun p => fst p = 0%nat) (acquired new)) /\
  (suspend = true ->
   (exists S de deRes name i,
      In ("suspend"%string, S) T /\ In (de, deRes) S /\ In (name, i) deRes /\
      inhibitor_id i <> 0%nat) ->
   exists err, fst run = inl err).
Proof.
  cbn zeta.
  set (P := class_platform NameError class_of ifcs' dbus_inhibit dbus_uninhibit os_close).
  assert (Hother : forall e, In e [1; 2; 3; 4; 5]%nat -> class_of e <> DBusInhibitor).
  { assert (HF : Forall (fun i => class_of (inhibitor_id i) = inhibitor_class_of i)
                   table_inhibitors).
    { apply Forall_forall. intros i Hi. apply Hclass. apply list_elem_of_In. exact Hi. }
    cbn in HF.
    repeat (apply Forall_cons in HF; destruct HF as [? HF]).
    cbn [inhibitor_id inhibitor_class_of] in *.
    intros e He. cbn in He.
    destruct He as [<- | [<- | [<- | [<- | [<- | []]]]]]; congruence. }
  assert (Hzero : forall e a r tr ck, (e < 6)%nat ->
            inhibit_result P e a r tr = inr ck -> e = 0%nat).
  { intros e a r tr ck He Hres. apply override_raises in Hres.
    destruct (decide (e = 0%nat)) as [-> | Hne]; [reflexivity|]. exfalso.
    apply (Hother e); [|exact Hres]. cbn. lia. }
  pose proof (X11_shape := powerRelatedIfcs_shape env ifcs ifcs' T Hload).
  destruct X11_shape as (S & C & -> & Hids).
  change (endpoints_of_table [("suspend"%string, S); ("screensaver"%string, C)])
    with [("suspend"%string,
           List.map (fun de => (fst de,
                       List.map (fun i => (fst i, inhibitor_id (snd i))) (snd de))) S);
          ("screensaver"%string,
           List.map (fun de => (fst de,
                       List.map (fun i => (fst i, inhibitor_id (snd i))) (snd de))) C)].
  match goal with
  | |- context [NoSuspendLinux_enter P ?T' ns _] =>
      destruct (enter_spec P T' ns (linux_scope suspend display) w) as [Hent _];
      destruct (enter_consistent P T' ns (linux_scope suspend display) w)
        as (new' & Hc' & Hcons)
  end.
  destruct Hent as (_ & _ & _ & new & ws & Hc & _ & _ & Hp & _ & _ & Hres).
  cbn [fst snd] in Hc. rewrite Hc in Hc'. apply app_inv_head in Hc'. subst new'.
  rewrite constructed_plan_endpoints in Hp, Hres.
  assert (Hsmall : forall e, In e (tried new) -> (e < 6)%nat).
  { intros e He. destruct Hp as [rest Hp].
    destruct suspend; [|rewrite (proj1 (app_eq_nil _ _ (eq_sym Hp))) in He; inversion He].
    assert (Hin : In e (group_endpoints
               (List.map (fun de => (fst de,
                  List.map (fun i => (fst i, inhibitor_id (snd i))) (snd de))) S))).
    { rewrite Hp. apply in_or_app. left. exact He. }
    apply Hids in Hin. cbn in Hin. lia. }
  split.
  - exists new. split; [exact Hc|]. apply Forall_forall. intros [e ck] Hin.
    apply list_elem_of_In in Hin. apply acquired_call in Hin. destruct Hin as (a & r & Hin).
    assert (Htried : In e (tried new)) by (apply tried_call; eauto).
    rewrite Forall_forall in Hcons. apply list_elem_of_In in Hin.
    destruct (Hcons _ Hin) as (tr & Htr). cbn [fst].
    eapply Hzero; [apply Hsmall; exact Htried | symmetry; exact Htr].
  - intros -> (S' & de & deRes & name & i & HS & Hde & Hi & Hne).
    destruct HS as [HS | [HS | []]]; [|discriminate].
    injection HS as <-.
    destruct (fst (NoSuspendLinux_enter P _ ns (linux_scope true display, w)))
      as [err|v]; [exists err; reflexivity|]. exfalso.
    destruct Hres as (Hok & Ht & _).
    assert (Htried : In (inhibitor_id i) (tried new)).
    { rewrite Ht. unfold group_endpoints. apply in_concat.
      exists (List.map snd (List.map (fun i => (fst i, inhibitor_id (snd i))) deRes)).
      split.
      - apply in_map_iff.
        exists (de, List.map (fun i => (fst i, inhibitor_id (snd i))) deRes).
        split; [reflexivity|]. apply in_map_iff. exists (de, deRes). split; [reflexivity|exact Hde].
      - apply in_map_iff. exists (name, inhibitor_id i). split; [reflexivity|].
        apply in_map_iff. exists (name, i). split; [reflexivity | exact Hi]. }
    pose proof (Hsmall _ Htried) as Hlt.
    apply tried_call in Htried. destruct Htried as (a & r & res & Hin).
    rewrite Forall_forall in Hok, Hcons. apply list_elem_of_In in Hin.
    pose proof (Hok _ Hin) as Hacq. destruct (Hcons _ Hin) as (tr & Htr).
    destruct res as [err|ck]; [exact Hacq|].
    apply Hne. eapply Hzero; [exact Hlt | symmetry; exact Htr].
Qed.

Lemma table_class_agrees (i : Inhibitor) :
  In i table_inhibitors -> table_class (inhibitor_id i) = inhibitor_class_of i.
Proof.
  intros Hi. cbn in Hi.
  repeat (destruct Hi as [<- | Hi]; [reflexivity|]). contradiction.
Qed.

Lemma X12_only_the_freedesktop_inhibitor_acquires_witness :
  exists new,
    calls (snd (snd (NoSuspendLinux_enter
                       (class_platform (fun _ => EndpointError 0) table_class
                          freedesktop_ifcs
                          (fun _ _ _ _ => inr 7) (fun _ _ _ => inr tt) (fun _ _ => inr tt))
                       (endpoints_of_table freedesktop_table)
                       no_namespace (linux_scope true false, fresh_world))))
    = calls fresh_world ++ new /\
    Forall (fun p => fst p = 0%nat) (acquired new).
Proof.
  exact (proj1 (X12_only_the_freedesktop_inhibitor_acquires
                  (fun _ => EndpointError 0) table_class
                  (fun _ _ _ _ => inr 7) (fun _ _ _ => inr tt) (fun _ _ => inr tt)
                  freedesktop_session ∅ freedesktop_ifcs freedesktop_table
                  no_namespace true false fresh_world
                  table_class_agrees freedesktop_loaded)).
Defined.

(** On the session of [freedesktop_session] the power manager of
    freedesktop is asked, with the method discovery resolved. *)
Example class_platform_example :
  acquired (calls (snd (snd (NoSuspendLinux_enter
                               (class_platform (fun _ => EndpointError 0) table_class
                                  freedesktop_ifcs (fun _ _ _ _ => inr 7)
                                  (fun _ _ _ => inr tt) (fun _ _ => inr tt))
                               (endpoints_of_table freedesktop_table)
                               no_namespace (linux_scope true false, fresh_world)))))
  = [(0%nat, 7)].
Proof. vm_compute. reflexivity. Qed.

(** *** The module body *)

(** X13: the class the module binds to [NoSuspend].  Whenever the
    import succeeds, the class is the single-call scope, the Linux
    scope, or one of the two subclasses of [NoSuspendNotAvailable];
    never the dummy, the base class or the scope for Windows before
    Vista, whose branch either lacks [win32console] or raises
    [NameError].  The single-call scope is bound on Windows from Vista
    on with [ctypes], the not-implemented class on every platform that
    is neither [win32] nor [linux], and these only there.  The Linux
    scope comes with the table of both keys; when a bus constructor
    raises during discovery, the import succeeds only if the exception
    is an [ImportError], and binds the class for missing dependencies.
    The check the docstrings recommend, [issubclass(NoSuspend,
    NoSuspendNotAvailable)], holds exactly of the two unavailable
    classes. *)
Theorem X13_bound_class (h : Host) (m : Module) (Hload : import_module h = inr m) :
  let c := NoSuspend_binding m in
  In c [NoSuspendWinVistaPlus; NoSuspendLinux; NoSuspendNotImplemented;
        NoSuspendDependenciesAreMissing] /\
  (issubclass c NoSuspendNotAvailable = true <->
   c = NoSuspendNotImplemented \/ c = NoSuspendDependenciesAreMissing) /\
  (c = NoSuspendWinVistaPlus <->
   sys_platform h = "win32"%string /\ ctypes_importable h = true /\ 6 <= windows_major h) /\
  (sys_platform h = "win32"%string -> windows_major h < 6 ->
   c = NoSuspendDependenciesAreMissing) /\
  (c = NoSuspendNotImplemented <->
   sys_platform h <> "win32"%string /\ sys_platform h <> "linux"%string) /\
  (c = NoSuspendLinux ->
   sys_platform h = "linux"%string /\ dbus_importable h = true /\
   exists T ifcs,
     powerRelatedIfcs_binding m = Some (T, ifcs) /\
     powerRelatedIfcs_of (dbus h) ∅ = (inr T, ifcs) /\
     List.map fst T = ["suspend"%string; "screensaver"%string]) /\
  (sys_platform h = "linux"%string -> dbus_importable h = true ->
   forall e, fst (powerRelatedIfcs_of (dbus h) ∅) = inl e ->
     isinstance_ImportError h e = true /\ c = NoSuspendDependenciesAreMissing).
Proof.
  cbn zeta. unfold import_module, try_body in Hload.
  destruct (decompose_importable h); cbn [negb] in Hload; [|discriminate].
  assert (Hq : forall c, In c [NoSuspendWinVistaPlus; NoSuspendLinux; NoSuspendNotImplemented;
                               NoSuspendDependenciesAreMissing] ->
               (issubclass c NoSuspendNotAvailable = true <->
                c = NoSuspendNotImplemented \/ c = NoSuspendDependenciesAreMissing)).
  { intros c Hc. rewrite documented_query. split.
    - intros [-> | H]; [|exact H]. cbn in Hc. intuition discriminate.
    - intros H. right. exact H. }
  destruct (String.eqb_spec (sys_platform h) "win32") as [Hwin|Hnowin].
  - assert (Hnl : sys_platform h <> "linux"%string) by (rewrite Hwin; discriminate).
    destruct (ctypes_importable h) eqn:Hct; cbn [negb] in Hload.
    + destruct (Z.leb_spec 6 (windows_major h)) as [Hge|Hlt].
      * injection Hload as <-. cbn [NoSuspend_binding].
        split; [left; reflexivity|]. split; [apply Hq; left; reflexivity|].
        split; [split; [intros _; repeat split; assumption | reflexivity]|].
        split; [intros _ Hlt; lia|].
        split; [split; [discriminate | intros [H _]; contradiction]|].
        split; [discriminate | intros H; congruence].
      * destruct (win32console_importable h); cbn [negb caught_as_ImportError] in Hload;
          [discriminate|].
        injection Hload as <-. cbn [NoSuspend_binding].
        split; [do 3 right; left; reflexivity|].
        split; [apply Hq; do 3 right; left; reflexivity|].
        split; [split; [discriminate | intros (_ & _ & H); lia]|].
        split; [reflexivity|].
        split; [split; [discriminate | intros [H _]; contradiction]|].
        split; [discriminate | intros H; congruence].
    + cbn [caught_as_ImportError] in Hload. injection Hload as <-. cbn [NoSuspend_binding].
      split; [do 3 right; left; reflexivity|].
      split; [apply Hq; do 3 right; left; reflexivity|].
      split; [split; [discriminate | intros (_ & H & _); discriminate]|].
      split; [reflexivity|].
      split; [split; [discriminate | intros [H _]; contradiction]|].
      split; [discriminate | intros H; congruence].
  - destruct (String.eqb_spec (sys_platform h) "linux") as [Hlinux|Hnolinux].
    + destruct (dbus_importable h) eqn:Hdb; cbn [negb] in Hload.
      * destruct (powerRelatedIfcs_of (dbus h) ∅) as [[e|T] ifcs] eqn:Hdisc.
        -- cbn [caught_as_ImportError] in Hload.
           destruct (isinstance_ImportError h e) eqn:Hie; [|discriminate].
           injection Hload as <-. cbn [NoSuspend_binding].
           split; [do 3 right; left; reflexivity|].
           split; [apply Hq; do 3 right; left; reflexivity|].
           split; [split; [discriminate | intros (H & _); contradiction]|].
           split; [intros Hw; contradiction|].
           split; [split; [discriminate | intros [_ H]; contradiction]|].
           split; [discriminate|].
           intros _ _ e' He'. cbn [fst] in He'. injection He' as <-.
           split; [exact Hie | reflexivity].
        -- injection Hload as <-. cbn [NoSuspend_binding powerRelatedIfcs_binding].
           split; [right; left; reflexivity|].
           split; [apply Hq; right; left; reflexivity|].
           split; [split; [discriminate | intros (H & _); contradiction]|].
           split; [intros Hw; contradiction|].
           split; [split; [discriminate | intros [_ H]; contradiction]|].
           split; [|intros _ _ e' He'; discriminate].
           intros _. split; [exact Hlinux|]. split; [reflexivity|]. exists T, ifcs.
           split; [reflexivity|]. split; [reflexivity|].
           destruct (powerRelatedIfcs_shape (dbus h) ∅ ifcs T Hdisc) as (S & C & -> & _).
           reflexivity.
      * cbn [caught_as_ImportError] in Hload. injection Hload as <-. cbn [NoSuspend_binding].
        split; [do 3 right; left; reflexivity|].
        split; [apply Hq; do 3 right; left; reflexivity|].
        split; [split; [discriminate | intros (H & _); contradiction]|].
        split; [intros Hw; contradiction|].
        split; [split; [discriminate | intros [_ H]; contradiction]|].
        split; [discriminate | intros _ H; discriminate].
    + injection Hload as <-. cbn [NoSuspend_binding].
      split; [do 2 right; left; reflexivity|].
      split; [apply Hq; do 2 right; left; reflexivity|].
      split; [split; [discriminate | intros (H & _); contradiction]|].
      split; [intros Hw; contradiction|].
      split; [split; [intros _; split; assumption | reflexivity]|].
      split; [discriminate | intros H; contradiction].
Qed.

Lemma linux_host_loaded :
  import_module linux_host
  = inr {| NoSuspend_binding := NoSuspendLinux;
           powerRelatedIfcs_binding := Some (freedesktop_table, freedesktop_ifcs) |}.
Proof. vm_compute. reflexivity. Qed.

Lemma X13_bound_class_witness :
  In NoSuspendLinux [NoSuspendWinVistaPlus; NoSuspendLinux; NoSuspendNotImplemented;
                     NoSuspendDependenciesAreMissing].
Proof.
  exact (proj1 (X13_bound_class linux_host _ linux_host_loaded)).
Defined.

(** A session bus whose constructor raises: the import binds the class
    for missing dependencies when the exception is an [ImportError],
    and fails with the exception otherwise. *)
Example import_without_session_bus :
  import_module (no_session_bus true)
  = inr {| NoSuspend_binding := NoSuspendDependenciesAreMissing;
           powerRelatedIfcs_binding := None |} /\
  import_module (no_session_bus false) = inl (RaisedAtLoad (EndpointError 5)).
Proof. split; vm_compute; reflexivity. Qed.

(** *** [main] *)

Section MainProperties.

Variable P : Platform.
Variable powerRelatedIfcs : list (string * list (string * list (string * Endpoint))).
Variable ns : string -> option pyattr.
Variable SystemExit : Z -> exn.
Variable Popen_wait : string -> exn + Z.

Lemma for_each_carries {A} (body : A -> M (NoSuspendLinux_obj * World) unit) (l : list A)
    (st : NoSuspendLinux_obj * World) :
  (forall x s, carries_names [] s (snd (body x s)) (fst (body x s))) ->
  carries_names [] st (snd (for_each l body st)) (fst (for_each l body st)).
Proof.
  intros Hbody.
  assert (H : carries_names (concat (List.map (fun _ : A => []) l)) st
                (snd (for_each l body st)) (fst (for_each l body st))).
  { apply (for_each_ind carries_names (fun _ : A => [])).
    - intros s. split; [reflexivity|]. split; [reflexivity|].
      exists []. rewrite app_nil_r. split; [reflexivity|]. intros e a r res [].
    - intros l1 l2 s s1 s2 out (Ha1 & Hr1 & new1 & Hc1 & Hn1) (Ha2 & Hr2 & new2 & Hc2 & Hn2).
      split; [congruence|]. split; [congruence|].
      exists (new1 ++ new2). rewrite Hc2, Hc1, app_assoc. split; [reflexivity|].
      intros e a r res Hin. apply in_app_or in Hin. destruct Hin as [Hin | Hin].
      + eapply Hn1. exact Hin.
      + rewrite <- Ha1, <- Hr1. eapply Hn2. exact Hin.
    - intros l1 l2 s s1 e H. exact H.
    - intros x s. apply Hbody. }
  exact H.
Qed.

Lemma enter_carries_names (s : NoSuspendLinux_obj) (w : World) :
  exists new,
    calls (snd (snd (NoSuspendLinux_enter P powerRelatedIfcs ns (s, w)))) = calls w ++ new /\
    forall e a r res, In (InhibitCall e a r res) new -> a = appName s /\ r = reason s.
Proof.
  rewrite enter_unfold.
  assert (H : carries_names [] (s, w)
                (snd (for_each (fst (_enumDecompose (SuspendInhibitionState ns)
                                       (flag (linux_base s))))
                        (enter_group P powerRelatedIfcs) (s, w)))
                (fst (for_each (fst (_enumDecompose (SuspendInhibitionState ns)
                                       (flag (linux_base s))))
                        (enter_group P powerRelatedIfcs) (s, w)))).
  { apply for_each_carries. intros gr st. unfold enter_group.
    destruct (fst gr) as [grNm|].
    - destruct (assoc grNm powerRelatedIfcs) as [des|].
      + apply for_each_carries. intros de st1. apply for_each_carries.
        intros i [s2 w2]. rewrite acquire_endpoint_run.
        destruct (inhibit_run P (snd i) (appName s2) (reason s2) w2) as (_ & Hc & _).
        cbn zeta in Hc.
        assert (Hone : forall res0 e a r res,
                  In (InhibitCall e a r res)
                     [InhibitCall (snd i) (appName s2) (reason s2) res0] ->
                  a = appName s2 /\ r = reason s2).
        { intros res0 e a r res [H | []]. inversion H. split; reflexivity. }
        destruct (inhibit_result P (snd i) (appName s2) (reason s2) (calls w2)) as [err|ck];
          [|destruct (cookies s2)];
          (split; [reflexivity|]; split; [reflexivity|];
           eexists; split; [exact Hc | apply Hone]).
      + destruct st as [s1 w1]. cbn. split; [reflexivity|]. split; [reflexivity|].
        exists []. rewrite app_nil_r. split; [reflexivity|]. intros e a r res [].
    - split; [reflexivity|]. split; [reflexivity|].
      exists []. rewrite app_nil_r. split; [reflexivity|]. intros e a r res []. }
  destruct (for_each _ _ (s, w)) as [[err|u] st']; destruct H as (_ & _ & H); exact H.
Qed.

(** [main] past its test of the arguments: the scope is constructed,
    entered, and, if that returned, the child is run and the scope
    exited. *)
Lemma main_run (argv : list string) (p : Process) :
  (2 <= length argv)%nat ->
  let commandLine := String.concat " " (tl argv) in
  let entered := NoSuspendLinux_enter P powerRelatedIfcs ns
                   (cli_scope commandLine, world p) in
  let exited := NoSuspendLinux_exit P (snd entered) in
  main P powerRelatedIfcs ns SystemExit Popen_wait argv p
  = match fst entered with
    | inl err => (inl err, set_world (snd (snd entered)) p)
    | inr _ =>
        (match fst exited with
         | inl err => inl err
         | inr _ => inl (child_outcome SystemExit Popen_wait commandLine)
         end,
         {| world := snd (snd exited); stdout := stdout p;
            spawned := spawned p ++ [commandLine] |})
    end.
Proof.
  intros Hlen. cbn zeta. unfold main.
  destruct (Nat.ltb_spec (length argv) 2) as [Hlt|_]; [lia|].
  change (NoSuspendLinux_init ns true false true "NoSuspend CLI"
            (String.concat " " (tl argv)) [] (world p))
    with (@inr exn _ (cli_scope (String.concat " " (tl argv))), world p).
  cbn iota beta. unfold with_, in_process, run_child.
  cbn [fst snd world stdout spawned set_world].
  destruct (NoSuspendLinux_enter P powerRelatedIfcs ns
              (cli_scope (String.concat " " (tl argv)), world p)) as [[err|v] [s1 w1]];
    cbn [fst snd world stdout spawned set_world].
  - reflexivity.
  - destruct (NoSuspendLinux_exit P (s1, w1)) as [[err|u] [s2 w2]]; reflexivity.
Qed.

(** X14: [main].  With fewer than two arguments it prints the usage
    line and touches nothing else.  Otherwise it prints nothing; every
    acquisition it makes carries the application name [NoSuspend CLI]
    and the joined command line as reason; if [__enter__] raises, that
    error leaves [main], no child is spawned and nothing is released; if
    [__enter__] returns, the child is spawned once, everything released
    afterwards is a pair [__enter__] acquired, and when no release fails
    every acquired pair is released and [main] ends with what the child
    ended with: the [SystemExit] of its return code. *)
Theorem X14_main (argv : list string) (p : Process) :
  let commandLine := String.concat " " (tl argv) in
  let out := main P powerRelatedIfcs ns SystemExit Popen_wait argv p in
  let entered := NoSuspendLinux_enter P powerRelatedIfcs ns
                   (cli_scope commandLine, world p) in
  let exited := NoSuspendLinux_exit P (snd entered) in
  ((length argv < 2)%nat ->
   out = (inr tt, {| world := world p; stdout := stdout p ++ [usage];
                     spawned := spawned p |})) /\
  ((2 <= length argv)%nat ->
   stdout (snd out) = stdout p /\
   exists new,
     calls (world (snd out)) = calls (world p) ++ new /\
     (forall e a r res, In (InhibitCall e a r res) new ->
        a = "NoSuspend CLI"%string /\ r = commandLine) /\
     (forall err, fst entered = inl err ->
        fst out = inl err /\ spawned (snd out) = spawned p /\ released new = []) /\
     (forall v, fst entered = inr v ->
        spawned (snd out) = spawned p ++ [commandLine] /\
        (forall x, In x (released new) -> In x (acquired new)) /\
        (fst exited = inr tt ->
         released new ≡ₚ acquired new /\
         fst out = inl (child_outcome SystemExit Popen_wait commandLine)))).
Proof.
  cbn zeta. split.
  - intros Hlt. unfold main.
    destruct (Nat.ltb_spec (length argv) 2) as [_|Hge]; [reflexivity | lia].
  - intros Hlen. rewrite (main_run argv p Hlen).
    set (cl := String.concat " " (tl argv)).
    destruct (enter_spec P powerRelatedIfcs ns (cli_scope cl) (world p)) as [Hent _].
    destruct Hent as (_ & _ & _ & new1 & ws & Hc1 & _ & Hrel1 & _ & _ & Hdict & _).
    cbn [fst snd] in Hc1.
    destruct (Hdict [] eq_refl) as (d' & Hd' & Hperm). cbn [held concat List.map app] in Hperm.
    destruct (enter_carries_names (cli_scope cl) (world p)) as (new1' & Hc1' & Hnames).
    rewrite Hc1 in Hc1'. apply app_inv_head in Hc1'. subst new1'.
    destruct (NoSuspendLinux_enter P powerRelatedIfcs ns (cli_scope cl, world p))
      as [[err|v] [s1 w1]] eqn:Henter; cbn [fst snd] in *.
    + split; [reflexivity|]. exists new1. split; [exact Hc1|].
      split; [exact Hnames|]. split.
      * intros err0 Herr. injection Herr as <-. repeat split. exact Hrel1.
      * intros v Hv. discriminate.
    + destruct (exit_spec P s1 w1 d' Hd') as (_ & new2 & Hc2 & Ha2 & Ht2 & Hp2 & Hr2).
      destruct (NoSuspendLinux_exit P (s1, w1)) as [r2 [s2 w2]] eqn:Hexit;
        cbn [fst snd] in *.
      assert (Hcalls : calls w2 = calls (world p) ++ new1 ++ new2).
      { rewrite Hc2, Hc1, app_assoc. reflexivity. }
      assert (Hout : forall r, stdout (snd (r : exn + unit,
                       {| world := w2; stdout := stdout p;
                          spawned := spawned p ++ [cl] |})) = stdout p) by reflexivity.
      assert (Hfacts :
        exists new, calls w2 = calls (world p) ++ new /\
          (forall e a r res, In (InhibitCall e a r res) new ->
             a = "NoSuspend CLI"%string /\ r = cl) /\
          (forall x, In x (released new) -> In x (acquired new)) /\
          (r2 = inr tt -> released new ≡ₚ acquired new)).
      { exists (new1 ++ new2). split; [exact Hcalls|].
        rewrite released_app, acquired_app, Hrel1, Ha2, app_nil_r. cbn [app].
        split; [|split].
        - intros e a r res Hin. apply in_app_or in Hin. destruct Hin as [Hin | Hin].
          + eapply Hnames. exact Hin.
          + exfalso. assert (Ht : In e (tried new2)) by (apply tried_call; eauto).
            rewrite Ht2 in Ht. exact Ht.
        - intros x Hx. rewrite Hd' in Hp2. cbn [held] in Hp2.
          destruct Hp2 as [rest Hp2].
          apply (Permutation_in x Hperm). rewrite Hp2. apply in_or_app. left. exact Hx.
        - intros ->. destruct Hr2 as (Hr2 & _). rewrite Hr2, Hd'. exact Hperm. }
      destruct Hfacts as (new & Hcn & Hn & Hsub & Hall).
      destruct r2 as [err2|[]]; (split; [reflexivity|]);
        exists new; (split; [exact Hcn|]); (split; [exact Hn|]); split;
        try (intros err0 Herr; discriminate);
        intros v0 _; (split; [reflexivity|]); (split; [exact Hsub|]).
      * intros Hx. discriminate.
      * intros _. split; [apply Hall; reflexivity | reflexivity].
Qed.

End MainProperties.

Lemma X14_main_witness :
  main all_answer two_suspend_endpoints no_namespace (fun code => EndpointError code)
    (fun _ => inr 3) ["NoSuspend"%string] fresh_process
  = (inr tt, {| world := fresh_world; stdout := [usage]; spawned := [] |}) /\
  stdout (snd (main all_answer two_suspend_endpoints no_namespace
                 (fun code => EndpointError code) (fun _ => inr 3)
                 ["NoSuspend"%string; "make"%string; "all"%string] fresh_process))
  = stdout fresh_process.
Proof.
  split.
  - exact (proj1 (X14_main all_answer two_suspend_endpoints no_namespace
                    (fun code => EndpointError code) (fun _ => inr 3)
                    ["NoSuspend"%string] fresh_process)
             ltac:(cbn; lia)).
  - exact (proj1 (proj2 (X14_main all_answer two_suspend_endpoints no_namespace
                           (fun code => EndpointError code) (fun _ => inr 3)
                           ["NoSuspend"%string; "make"%string; "all"%string] fresh_process)
                    ltac:(cbn; lia))).
Defined.

(** [main] on a command line, with two endpoints that answer. *)
Example main_example :
  let out := main all_answer two_suspend_endpoints no_namespace
               (fun code => EndpointError code) (fun _ => inr 3)
               ["NoSuspend"%string; "make"%string; "all"%string] fresh_process in
  fst out = inl (EndpointError 3) /\
  spawned (snd out) = ["make all"%string] /\
  calls (world (snd out))
  = [InhibitCall 0%nat "NoSuspend CLI" "make all" (inr 7);
     InhibitCall 1%nat "NoSuspend CLI" "make all" (inr 8);
     UnInhibitCall 0%nat 7 (inr tt); UnInhibitCall 1%nat 8 (inr tt)].
Proof. vm_compute. repeat split. Qed.

(** *** The finalizers *)

Lemma record_call_cookies (c : Call) (w : World) :
  inhibitor_cookies (record_call c w) = inhibitor_cookies w.
Proof. reflexivity. Qed.

(** X15: the finalizer of an inhibitor object always returns; it
    attempts one release for every cookie still in the set of the
    inhibitor, whether or not earlier attempts failed, attempts nothing
    else, and leaves every set as it is: the cookies are not forgotten. *)
Theorem X15_inhibitor_finalizer (P : Platform) (e : Endpoint) (w : World) :
  fst (DBusInhibitor_del P e w) = inr tt /\
  inhibitor_cookies (snd (DBusInhibitor_del P e w)) = inhibitor_cookies w /\
  warned (snd (DBusInhibitor_del P e w)) = warned w /\
  exists new,
    calls (snd (DBusInhibitor_del P e w)) = calls w ++ new /\
    acquired new = [] /\
    released new = List.map (fun ck => (e, ck)) (elements (cookies_of e w)) /\
    Forall (consistent P) new.
Proof.
  change (DBusInhibitor_del P e w)
    with (for_each (elements (cookies_of e w))
            (fun ck => try_pass (_uninhibitCall P e ck)) w).
  generalize (elements (cookies_of e w)). intros l. revert w.
  induction l as [|ck l IH]; intros w.
  - repeat (split; [reflexivity|]). exists []. rewrite app_nil_r.
    repeat (split; [reflexivity|]). constructor.
  - change (for_each (ck :: l) (fun ck => try_pass (_uninhibitCall P e ck)) w)
      with (for_each l (fun ck => try_pass (_uninhibitCall P e ck))
              (record_call (UnInhibitCall e ck (uninhibit_result P e ck (calls w))) w)).
    destruct (IH (record_call (UnInhibitCall e ck (uninhibit_result P e ck (calls w))) w))
      as (Hr & Hs & Hw & new & Hc & Ha & Hrel & Hcons).
    split; [exact Hr|]. split; [exact Hs|]. split; [exact Hw|].
    exists (UnInhibitCall e ck (uninhibit_result P e ck (calls w)) :: new).
    rewrite Hc. cbn [calls record_call]. rewrite <- app_assoc.
    split; [reflexivity|]. split; [exact Ha|]. split.
    + change (released (UnInhibitCall e ck (uninhibit_result P e ck (calls w)) :: new))
        with ((e, ck) :: released new).
      rewrite Hrel. reflexivity.
    + constructor; [exists (calls w); reflexivity | exact Hcons].
Qed.

(** X16: the finalizer of the Linux scope is no implicit exit: whatever
    the scope holds, it returns without reaching an endpoint and leaves
    the scope, the sets of the inhibitors and the log as they are, where
    [__exit__] on the same state attempts the release of the held
    pairs. *)
Theorem X16_scope_finalizer_releases_nothing (P : Platform)
    (s : NoSuspendLinux_obj) (w : World) (d : list (string * list (Endpoint * Cookie)))
    (Hd : cookies s = DefaultDict d) (Hheld : held (cookies s) <> []) :
  NoSuspendLinux_del (s, w) = (inr tt, (s, w)) /\
  exists new,
    calls (snd (snd (NoSuspendLinux_exit P (s, w)))) = calls w ++ new /\
    released new <> [].
Proof.
  split; [apply del_does_nothing|].
  destruct (exit_spec P s w d Hd) as (_ & new & Hc & _ & _ & Hp & Hr).
  exists new. split; [exact Hc|].
  destruct (fst (NoSuspendLinux_exit P (s, w))) as [err|u].
  - destruct Hr as (_ & pre & e & ck & res & -> & _).
    rewrite released_app. cbn. intros H. apply app_eq_nil in H. destruct H as [_ H].
    discriminate.
  - destruct Hr as (-> & _). exact Hheld.
Qed.

Lemma X16_scope_finalizer_releases_nothing_witness :
  NoSuspendLinux_del
    (set_cookies (DefaultDict [("suspend"%string, [(0%nat, 7)])]) (linux_scope true false),
     fresh_world)
  = (inr tt,
     (set_cookies (DefaultDict [("suspend"%string, [(0%nat, 7)])]) (linux_scope true false),
      fresh_world)).
Proof.
  exact (proj1 (X16_scope_finalizer_releases_nothing all_answer
                  (set_cookies (DefaultDict [("suspend"%string, [(0%nat, 7)])])
                     (linux_scope true false))
                  fresh_world [("suspend"%string, [(0%nat, 7)])] eq_refl
                  ltac:(discriminate))).
Defined.

(** *** Discovery finds what answers *)

Lemma ifc_of_insert (e e' : Endpoint) (m : gmap string (Proxy * string)) (ifcs : Ifcs) :
  ifc_of e' (<[e := m]> ifcs) = if decide (e = e') then m else ifc_of e' ifcs.
Proof.
  unfold ifc_of. destruct (decide (e = e')) as [->|Hne].
  - rewrite lookup_insert_eq. reflexivity.
  - rewrite lookup_insert_ne by exact Hne. reflexivity.
Qed.

Lemma dict_set_has {A} (k : string) (v : A) (d : list (string * A)) :
  In (k, v) (dict_set k v d).
Proof.
  induction d as [|[k0 v0] d IH]; simpl; [left; reflexivity|].
  destruct (String.eqb_spec k k0) as [->|Hne]; [left; reflexivity | right; exact IH].
Qed.

Lemma dict_set_other {A} (k k' : string) (v v' : A) (d : list (string * A)) :
  k <> k' -> In (k, v) d -> In (k, v) (dict_set k' v' d).
Proof.
  intros Hne. induction d as [|[k0 v0] d IH]; simpl; [intros []|].
  destruct (String.eqb_spec k' k0) as [->|Hne0].
  - intros [H | H]; [inversion H; subst; contradiction | right; exact H].
  - intros [H | H]; [left; exact H | right; apply IH; exact H].
Qed.

Section Completeness.

Variable env : DBusEnv.
Variable buses : list bus_kind.

Lemma discover_app_flat (apps : list (app_key * list (string * Inhibitor))) :
  forall st,
    fold_left (discover_app env buses) apps st
    = fold_left (discover_entry env buses) (entries_of_de apps) st.
Proof.
  unfold entries_of_de. induction apps as [|[key paths] apps IH]; intros st; [reflexivity|].
  cbn [fold_left List.map concat fst snd]. rewrite fold_left_app, IH. f_equal.
  unfold discover_app. cbn [fst snd]. clear IH. revert st.
  induction paths as [|pp paths IHp]; intros st; [reflexivity|].
  cbn [fold_left List.map]. rewrite IHp. reflexivity.
Qed.

(** Resolving the methods of one inhibitor leaves the others alone and
    keeps what it has resolved. *)
Lemma resolve_other (proxy : Proxy) (i : Inhibitor) (names : list (option string))
    (e : Endpoint) :
  inhibitor_id i <> e ->
  forall ifcs, ifc_of e (fold_left (resolve_method env proxy i) names ifcs) = ifc_of e ifcs.
Proof.
  intros Hne. induction names as [|m names IH]; intros ifcs; [reflexivity|].
  cbn [fold_left]. rewrite IH. unfold resolve_method.
  destruct m as [name|]; [|reflexivity].
  destruct (getattr_ok env proxy name); [|reflexivity].
  rewrite ifc_of_insert. rewrite decide_False by exact Hne. reflexivity.
Qed.

Lemma resolve_keeps (proxy : Proxy) (i : Inhibitor) (names : list (option string))
    (n : string) :
  forall ifcs,
    ifc_of (inhibitor_id i) ifcs !! n = Some (proxy, n) ->
    ifc_of (inhibitor_id i) (fold_left (resolve_method env proxy i) names ifcs) !! n
    = Some (proxy, n).
Proof.
  induction names as [|m names IH]; intros ifcs Hn; [exact Hn|].
  cbn [fold_left]. apply IH. unfold resolve_method.
  destruct m as [name|]; [|exact Hn].
  destruct (getattr_ok env proxy name); [|exact Hn].
  rewrite ifc_of_insert. rewrite decide_True by reflexivity.
  destruct (decide (name = n)) as [->|Hne].
  - rewrite lookup_insert_eq. reflexivity.
  - rewrite lookup_insert_ne by exact Hne. exact Hn.
Qed.

Lemma resolve_sets (proxy : Proxy) (i : Inhibitor) (names : list (option string))
    (n : string) :
  In (Some n) names -> getattr_ok env proxy n = true ->
  forall ifcs,
    ifc_of (inhibitor_id i) (fold_left (resolve_method env proxy i) names ifcs) !! n
    = Some (proxy, n).
Proof.
  intros Hin Hok. induction names as [|m names IH]; intros ifcs; [contradiction|].
  cbn [fold_left]. destruct Hin as [-> | Hin]; [|apply IH; exact Hin].
  apply resolve_keeps. unfold resolve_method. rewrite Hok.
  rewrite ifc_of_insert. rewrite decide_True by reflexivity.
  rewrite lookup_insert_eq. reflexivity.
Qed.

(** One entry. *)
Lemma entry_other_ifc (t : app_key * (string * Inhibitor)) (e : Endpoint) (st : discovery_state) :
  entry_id t <> e ->
  ifc_of e (snd (discover_entry env buses st t)) = ifc_of e (snd st).
Proof.
  intros Hne. unfold discover_entry, discover_path.
  destruct (find_proxy env buses (aliases_of (fst t)) (fst (snd t))); [|reflexivity].
  cbn [snd]. apply resolve_other. exact Hne.
Qed.

Lemma entry_keeps_name (t : app_key * (string * Inhibitor)) (k : string) (v : Inhibitor)
    (st : discovery_state) :
  entry_name t <> k -> In (k, v) (fst st) ->
  In (k, v) (fst (discover_entry env buses st t)).
Proof.
  intros Hne Hin. unfold discover_entry, discover_path.
  destruct (find_proxy env buses (aliases_of (fst t)) (fst (snd t))); [|exact Hin].
  cbn [fst]. apply dict_set_other; [|exact Hin].
  intros Heq. apply Hne. symmetry. exact Heq.
Qed.

(** The entries of one desktop. *)
Lemma entries_other_ifc (l : list (app_key * (string * Inhibitor))) (e : Endpoint) :
  ~ In e (List.map entry_id l) ->
  forall st, ifc_of e (snd (fold_left (discover_entry env buses) l st)) = ifc_of e (snd st).
Proof.
  induction l as [|t l IH]; intros Hnotin st; [reflexivity|].
  cbn [fold_left]. rewrite IH.
  - apply entry_other_ifc. intros Heq. apply Hnotin. left. exact Heq.
  - intros Hin. apply Hnotin. right. exact Hin.
Qed.

Lemma entries_keep_name (l : list (app_key * (string * Inhibitor))) (k : string)
    (v : Inhibitor) :
  ~ In k (List.map entry_name l) ->
  forall st, In (k, v) (fst st) ->
             In (k, v) (fst (fold_left (discover_entry env buses) l st)).
Proof.
  induction l as [|t l IH]; intros Hnotin st Hin; [exact Hin|].
  cbn [fold_left]. apply IH.
  - intros H. apply Hnotin. right. exact H.
  - apply entry_keeps_name; [|exact Hin]. intros Heq. apply Hnotin. left. exact Heq.
Qed.

Lemma entries_complete (l : list (app_key * (string * Inhibitor)))
    (t : app_key * (string * Inhibitor)) (proxy : Proxy) :
  NoDup (List.map entry_name l) -> NoDup (List.map entry_id l) ->
  In t l ->
  find_proxy env buses (aliases_of (fst t)) (fst (snd t)) = Some proxy ->
  forall st,
    In (entry_name t, snd (snd t)) (fst (fold_left (discover_entry env buses) l st)) /\
    forall n, In (Some n) (methodsNames (snd (snd t))) -> getattr_ok env proxy n = true ->
      ifc_of (entry_id t) (snd (fold_left (discover_entry env buses) l st)) !! n
      = Some (proxy, n).
Proof.
  intros Hnames Hids Hin Hfind.
  induction l as [|t0 l IH]; intros st; [contradiction|].
  cbn [List.map] in Hnames, Hids.
  apply NoDup_cons in Hnames. destruct Hnames as [Hn0 Hnames].
  apply NoDup_cons in Hids. destruct Hids as [Hi0 Hids].
  rewrite list_elem_of_In in Hn0. rewrite list_elem_of_In in Hi0.
  cbn [fold_left]. destruct Hin as [-> | Hin]; [|apply IH; assumption].
  split.
  - apply entries_keep_name; [exact Hn0|].
    unfold discover_entry, discover_path. rewrite Hfind. cbn [fst]. apply dict_set_has.
  - intros n Hn Hok. rewrite entries_other_ifc by exact Hi0.
    unfold discover_entry, discover_path. rewrite Hfind. cbn [snd].
    apply resolve_sets; assumption.
Qed.

(** One desktop. *)
Lemma de_other_ifc (de : string * list (app_key * list (string * Inhibitor))) (e : Endpoint)
    (st : list (string * list (string * Inhibitor)) * Ifcs) :
  ~ In e (List.map entry_id (entries_of_de (snd de))) ->
  ifc_of e (snd (discover_de env buses st de)) = ifc_of e (snd st).
Proof.
  intros Hnotin. unfold discover_de. rewrite discover_app_flat.
  pose proof (entries_other_ifc (entries_of_de (snd de)) e Hnotin ([], snd st)) as H.
  destruct (fst (fold_left (discover_entry env buses) (entries_of_de (snd de)) ([], snd st)));
    exact H.
Qed.

Lemma de_keeps (de : string * list (app_key * list (string * Inhibitor))) (k : string)
    (v : list (string * Inhibitor)) (st : list (string * list (string * Inhibitor)) * Ifcs) :
  fst de <> k -> In (k, v) (fst st) -> In (k, v) (fst (discover_de env buses st de)).
Proof.
  intros Hne Hin. unfold discover_de.
  destruct (fst (fold_left (discover_app env buses) (snd de) ([], snd st)));
    [exact Hin|].
  cbn [fst]. apply dict_set_other; [congruence | exact Hin].
Qed.

Lemma cfg_other_ifc (cfg : group_config) (e : Endpoint) :
  ~ In e (concat (List.map (fun de => List.map entry_id (entries_of_de (snd de))) cfg)) ->
  forall st, ifc_of e (snd (fold_left (discover_de env buses) cfg st)) = ifc_of e (snd st).
Proof.
  induction cfg as [|de cfg IH]; intros Hnotin st; [reflexivity|].
  cbn [fold_left]. cbn [List.map concat] in Hnotin. rewrite IH.
  - apply de_other_ifc. intros H. apply Hnotin. apply in_or_app. left. exact H.
  - intros H. apply Hnotin. apply in_or_app. right. exact H.
Qed.

Lemma cfg_keeps (cfg : group_config) (k : string) (v : list (string * Inhibitor)) :
  ~ In k (List.map fst cfg) ->
  forall st, In (k, v) (fst st) -> In (k, v) (fst (fold_left (discover_de env buses) cfg st)).
Proof.
  induction cfg as [|de cfg IH]; intros Hnotin st Hin; [exact Hin|].
  cbn [fold_left]. apply IH.
  - intros H. apply Hnotin. right. exact H.
  - apply de_keeps; [|exact Hin]. intros Heq. apply Hnotin. left. exact Heq.
Qed.

Lemma cfg_complete (cfg : group_config)
    (de : string * list (app_key * list (string * Inhibitor)))
    (t : app_key * (string * Inhibitor)) (proxy : Proxy) :
  well_named cfg -> In de cfg -> In t (entries_of_de (snd de)) ->
  find_proxy env buses (aliases_of (fst t)) (fst (snd t)) = Some proxy ->
  forall st,
    (exists deRes,
       In (fst de, deRes) (fst (fold_left (discover_de env buses) cfg st)) /\
       In (entry_name t, snd (snd t)) deRes) /\
    forall n, In (Some n) (methodsNames (snd (snd t))) -> getattr_ok env proxy n = true ->
      ifc_of (entry_id t) (snd (fold_left (discover_de env buses) cfg st)) !! n
      = Some (proxy, n).
Proof.
  intros (Hdes & Hnames & Hids) Hde Ht Hfind.
  induction cfg as [|de0 cfg IH]; intros st; [contradiction|].
  cbn [List.map concat] in Hdes, Hids.
  apply NoDup_cons in Hdes. destruct Hdes as [Hd0 Hdes].
  rewrite list_elem_of_In in Hd0.
  apply NoDup_app in Hids. destruct Hids as (Hids0 & Hdisj & Hids).
  cbn [fold_left]. destruct Hde as [-> | Hde].
  - pose proof (entries_complete (entries_of_de (snd de)) t proxy
                  (Hnames de (or_introl eq_refl)) Hids0 Ht Hfind ([], snd st)) as [Hin Hifc].
    assert (Hstep : fst (discover_de env buses st de)
                    = dict_set (fst de)
                        (fst (fold_left (discover_entry env buses)
                                (entries_of_de (snd de)) ([], snd st))) (fst st) /\
                    snd (discover_de env buses st de)
                    = snd (fold_left (discover_entry env buses)
                             (entries_of_de (snd de)) ([], snd st))).
    { unfold discover_de. rewrite discover_app_flat.
      destruct (fst (fold_left (discover_entry env buses) (entries_of_de (snd de))
                       ([], snd st))) as [|x deRes] eqn:Hres; [contradiction|].
      split; reflexivity. }
    destruct Hstep as [Hfst Hsnd]. split.
    + eexists. split; [|exact Hin].
      apply cfg_keeps; [exact Hd0|]. rewrite Hfst. apply dict_set_has.
    + intros n Hn Hok. rewrite cfg_other_ifc.
      * rewrite Hsnd. apply Hifc; assumption.
      * intros H. apply (Hdisj (entry_id t)).
        -- apply list_elem_of_In. apply in_map. exact Ht.
        -- apply list_elem_of_In. exact H.
  - apply IH; try assumption.
    intros de' Hde'. apply Hnames. right. exact Hde'.
Qed.

End Completeness.

(** Both groups of the table are configurations in which nothing
    overwrites anything. *)
Lemma table_well_named :
  Forall (fun g => well_named (snd g)) dbusPowerRelatedInterfaces.
Proof.
  unfold dbusPowerRelatedInterfaces.
  apply Forall_cons. split; [|apply Forall_cons; split; [|apply Forall_nil; exact I]].
  all: split; [|split].
  all: try (apply (bool_decide_unpack _); vm_compute; exact I).
  all: intros de Hde; cbn [snd In] in Hde.
  all: repeat (destruct Hde as [<- | Hde];
               [apply (bool_decide_unpack _); vm_compute; exact I|]).
  all: contradiction.
Qed.

(** X17: discovery finds what answers.  In a configuration in which
    nothing overwrites anything (distinct desktop names, distinct last
    segments of the paths of one desktop, no inhibitor configured
    twice), every configured path on which some alias answers puts its
    inhibitor into the result, under its desktop and the last segment of
    its path, and leaves every method name of the inhibitor that the
    proxy resolves bound to the proxy of the first alias, on the first
    bus, that answered.  Both groups of the table are such
    configurations. *)
Theorem X17_discovery_finds_what_answers (env : DBusEnv) (cfg : group_config)
    (ifcs ifcs' : Ifcs) (found : list (string * list (string * Inhibitor)))
    (de : string) (apps : list (app_key * list (string * Inhibitor)))
    (key : app_key) (paths : list (string * Inhibitor)) (path : string) (i : Inhibitor)
    (proxy : Proxy)
    (Hcfg : well_named cfg)
    (Hrun : obtainDbusInterfaces env cfg ifcs = (inr found, ifcs'))
    (Hde : In (de, apps) cfg) (Hkey : In (key, paths) apps) (Hpath : In (path, i) paths)
    (Hanswer : find_proxy env [SystemBus; SessionBus] (aliases_of key) path = Some proxy) :
  (exists deRes, In (de, deRes) found /\ In (proxy_name path, i) deRes) /\
  (forall n, In (Some n) (methodsNames i) -> getattr_ok env proxy n = true ->
     ifc_of (inhibitor_id i) ifcs' !! n = Some (proxy, n)) /\
  Forall (fun g => well_named (snd g)) dbusPowerRelatedInterfaces.
Proof.
  unfold obtainDbusInterfaces, construct_buses, bind in Hrun.
  destruct (bus_ctor env SystemBus); [discriminate|].
  destruct (bus_ctor env SessionBus); [discriminate|].
  cbn [ret] in Hrun. injection Hrun as <- <-.
  assert (Ht : In (key, (path, i)) (entries_of_de (snd (de, apps)))).
  { unfold entries_of_de. apply in_concat.
    exists (List.map (fun pp => (key, pp)) paths). split.
    - apply in_map_iff. exists (key, paths). split; [reflexivity | exact Hkey].
    - apply in_map. exact Hpath. }
  destruct (cfg_complete env [SystemBus; SessionBus] cfg (de, apps) (key, (path, i)) proxy
              Hcfg Hde Ht Hanswer ([], ifcs)) as [Hfound Hifc].
  split; [exact Hfound|]. split; [exact Hifc|]. exact table_well_named.
Qed.

Lemma suspend_config_loaded :
  obtainDbusInterfaces freedesktop_session suspend_config ∅
  = (inr (match freedesktop_table with g :: _ => snd g | [] => [] end),
     snd (obtainDbusInterfaces freedesktop_session suspend_config ∅)).
Proof. vm_compute. reflexivity. Qed.

Lemma X17_discovery_finds_what_answers_witness :
  ifc_of 0%nat (snd (obtainDbusInterfaces freedesktop_session suspend_config ∅))
    !! "Inhibit"%string
  = Some (power_manager_proxy, "Inhibit"%string).
Proof.
  refine (proj1 (proj2
    (X17_discovery_finds_what_answers freedesktop_session suspend_config ∅ _ _
       "freedesktop"%string _
       (AppAliases ["org.freedesktop.PowerManagement"%string;
                    "org.kde.powerdevil"%string; "org.xfce.PowerManager"%string])
       _ "/org/freedesktop/PowerManagement/Inhibit"%string
       {| inhibitor_id := 0%nat; inhibitor_class_of := DBusInhibitor;
          additionalMethods := ["HasInhibit"%string; "GetInhibitors"%string;
                                "HasInhibitChanged"%string] |}
       power_manager_proxy _ suspend_config_loaded _ _ _ _))
    "Inhibit"%string _ _).
  - apply (Forall_inv table_well_named).
  - left. reflexivity.
  - left. reflexivity.
  - left. reflexivity.
  - reflexivity.
  - left. reflexivity.
  - reflexivity.
Defined.

Example proxy_name_examples :
  proxy_name "/org/freedesktop/PowerManagement/Inhibit" = "Inhibit"%string /\
  proxy_name "/org/freedesktop/login1" = "login1"%string /\
  proxy_name "" = ""%string /\ proxy_name "a/" = ""%string.
Proof. repeat split. Qed.
